(** * DingTalk channel extension: session store, outbound delivery engine,
      per-turn reply dispatcher, inbound turn handler and gateway stop logic.

    Shallow embedding of [extensions/dingtalk/src/{session,send,media,bot,
    reply-dispatcher,channel,auth,onboarding}.ts].

    Conventions of the embedding.
    - A JavaScript string is a [string]: the UTF-8 bytes of its text.
      Where the code counts positions in UTF-16 code units ([slice] at a
      match index), the model counts the code units of the characters.
    - [Date.now()] is an integer number of milliseconds, a [Z]; every
      function that reads the clock takes the value(s) it reads as arguments.
    - A [Map<string, V>] is a [gmap string V].
    - External collaborators (HTTP transport, card API, regular expression
      engine, text chunker, agent pipeline) are parameters: a [World] of
      oracles answers each call from the history of calls made so far, and
      every call is appended to that history as an [Event].
    - Logging ([log?.info?.(..)], [console.log]) has no influence on control
      flow and is left out. *)

From Stdlib Require Import ZArith List Ascii String DecimalString DecimalZ Bool Lia.
From stdpp Require Import gmap strings list fin_maps.

Local Open Scope Z_scope.

(* ===================================================================== *)
(** * JavaScript string primitives used by the extension                  *)
(* ===================================================================== *)

Module JS.

(** Truthiness of a string: only the empty string is falsy. *)
Definition truthy (s : string) : bool := negb (String.eqb s "").

(** Truthiness of an optional string ([undefined], [null] and the empty
    string are falsy). *)
Definition truthyOpt (o : option string) : bool :=
  match o with Some s => truthy s | None => false end.

(** [a || b] on optional strings. *)
Definition orElse (a b : option string) : option string :=
  if truthyOpt a then a else b.

Definition code (a : ascii) : nat := nat_of_ascii a.

(** ECMAScript WhiteSpace and LineTerminator code points, by the length of
    their UTF-8 encoding.  One byte: TAB, LF, VT, FF, CR, SP. *)
Definition ws1 (a : ascii) : bool :=
  let n := code a in
  ((9 <=? n)%nat && (n <=? 13)%nat) || (n =? 32)%nat.

(** Two bytes: U+00A0 (C2 A0). *)
Definition ws2 (a b : ascii) : bool :=
  (code a =? 194)%nat && (code b =? 160)%nat.

(** Three bytes: U+1680, U+2000..U+200A, U+2028, U+2029, U+202F, U+205F,
    U+3000, U+FEFF. *)
Definition ws3 (a b c : ascii) : bool :=
  let x := code a in let y := code b in let z := code c in
  ((x =? 225)%nat && (y =? 154)%nat && (z =? 128)%nat)
  || ((x =? 226)%nat && (y =? 128)%nat &&
      (((128 <=? z)%nat && (z <=? 138)%nat)
       || (z =? 168)%nat || (z =? 169)%nat || (z =? 175)%nat))
  || ((x =? 226)%nat && (y =? 129)%nat && (z =? 159)%nat)
  || ((x =? 227)%nat && (y =? 128)%nat && (z =? 128)%nat)
  || ((x =? 239)%nat && (y =? 187)%nat && (z =? 191)%nat).

(** The string is empty or made of white space only. *)
Fixpoint allWs (s : string) : bool :=
  match s with
  | EmptyString => true
  | String a r1 =>
      if ws1 a then allWs r1 else
      match r1 with
      | EmptyString => false
      | String b r2 =>
          if ws2 a b then allWs r2 else
          match r2 with
          | EmptyString => false
          | String c r3 => if ws3 a b c then allWs r3 else false
          end
      end
  end.

(** [s.trimStart()] *)
Fixpoint trimStart (s : string) : string :=
  match s with
  | EmptyString => EmptyString
  | String a r1 =>
      if ws1 a then trimStart r1 else
      match r1 with
      | EmptyString => s
      | String b r2 =>
          if ws2 a b then trimStart r2 else
          match r2 with
          | EmptyString => s
          | String c r3 => if ws3 a b c then trimStart r3 else s
          end
      end
  end.

(** [s.trimEnd()]: drop the longest suffix that is white space only. *)
Fixpoint trimEnd (s : string) : string :=
  match s with
  | EmptyString => EmptyString
  | String a r => if allWs s then EmptyString else String a (trimEnd r)
  end.

(** [s.trim()] *)
Definition trim (s : string) : string := trimEnd (trimStart s).

(** [!s.trim()] *)
Definition isBlank (s : string) : bool := negb (truthy (trim s)).

(** [s.toLowerCase()] on the ASCII letters; bytes of multi-byte characters
    are left as they are. *)
Definition lowerChar (a : ascii) : ascii :=
  let n := code a in
  if ((65 <=? n)%nat && (n <=? 90)%nat)%bool then ascii_of_nat (n + 32) else a.

Fixpoint toLowerCase (s : string) : string :=
  match s with
  | EmptyString => EmptyString
  | String a r => String (lowerChar a) (toLowerCase r)
  end.

(** [`${n}`] for an integer [n] (below 1e21 in absolute value): its decimal
    digits, with a leading minus sign when negative. *)
Definition numberToString (n : Z) : string :=
  NilEmpty.string_of_int (Z.to_int n).

(** [s.startsWith(p)] *)
Fixpoint startsWith (p s : string) : bool :=
  match p, s with
  | EmptyString, _ => true
  | String a p', String b s' => (Ascii.eqb a b) && startsWith p' s'
  | String _ _, EmptyString => false
  end.

(** [s.includes(p)] *)
Fixpoint includes (p s : string) : bool :=
  startsWith p s ||
  match s with
  | EmptyString => false
  | String _ s' => includes p s'
  end.

(** [s.slice(n)] for [0 <= n]. *)
Fixpoint drop (n : nat) (s : string) : string :=
  match n, s with
  | O, _ => s
  | S n', String _ s' => drop n' s'
  | S _, EmptyString => EmptyString
  end.

(** [s.slice(0, n)] for [0 <= n]. *)
Fixpoint take (n : nat) (s : string) : string :=
  match n, s with
  | O, _ => EmptyString
  | S n', String a s' => String a (take n' s')
  | S _, EmptyString => EmptyString
  end.

(** The replacement text of [s.replace(p, r)] for a string pattern
    (GetSubstitution without captures): in [r], [$$] stands for a dollar
    sign, [$&] for the matched text, [$`] for the text before the match and
    [$'] for the text after it; a dollar sign before anything else, a digit
    included, stands for itself. *)
Fixpoint getSubstitution (matched before after r : string) : string :=
  match r with
  | EmptyString => EmptyString
  | String a r1 =>
      if Ascii.eqb a "$" then
        match r1 with
        | String b r2 =>
            if Ascii.eqb b "$" then String "$" (getSubstitution matched before after r2)
            else if Ascii.eqb b "&" then matched +:+ getSubstitution matched before after r2
            else if Ascii.eqb b "`" then before +:+ getSubstitution matched before after r2
            else if Ascii.eqb b "'" then after +:+ getSubstitution matched before after r2
            else String "$" (getSubstitution matched before after r1)
        | EmptyString => String "$" EmptyString
        end
      else String a (getSubstitution matched before after r1)
  end.

(** [s.replace(p, r)] with a string pattern: the first occurrence only;
    [before] is the text already passed. *)
Fixpoint replaceFrom (p r before s : string) : string :=
  if startsWith p s
  then getSubstitution p before (drop (String.length p) s) r +:+ drop (String.length p) s
  else match s with
       | EmptyString => EmptyString
       | String a s' => String a (replaceFrom p r (before +:+ String a EmptyString) s')
       end.

Definition replace (p r s : string) : string := replaceFrom p r EmptyString s.

(** A continuation byte of a UTF-8 sequence. *)
Definition isContinuation (a : ascii) : bool :=
  ((128 <=? code a)%nat && (code a <? 192)%nat)%bool.

(** The characters of a string, each as the bytes of its UTF-8 sequence:
    a byte together with the continuation bytes that follow it. *)
Fixpoint chars (s : string) : list string :=
  match s with
  | EmptyString => []
  | String a r =>
      let rest := chars r in
      match r with
      | String b _ =>
          if isContinuation b
          then match rest with
               | c :: cs => String a c :: cs
               | [] => [String a EmptyString]
               end
          else String a EmptyString :: rest
      | EmptyString => [String a EmptyString]
      end
  end.

(** The number of UTF-16 code units of a character: two for a character
    outside the Basic Multilingual Plane (a sequence of four bytes). *)
Definition units (c : string) : nat :=
  match c with
  | String a _ => if (240 <=? code a)%nat then 2 else 1
  | EmptyString => 0
  end.

Definition concat (cs : list string) : string :=
  fold_right String.append EmptyString cs.

(** The characters wholly between the code unit positions [from] and [to].
    A surrogate pair cut by one of the two positions would leave one lone
    surrogate at that end of the slice, which is no character: it is left
    out. *)
Fixpoint sliceChars (from to : nat) (cs : list string) : list string :=
  match cs with
  | [] => []
  | c :: cs' =>
      (if ((from =? 0)%nat && (units c <=? to)%nat)%bool then [c] else [])
      ++ sliceChars (from - units c) (to - units c) cs'
  end.

(** [s.slice(from, to)] for [0 <= from <= to], in UTF-16 code units. *)
Definition sliceUnits (from to : nat) (s : string) : string :=
  concat (sliceChars from to (chars s)).

(** [s.slice(0, n) + f(s.slice(n))] for [0 <= n], in UTF-16 code units,
    where [n] is the index of a match: the position of a character, not
    one inside a surrogate pair. *)
Fixpoint onSuffixChars (n : nat) (f : string -> string) (cs : list string) : string :=
  match n, cs with
  | S _, c :: cs' => c +:+ onSuffixChars (n - units c) f cs'
  | _, _ => f (concat cs)
  end.

Definition onSuffix (n : nat) (f : string -> string) (s : string) : string :=
  onSuffixChars n f (chars s).

(** The bytes of a string. *)
Fixpoint bytes (s : string) : list ascii :=
  match s with
  | EmptyString => []
  | String a r => a :: bytes r
  end.

(** The bytes that occur in the encodings of white space. *)
Definition wsByte (a : ascii) : bool :=
  let n := code a in
  ((9 <=? n)%nat && (n <=? 13)%nat) || (n =? 32)%nat
  || ((128 <=? n)%nat && (n <=? 138)%nat)
  || existsb (Nat.eqb n) [154; 159; 160; 168; 169; 175; 187; 191; 194; 225; 226; 227; 239]%nat.

End JS.

(* ===================================================================== *)
(** * session.ts: message de-duplication and per-sender sessions          *)
(* ===================================================================== *)

Module Session.

(** interface UserSession *)
Record UserSession := mkUserSession {
  lastActivity : Z;
  sessionId : string
}.

(** const MESSAGE_DEDUP_TTL = 5 * 60 * 1000 *)
Definition MESSAGE_DEDUP_TTL : Z := 5 * 60 * 1000.

(** [cleanupProcessedMessages()]; [now] is its reading of the clock.
    Deleting the current entry while iterating a [Map] is well defined in
    JavaScript: every entry is visited once, and removed when expired. *)
Definition cleanupProcessedMessages (now : Z) (processedMessages : gmap string Z)
  : gmap string Z :=
  filter (λ kv : string * Z, ¬ (now - kv.2 > MESSAGE_DEDUP_TTL)) processedMessages.

(** [isMessageProcessed(messageId)] *)
Definition isMessageProcessed (messageId : string) (processedMessages : gmap string Z)
  : bool :=
  if negb (JS.truthy messageId) then false
  else bool_decide (is_Some (processedMessages !! messageId)).

(** [markMessageProcessed(messageId)]; [now] is the clock read by
    [processedMessages.set], [now'] the later one read by the sweep. *)
Definition markMessageProcessed (now now' : Z) (messageId : string)
    (processedMessages : gmap string Z) : gmap string Z :=
  if negb (JS.truthy messageId) then processedMessages
  else
    let inserted := <[messageId := now]> processedMessages in
    if (100 <=? size inserted)%nat
    then cleanupProcessedMessages now' inserted
    else inserted.

(** const NEW_SESSION_COMMANDS *)
Definition NEW_SESSION_COMMANDS : list string :=
  ["/new"; "/reset"; "/clear"; "新会话"; "重新开始"; "清空对话"].

(** [isNewSessionCommand(text)] *)
Definition isNewSessionCommand (text : string) : bool :=
  let trimmed := JS.toLowerCase (JS.trim text) in
  existsb (fun cmd => String.eqb trimmed (JS.toLowerCase cmd)) NEW_SESSION_COMMANDS.

(** The two shapes of a session identifier. *)
Definition initialSessionId (senderId : string) : string :=
  "dingtalk-connector:" +:+ senderId.

Definition rotatedSessionId (senderId : string) (now : Z) : string :=
  "dingtalk-connector:" +:+ senderId +:+ ":" +:+ JS.numberToString now.

Record SessionKeyResult := mkSessionKeyResult {
  sessionKey : string;
  isNew : bool
}.

(** [getSessionKey(senderId, forceNew, sessionTimeout)] at clock [now]:
    returns the result and the updated [userSessions]. *)
Definition getSessionKey (now : Z) (senderId : string) (forceNew : bool)
    (sessionTimeout : Z) (userSessions : gmap string UserSession)
  : SessionKeyResult * gmap string UserSession :=
  let existing := userSessions !! senderId in
  if forceNew then
    let sessionId := rotatedSessionId senderId now in
    (mkSessionKeyResult sessionId true,
     <[senderId := mkUserSession now sessionId]> userSessions)
  else
    match existing with
    | Some existing =>
        let elapsed := now - lastActivity existing in
        if elapsed >? sessionTimeout then
          let sessionId := rotatedSessionId senderId now in
          (mkSessionKeyResult sessionId true,
           <[senderId := mkUserSession now sessionId]> userSessions)
        else
          (mkSessionKeyResult (sessionId existing) false,
           <[senderId := mkUserSession now (sessionId existing)]> userSessions)
    | None =>
        let sessionId := initialSessionId senderId in
        (mkSessionKeyResult sessionId false,
         <[senderId := mkUserSession now sessionId]> userSessions)
    end.

(** The shape of a key of sender [s] whose rotation times satisfy [P]. *)
Definition keyShape (P : Z -> Prop) (s k : string) : Prop :=
  k = initialSessionId s \/ exists t, P t /\ k = rotatedSessionId s t.

(** The key of a stored session carries no time later than the last
    activity of the session. *)
Definition keyNotAfterActivity (s : string) (e : UserSession) : Prop :=
  sessionId e = initialSessionId s \/
  exists t, t <= lastActivity e /\ sessionId e = rotatedSessionId s t.

(** A store as calls up to clock reading [now] leave it when the clock never
    runs backwards. *)
Definition storeAt (now : Z) (userSessions : gmap string UserSession) : Prop :=
  forall s e, userSessions !! s = Some e ->
    lastActivity e <= now /\ keyNotAfterActivity s e.

(** One call of [markMessageProcessed]: the id and the two clock readings. *)
Record Mark := mkMark {
  markId : string;
  markAt : Z;
  sweepAt : Z
}.

(** A sequence of [markMessageProcessed] calls on the store. *)
Definition runMarks (marks : list Mark) (processedMessages : gmap string Z)
  : gmap string Z :=
  fold_left (fun pm m => markMessageProcessed (markAt m) (sweepAt m) (markId m) pm)
    marks processedMessages.

(** One call of [getSessionKey]: the clock reading and the arguments. *)
Record Call := mkCall {
  callAt : Z;
  callSender : string;
  callForceNew : bool;
  callTimeout : Z
}.

Definition perform (c : Call) (userSessions : gmap string UserSession)
  : SessionKeyResult * gmap string UserSession :=
  getSessionKey (callAt c) (callSender c) (callForceNew c) (callTimeout c) userSessions.

(** A sequence of [getSessionKey] calls on the store: every call with the
    result it returned, in order, and the final store. *)
Fixpoint runCalls (calls : list Call) (userSessions : gmap string UserSession)
  : list (Call * SessionKeyResult) * gmap string UserSession :=
  match calls with
  | [] => ([], userSessions)
  | c :: calls' =>
      let r := perform c userSessions in
      let rest := runCalls calls' (snd r) in
      ((c, fst r) :: fst rest, snd rest)
  end.

End Session.

(* ===================================================================== *)
(** * The environment: calls to collaborators and their answers           *)
(* ===================================================================== *)

Module Env.

(** type AICardTarget *)
Inductive AICardTarget :=
| TargetUser (userId : string)
| TargetGroup (openConversationId : string).

(** interface AICardInstance *)
Record AICardInstance := mkCard {
  cardInstanceId : string;
  accessToken : string;
  inputingStarted : bool
}.

(** The [msgParam] object built by [buildMsgPayload], before
    [JSON.stringify]. *)
Inductive MsgParam :=
| ParamMarkdown (title text : string)
| ParamJson (source : string)
| ParamImage (photoURL : string)
| ParamText (content : string).

(** The fields of a thrown value that the [catch] blocks read:
    [err.response?.data?.message] and [err.message]. *)
Record ErrorDetails := mkError {
  responseMessage : option string;
  message : option string
}.

(** A call either returns or throws (a promise resolves or rejects). *)
Inductive Outcome (A : Type) :=
| Returns (a : A)
| Throws (e : ErrorDetails).
Arguments Returns {A} a.
Arguments Throws {A} e.

(** [resp.data] of the two robot send endpoints. *)
Record PostResponse := mkResponse {
  respProcessQueryKey : option string;
  respMessage : option string
}.

(** Kind of a reply fragment, [info.kind]. *)
Inductive ReplyKind := KindTool | KindBlock | KindFinal.

(** What the agent pipeline does with a dispatcher during one turn. *)
Inductive ReplyEvent :=
| ReplyStart
| CreationSettles
| Fragment (text : option string) (info : option ReplyKind)
| DispatchError (error : string).

(** One observable call to a collaborator. *)
Inductive Event :=
| EvGetOapiAccessToken
| EvUploadMedia (filePath : string)
| EvCreateAICard (target : AICardTarget)
| EvFinishAICard (card : AICardInstance) (content : string)
| EvGetAccessToken
| EvBatchSend (userIds : list string) (msgKey : string) (msgParam : MsgParam)
| EvGroupSend (openConversationId : string) (msgKey : string) (msgParam : MsgParam)
| EvResolveAgentRoute (direct : bool) (peerId : string)
| EvFormatAgentEnvelope (body : string)
| EvFinalizeInboundContext
| EvEnqueueSystemEvent
| EvDispatchReply
| EvMarkDispatchIdle
| EvClientConnect
| EvClientDisconnect
| EvActivityRecord.

(** [RegExpMatchArray]: position (in UTF-16 code units), whole match,
    capture groups. *)
Record RegExpMatch := mkMatch {
  index : nat;
  fullMatch : string;
  groups : list string
}.

Inductive ChunkMode := ChunkLength | ChunkNewline.

(** Answers of the collaborators.  Effectful ones see the history of
    calls, their own call included as the last entry. *)
Record World := mkWorld {
  getOapiAccessToken : list Event -> option string;
  uploadMediaToDingTalk : list Event -> option string;
  createAICardForTarget : list Event -> Outcome (option AICardInstance);
  getAccessToken : list Event -> Outcome string;
  axiosPost : list Event -> Outcome PostResponse;
  (** [dispatchReplyFromConfig]: the reply stream it drives through the
      dispatcher, and the error it throws at the end, if any *)
  dispatchReplyFromConfig : list Event -> list ReplyEvent * option ErrorDetails;
  (** [content.matchAll(LOCAL_IMAGE_RE)], [result.matchAll(BARE_IMAGE_PATH_RE)] *)
  matchAllLocalImage : string -> list RegExpMatch;
  matchAllBareImage : string -> list RegExpMatch;
  (** does [JSON.parse] accept the text *)
  jsonParses : string -> bool;
  (** [core.channel.text.chunkTextWithMode] *)
  chunkTextWithMode : string -> nat -> ChunkMode -> list string
}.

(** Computations that call collaborators: a state monad over the history. *)
Definition M (A : Type) : Type := list Event -> A * list Event.

Definition ret {A} (a : A) : M A := fun h => (a, h).

Definition bind {A B} (m : M A) (k : A -> M B) : M B :=
  fun h => let (a, h') := m h in k a h'.

(** Make the call [e] and read the answer [ask] gives to it. *)
Definition call {A} (e : Event) (ask : list Event -> A) : M A :=
  fun h => let h' := h ++ [e] in (ask h', h').

(** A call whose answer is not used. *)
Definition emit (e : Event) : M unit := call e (fun _ => tt).

(** [for (const x of xs) { acc = await body(acc, x) }] *)
Fixpoint forEach {A S} (xs : list A) (body : S -> A -> M S) (acc : S) : M S :=
  match xs with
  | [] => ret acc
  | x :: xs' => bind (body acc x) (forEach xs' body)
  end.

(** [m] only adds calls satisfying [P] to the history. *)
Definition appends {A} (P : Event -> bool) (m : M A) : Prop :=
  forall h, exists calls, snd (m h) = h ++ calls /\ forallb P calls = true.

End Env.

Declare Scope engine_scope.
Notation "'let*' x ':=' c 'in' k" := (Env.bind c (fun x => k))
  (at level 10, x name, c at level 100, k at level 200) : engine_scope.
Notation "c ';;' k" := (Env.bind c (fun _ => k))
  (at level 100, k at level 200, right associativity, only parsing) : engine_scope.

(* ===================================================================== *)
(** * media.ts: post-processing of reply text                             *)
(* ===================================================================== *)

Module Media.
Import Env.
Local Open Scope engine_scope.

(** [rawPath.replace(/\\ /g, " ")]: an escaped space becomes a space. *)
Fixpoint unescapeSpaces (s : string) : string :=
  match s with
  | EmptyString => EmptyString
  | String a r =>
      match r with
      | String b r' =>
          if (Ascii.eqb a "\" && Ascii.eqb b " ")%bool
          then String " " (unescapeSpaces r')
          else String a (unescapeSpaces r)
      | EmptyString => String a EmptyString
      end
  end.

(** Capture group [n] of a match ([m[n]], [m[0]] being the whole match). *)
Definition group (n : nat) (m : RegExpMatch) : string :=
  match n with
  | O => fullMatch m
  | S k => nth k (groups m) EmptyString
  end.

(** [uploadMediaToDingTalk(path, "image", oapiToken, ..)]: one call to the
    collaborator; [null] and the empty media id are both falsy. *)
Definition uploadImage (w : World) (path : string) : M (option string) :=
  call (EvUploadMedia path) (uploadMediaToDingTalk w).

(** [processLocalImages(content, oapiToken, log)] *)
Definition processLocalImages (w : World) (content : string) (oapiToken : option string)
  : M string :=
  if negb (JS.truthyOpt oapiToken) then ret content else
  let mdMatches := matchAllLocalImage w content in
  let* result :=
    forEach mdMatches (fun result m =>
      let alt := group 1 m in
      let rawPath := group 2 m in
      let cleanPath := unescapeSpaces rawPath in
      let* mediaId := uploadImage w cleanPath in
      match mediaId with
      | Some id =>
          if JS.truthy id
          then ret (JS.replace (fullMatch m) ("![" +:+ alt +:+ "](" +:+ id +:+ ")") result)
          else ret result
      | None => ret result
      end) content in
  let bareMatches :=
    List.filter (fun m =>
      let before := JS.sliceUnits (index m - 10) (index m) result in
      negb (JS.includes "](" before))
      (matchAllBareImage w result) in
  forEach (rev bareMatches) (fun result m =>
    let rawPath := group 1 m in
    let* mediaId := uploadImage w rawPath in
    match mediaId with
    | Some id =>
        if JS.truthy id
        then ret (JS.onSuffix (index m)
                    (JS.replace (fullMatch m) ("![](" +:+ id +:+ ")")) result)
        else ret result
    | None => ret result
    end) result.

(** A line terminator starts here: [.] of a regular expression does not
    match LF, CR, U+2028 or U+2029. *)
Definition lineTerminatorAt (s : string) : bool :=
  match s with
  | String a r =>
      (JS.code a =? 10)%nat || (JS.code a =? 13)%nat ||
      match r with
      | String b (String c _) =>
          (JS.code a =? 226)%nat && (JS.code b =? 128)%nat &&
          ((JS.code c =? 168)%nat || (JS.code c =? 169)%nat)
      | _ => false
      end
  | EmptyString => false
  end.

(** Length of the shortest text matching [.*?] followed by [close] at the
    head of [s], if there is one. *)
Fixpoint lazyClose (close s : string) : option nat :=
  if JS.startsWith close s then Some (String.length close)
  else match s with
       | EmptyString => None
       | String _ r =>
           if lineTerminatorAt s then None
           else match lazyClose close r with
                | Some n => Some (S n)
                | None => None
                end
       end.

(** Length of a match of [open .*? close] at the head of [s]. *)
Definition matchAt (open close s : string) : option nat :=
  if JS.startsWith open s
  then match lazyClose close (JS.drop (String.length open) s) with
       | Some n => Some (String.length open + n)%nat
       | None => None
       end
  else None.

(** [s.replace(/open.*?close/g, "")]; [skip] bytes of a match begun
    earlier are still to be dropped. *)
Fixpoint removeMarkers (open close : string) (skip : nat) (s : string) : string :=
  match s with
  | EmptyString => EmptyString
  | String a r =>
      match skip with
      | S k => removeMarkers open close k r
      | O =>
          match matchAt open close s with
          | Some n => removeMarkers open close (n - 1) r
          | None => String a (removeMarkers open close 0 r)
          end
      end
  end.

(** [processVideoMarkers], [processAudioMarkers], [processFileMarkers]:
    remove the markers, then trim. *)
Definition processVideoMarkers (content : string) : string :=
  JS.trim (removeMarkers "[DINGTALK_VIDEO]{" "}[/DINGTALK_VIDEO]" 0 content).

Definition processAudioMarkers (content : string) : string :=
  JS.trim (removeMarkers "[DINGTALK_AUDIO]{" "}[/DINGTALK_AUDIO]" 0 content).

Definition processFileMarkers (content : string) : string :=
  JS.trim (removeMarkers "[DINGTALK_FILE]{" "}[/DINGTALK_FILE]" 0 content).

(** What is assumed of the regular expression engine.  The text of a match
    occurs in the subject; a match of [LOCAL_IMAGE_RE] begins with "![", and
    a match of [BARE_IMAGE_PATH_RE] contains the dot of its extension. *)
Definition regexSound (w : World) : Prop :=
  (forall s m, In m (matchAllLocalImage w s) ->
     JS.startsWith "![" (fullMatch m) = true /\ JS.includes (fullMatch m) s = true)
  /\
  (forall s m, In m (matchAllBareImage w s) ->
     JS.includes "." (fullMatch m) = true /\ JS.includes (fullMatch m) s = true).

End Media.

(* ===================================================================== *)
(** * send.ts: the outbound delivery engine                               *)
(* ===================================================================== *)

Module Send.
Import Env.
Local Open Scope engine_scope.

(** type DingTalkMsgType *)
Inductive DingTalkMsgType := MsgText | MsgMarkdown | MsgLink | MsgActionCard | MsgImage.

(** interface SendResult; [sentCardInstanceId] is its [cardInstanceId]. *)
Record SendResult := mkSendResult {
  ok : bool;
  processQueryKey : option string;
  sentCardInstanceId : option string;
  error : option string;
  usedAICard : option bool
}.

(** interface ProactiveSendOptions (without the logger). *)
Record ProactiveSendOptions := mkOptions {
  msgType : option DingTalkMsgType;
  title : option string;
  useAICard : option bool;
  fallbackToNormal : option bool
}.

(** The options object [{}]. *)
Definition noOptions : ProactiveSendOptions := mkOptions None None None None.

(** [const { x = true } = options]: the default applies to [undefined]. *)
Definition orTrue (o : option bool) : bool :=
  match o with Some b => b | None => true end.

(** [userIds: string | string[]] *)
Inductive UserIds := OneUser (userId : string) | ManyUsers (userIds : list string).

(** [Array.isArray(userIds) ? userIds : [userIds]] *)
Definition userIdArray (userIds : UserIds) : list string :=
  match userIds with
  | OneUser u => [u]
  | ManyUsers us => us
  end.

Definition msgTypeName (t : DingTalkMsgType) : string :=
  match t with
  | MsgText => "text" | MsgMarkdown => "markdown" | MsgLink => "link"
  | MsgActionCard => "actionCard" | MsgImage => "image"
  end.

(** [buildMsgPayload(msgType, content, title)]: the payload, or the error
    text. *)
Definition buildMsgPayload (w : World) (msgType : DingTalkMsgType) (content : string)
    (title : option string) : (string * MsgParam) + string :=
  match msgType with
  | MsgMarkdown =>
      inl ("sampleMarkdown",
           ParamMarkdown (default "Message" (JS.orElse title (Some "Message"))) content)
  | MsgLink | MsgActionCard =>
      if jsonParses w content
      then inl (match msgType with MsgLink => "sampleLink" | _ => "sampleActionCard" end,
                ParamJson content)
      else inr ("Invalid " +:+ msgTypeName msgType +:+ " message format")
  | MsgImage => inl ("sampleImageMsg", ParamImage content)
  | MsgText => inl ("sampleText", ParamText content)
  end.

(** [errorDetails.response?.data?.message || errorDetails.message ||
    "Unknown error"] *)
Definition errorText (e : ErrorDetails) : string :=
  default "Unknown error"
    (JS.orElse (JS.orElse (responseMessage e) (message e)) (Some "Unknown error")).

Definition failure (err : string) : SendResult :=
  mkSendResult false None None (Some err) (Some false).

(** What both plain senders do with the answer of the endpoint. *)
Definition ofResponse (resp : Outcome PostResponse) : SendResult :=
  match resp with
  | Returns data =>
      if JS.truthyOpt (respProcessQueryKey data)
      then mkSendResult true (respProcessQueryKey data) None None (Some false)
      else failure (default "Unknown error"
                      (JS.orElse (respMessage data) (Some "Unknown error")))
  | Throws e => failure (errorText e)
  end.

(** [sendNormalToUser(config, userIds, content, options)] *)
Definition sendNormalToUser (w : World) (userIds : list string) (content : string)
    (options : ProactiveSendOptions) : M SendResult :=
  let msgType := default MsgText (msgType options) in
  match buildMsgPayload w msgType content (title options) with
  | inr err => ret (failure err)
  | inl (msgKey, msgParam) =>
      let* token := call EvGetAccessToken (getAccessToken w) in
      match token with
      | Throws e => ret (failure (errorText e))
      | Returns _ =>
          let* resp := call (EvBatchSend userIds msgKey msgParam) (axiosPost w) in
          ret (ofResponse resp)
      end
  end.

(** [sendNormalToGroup(config, openConversationId, content, options)] *)
Definition sendNormalToGroup (w : World) (openConversationId : string) (content : string)
    (options : ProactiveSendOptions) : M SendResult :=
  let msgType := default MsgText (msgType options) in
  match buildMsgPayload w msgType content (title options) with
  | inr err => ret (failure err)
  | inl (msgKey, msgParam) =>
      let* token := call EvGetAccessToken (getAccessToken w) in
      match token with
      | Throws e => ret (failure (errorText e))
      | Returns _ =>
          let* resp := call (EvGroupSend openConversationId msgKey msgParam) (axiosPost w) in
          ret (ofResponse resp)
      end
  end.

(** The media post-processing chain of [sendAICardInternal], run when the
    OAPI token is truthy. *)
Definition processMedia (w : World) (content : string) (oapiToken : option string)
  : M string :=
  if JS.truthyOpt oapiToken then
    let* processedContent := Media.processLocalImages w content oapiToken in
    ret (Media.processFileMarkers
           (Media.processAudioMarkers (Media.processVideoMarkers processedContent)))
  else ret content.

(** [sendAICardInternal(config, target, content, log)] *)
Definition sendAICardInternal (w : World) (target : AICardTarget) (content : string)
  : M SendResult :=
  let* oapiToken := call EvGetOapiAccessToken (getOapiAccessToken w) in
  let* processedContent := processMedia w content oapiToken in
  if JS.isBlank processedContent
  then ret (mkSendResult true None None None (Some false))
  else
    let* card := call (EvCreateAICard target) (createAICardForTarget w) in
    match card with
    | Throws e => ret (failure (errorText e))
    | Returns None => ret (failure "Failed to create AI Card")
    | Returns (Some card) =>
        emit (EvFinishAICard card processedContent) ;;
        ret (mkSendResult true None (Some (cardInstanceId card)) None (Some true))
    end.

(** [sendToUser(config, userIds, content, options)] *)
Definition sendToUser (w : World) (userIds : UserIds) (content : string)
    (options : ProactiveSendOptions) : M SendResult :=
  let useAICard := orTrue (useAICard options) in
  let fallbackToNormal := orTrue (fallbackToNormal options) in
  let userIdArray := userIdArray userIds in
  if (useAICard && (length userIdArray =? 1)%nat)%bool then
    let* cardResult :=
      sendAICardInternal w (TargetUser (nth 0 userIdArray EmptyString)) content in
    if (ok cardResult || negb fallbackToNormal)%bool then ret cardResult
    else sendNormalToUser w userIdArray content options
  else sendNormalToUser w userIdArray content options.

(** [sendToGroup(config, openConversationId, content, options)] *)
Definition sendToGroup (w : World) (openConversationId : string) (content : string)
    (options : ProactiveSendOptions) : M SendResult :=
  let useAICard := orTrue (useAICard options) in
  let fallbackToNormal := orTrue (fallbackToNormal options) in
  if useAICard then
    let* cardResult := sendAICardInternal w (TargetGroup openConversationId) content in
    if (ok cardResult || negb fallbackToNormal)%bool then ret cardResult
    else sendNormalToGroup w openConversationId content options
  else sendNormalToGroup w openConversationId content options.

(** [/^[#*>-]|[*_`#\[\]]/.test(content) || content.includes("\n")] *)
Definition leadingSignal (a : ascii) : bool :=
  existsb (Ascii.eqb a) ["#"; "*"; ">"; "-"]%char.

Definition inlineSignal (a : ascii) : bool :=
  existsb (Ascii.eqb a) ["*"; "_"; "`"; "#"; "["; "]"]%char.

Definition looksLikeMarkdown (content : string) : bool :=
  match content with
  | String a _ => leadingSignal a
  | EmptyString => false
  end
  || existsb inlineSignal (JS.bytes content)
  || existsb (fun a => (JS.code a =? 10)%nat) (JS.bytes content).

(** The loosely typed target selector of [sendProactive]. *)
Record ProactiveTarget := mkTarget {
  userId : option string;
  userIds : option (list string);
  openConversationId : option string
}.

(** Calls made only on the rich-card path, and only on the plain path. *)
Definition isRichCall (e : Event) : bool :=
  match e with
  | EvGetOapiAccessToken | EvUploadMedia _ | EvCreateAICard _ | EvFinishAICard _ _ => true
  | _ => false
  end.

Definition isUpload (e : Event) : bool :=
  match e with EvUploadMedia _ => true | _ => false end.

(** [{ ok: true, usedAICard: false }] *)
Definition nothingSent : SendResult := mkSendResult true None None None (Some false).

Definition isPlainCall (e : Event) : bool :=
  match e with
  | EvGetAccessToken | EvBatchSend _ _ _ | EvGroupSend _ _ _ => true
  | _ => false
  end.

(** [if (!options.msgType && (..)) options.msgType = "markdown"] *)
Definition detectMsgType (content : string) (options : ProactiveSendOptions)
  : ProactiveSendOptions :=
  if (negb (bool_decide (is_Some (msgType options))) && looksLikeMarkdown content)%bool
  then mkOptions (Some MsgMarkdown) (title options) (useAICard options)
         (fallbackToNormal options)
  else options.

(** [sendProactive(config, target, content, options)] *)
Definition sendProactive (w : World) (target : ProactiveTarget) (content : string)
    (options : ProactiveSendOptions) : M SendResult :=
  let options := detectMsgType content options in
  if (JS.truthyOpt (userId target) || bool_decide (is_Some (userIds target)))%bool then
    sendToUser w
      (ManyUsers (default [default EmptyString (userId target)] (userIds target)))
      content options
  else if JS.truthyOpt (openConversationId target) then
    sendToGroup w (default EmptyString (openConversationId target)) content options
  else
    ret (failure "Must specify userId, userIds, or openConversationId").

End Send.

(* ===================================================================== *)
(** * reply-dispatcher.ts: the per-turn reply dispatcher                  *)
(* ===================================================================== *)

Module Dispatcher.
Import Env.
Local Open Scope engine_scope.

(** The parameters fixed when the dispatcher of a turn is created. *)
Record Params := mkParams {
  senderId : string;
  isDirect : bool;
  conversationId : string;
  textChunkLimit : nat;
  chunkMode : ChunkMode
}.

(** [cardCreationPromise]: the creation started by [startCard].  While it
    is pending it carries the answer the card API gives to that request;
    [card] is assigned when it settles. *)
Inductive CreationPromise :=
| Pending (answer : Outcome (option AICardInstance))
| Settled.

(** [let card], [let cardCreationPromise] *)
Record State := mkState {
  card : option AICardInstance;
  cardCreationPromise : option CreationPromise
}.

Definition initial : State := mkState None None.

(** [const target] *)
Definition target (p : Params) : AICardTarget :=
  if isDirect p then TargetUser (senderId p) else TargetGroup (conversationId p).

(** [startCard()] *)
Definition startCard (w : World) (p : Params) (st : State) : M State :=
  match cardCreationPromise st, card st with
  | None, None =>
      let* answer := call (EvCreateAICard (target p)) (createAICardForTarget w) in
      ret (mkState (card st) (Some (Pending answer)))
  | _, _ => ret st
  end.

(** The body of the creation promise completes: [card = await ..], or
    [card = null] in the [catch]. *)
Definition settle (st : State) : State :=
  match cardCreationPromise st with
  | Some (Pending (Returns created)) => mkState created (Some Settled)
  | Some (Pending (Throws _)) => mkState None (Some Settled)
  | _ => st
  end.

(** [if (cardCreationPromise) await cardCreationPromise] *)
Definition awaitCreation (st : State) : State := settle st.

(** [closeCard(finalText)] *)
Definition closeCard (finalText : string) (st : State) : M State :=
  let st := awaitCreation st in
  match card st with
  | Some c =>
      emit (EvFinishAICard c (if JS.truthy finalText then finalText else "Done")) ;;
      ret (mkState None None)
  | None => ret (mkState None None)
  end.

(** [sendPlainText(text)] *)
Definition sendPlainText (w : World) (p : Params) (text : string) : M unit :=
  if isDirect p
  then Send.sendToUser w (Send.OneUser (senderId p)) text Send.noOptions ;; ret tt
  else Send.sendToGroup w (conversationId p) text Send.noOptions ;; ret tt.

(** [deliver(payload, info)] *)
Definition deliver (w : World) (p : Params) (payloadText : option string)
    (info : option ReplyKind) (st : State) : M State :=
  let text := default EmptyString payloadText in
  if JS.isBlank text then ret st else
  let st := awaitCreation st in
  match card st with
  | Some _ =>
      match info with
      | Some KindFinal => closeCard text st
      | _ => ret st
      end
  | None =>
      forEach (chunkTextWithMode w text (textChunkLimit p) (chunkMode p))
        (fun _ chunk => sendPlainText w p chunk) tt ;;
      ret st
  end.

(** [onReplyStart]: [startCard()], then the typing callback, whose
    [start] is [startCard()] again. *)
Definition onReplyStart (w : World) (p : Params) (st : State) : M State :=
  let* st := startCard w p st in
  startCard w p st.

(** [onError(error, info)] with [String(error)] as [error]. *)
Definition onError (error : string) (st : State) : M State :=
  closeCard ("Error: " +:+ error) st.

(** One step of the reply stream of a turn. *)
Definition step (w : World) (p : Params) (st : State) (e : ReplyEvent) : M State :=
  match e with
  | ReplyStart => onReplyStart w p st
  | CreationSettles => ret (settle st)
  | Fragment text info => deliver w p text info st
  | DispatchError error => onError error st
  end.

(** A whole reply stream, from a given state. *)
Definition run (w : World) (p : Params) (es : list ReplyEvent) (st : State) : M State :=
  forEach es (step w p) st.

(** Would this step make [startCard] request a card: a reply start that
    finds neither a creation promise nor a card. *)
Definition requestsCard (st : State) (e : ReplyEvent) : bool :=
  match e with
  | ReplyStart =>
      match cardCreationPromise st, card st with
      | None, None => true
      | _, _ => false
      end
  | _ => false
  end.

(** [startCard] would request a card from this state. *)
Definition armed (st : State) : bool := requestsCard st ReplyStart.

(** Would this step run [closeCard] and so clear the creation promise: a
    final, non-blank fragment that finds a card, or a dispatch error. *)
Definition closesCard (st : State) (e : ReplyEvent) : bool :=
  match e with
  | Fragment text (Some KindFinal) =>
      negb (JS.isBlank (default EmptyString text))
      && bool_decide (is_Some (card (awaitCreation st)))
  | DispatchError _ => true
  | _ => false
  end.

(** Number of steps of a reply stream at which [f] holds of the state the
    step starts from. *)
Fixpoint tally (f : State -> ReplyEvent -> bool) (w : World) (p : Params)
    (es : list ReplyEvent) (st : State) (h : list Event) : nat :=
  match es with
  | [] => 0
  | e :: es' =>
      let next := step w p st e h in
      ((if f st e then 1 else 0) + tally f w p es' (fst next) (snd next))%nat
  end.

End Dispatcher.

(* ===================================================================== *)
(** * bot.ts: the inbound turn handler                                    *)
(* ===================================================================== *)

Module Bot.
Import Env.
Local Open Scope engine_scope.

(** One entry of [data.content.richText]. *)
Record RichTextPart := mkPart { partType : option string; partText : option string }.

(** The fields of the inbound payload that the handler reads. *)
Record InboundData := mkData {
  msgtype : option string;
  textContent : option string;          (* data.text?.content *)
  richText : list RichTextPart;         (* data.content?.richText || [] *)
  recognition : option string;          (* data.content?.recognition *)
  fileName : option string;             (* data.content?.fileName *)
  conversationType : option string;
  senderStaffId : option string;
  senderId : string;
  senderNick : option string;
  conversationId : string
}.

(** [data.text?.content?.trim() || fallback] *)
Definition trimmedTextOr (data : InboundData) (fallback : string) : string :=
  match textContent data with
  | Some c => if JS.truthy (JS.trim c) then JS.trim c else fallback
  | None => fallback
  end.

(** [extractMessageContent(data).text] *)
Definition extractMessageText (data : InboundData) : string :=
  let msgtype := default "text" (JS.orElse (msgtype data) (Some "text")) in
  if String.eqb msgtype "text" then trimmedTextOr data ""
  else if String.eqb msgtype "richText" then
    let text :=
      fold_right String.append EmptyString
        (map (fun part => default EmptyString (partText part))
           (List.filter (fun part => bool_decide (partType part = Some "text"))
              (richText data))) in
    if JS.truthy text then text else "[richText]"
  else if String.eqb msgtype "picture" then "[picture]"
  else if String.eqb msgtype "audio" then
    default "[audio]" (JS.orElse (recognition data) (Some "[audio]"))
  else if String.eqb msgtype "video" then "[video]"
  else if String.eqb msgtype "file" then
    "[file: " +:+ default "file" (JS.orElse (fileName data) (Some "file")) +:+ "]"
  else trimmedTextOr data ("[" +:+ msgtype +:+ "]").

(** [handleDingTalkMessage(params)] at clock [now]; [sessionTimeout] is
    [dingtalkConfig.sessionTimeout], [limit] and [mode] the chunking
    configuration resolved for the dispatcher.  Returns the updated
    [userSessions]. *)
Definition handleDingTalkMessage (w : World) (now : Z) (sessionTimeout : option Z)
    (limit : nat) (mode : ChunkMode) (data : InboundData)
    (userSessions : gmap string Session.UserSession)
  : M (gmap string Session.UserSession) :=
  let text := extractMessageText data in
  if negb (JS.truthy text) then ret userSessions else
  let isDirect := bool_decide (conversationType data = Some "1") in
  let senderId :=
    default (senderId data) (JS.orElse (senderStaffId data) (Some (senderId data))) in
  let sessionTimeout := default 1800000 sessionTimeout in
  if Session.isNewSessionCommand text then
    ret (snd (Session.getSessionKey now senderId true sessionTimeout userSessions))
  else
    emit (EvResolveAgentRoute isDirect
            (if isDirect then senderId else conversationId data)) ;;
    let senderNick := default senderId (JS.orElse (senderNick data) (Some senderId)) in
    emit (EvFormatAgentEnvelope (senderNick +:+ ": " +:+ text)) ;;
    emit EvFinalizeInboundContext ;;
    emit EvEnqueueSystemEvent ;;
    let p := Dispatcher.mkParams senderId isDirect (conversationId data) limit mode in
    let* stream := call EvDispatchReply (dispatchReplyFromConfig w) in
    Dispatcher.run w p (fst stream) Dispatcher.initial ;;
    match snd stream with
    | None => emit EvMarkDispatchIdle ;; ret userSessions
    | Some _ => ret userSessions
    end.

End Bot.

(* ===================================================================== *)
(** * channel.ts: stopping a started gateway account                      *)
(* ===================================================================== *)

Module Channel.
Import Env.
Local Open Scope engine_scope.

(** What can reach a started account: a call of the returned [stop], or
    the [abort] event of the signal given to [startAccount]. *)
Inductive Signal := CallStop | AbortFires.

(** A started account: whether an abort signal was supplied (and so has
    the listener), and the shared [stopped] flag. *)
Record Account := mkAccount {
  abortSignal : bool;
  stopped : bool
}.

(** The end of [startAccount]: connect, record the activity, and return
    with [stopped = false]. *)
Definition startAccount (abortSignal : bool) : M Account :=
  emit EvClientConnect ;;
  emit EvActivityRecord ;;
  ret (mkAccount abortSignal false).

(** The calls made when the account stops. *)
Definition stopCalls : list Event := [EvClientDisconnect; EvActivityRecord].

(** The common body of the abort listener and of [stop]. *)
Definition stopOnce (a : Account) : M Account :=
  if stopped a then ret a
  else
    emit EvClientDisconnect ;;
    emit EvActivityRecord ;;
    ret (mkAccount (abortSignal a) true).

(** How the account reacts to one signal. *)
Definition react (a : Account) (s : Signal) : M Account :=
  match s with
  | CallStop => stopOnce a
  | AbortFires => if abortSignal a then stopOnce a else ret a
  end.

(** Is the signal heard by the account. *)
Definition heard (a : Account) (s : Signal) : bool :=
  match s with
  | CallStop => true
  | AbortFires => abortSignal a
  end.

Definition reactAll (signals : list Signal) (a : Account) : M Account :=
  forEach signals react a.

End Channel.

(* ===================================================================== *)
(** * White space at the head of a string                                 *)
(* ===================================================================== *)

Module JSMore.

(** The string begins with a white-space character. *)
Definition startsWs (s : string) : bool :=
  match s with
  | EmptyString => false
  | String a r1 =>
      JS.ws1 a ||
      match r1 with
      | EmptyString => false
      | String b r2 =>
          JS.ws2 a b ||
          match r2 with
          | EmptyString => false
          | String c _ => JS.ws3 a b c
          end
      end
  end.

(** The string ends with a white-space character: some proper suffix cut
    off by [trimEnd]. *)
Definition endsWs (s : string) : bool :=
  negb (String.eqb (JS.trimEnd s) s).

End JSMore.

(* ===================================================================== *)
(** * Sender ids                                                          *)
(* ===================================================================== *)

Module SenderIds.

(** The sender id contains no colon. *)
Definition noColon (s : string) : bool :=
  negb (existsb (Ascii.eqb ":") (JS.bytes s)).

(** What follows the sender id in a session key: nothing, or a colon and
    the rotation time. *)
Definition keyTail (t : string) : Prop :=
  t = EmptyString \/ exists r, t = String ":" r.

End SenderIds.

(* ===================================================================== *)
(** * channel.ts: the robot message callback of the gateway               *)
(* ===================================================================== *)

Module Gateway.
Import Env.
Local Open Scope engine_scope.

(** The clock readings of one callback: by [processedMessages.set], by the
    sweep, and by the handler. *)
Record Clock := mkClock {
  markNow : Z;
  sweepNow : Z;
  handleNow : Z
}.

(** The two process-wide stores of session.ts. *)
Record Stores := mkStores {
  processedMessages : gmap string Z;
  userSessions : gmap string Session.UserSession
}.

(** The callback registered for [TOPIC_ROBOT].  [messageId] is
    [res.headers?.messageId]; [data] is [JSON.parse(res.data)], absent when
    parsing throws (the error is caught and logged).  Returns whether the
    message was acknowledged with [socketCallBackResponse], and the stores. *)
Definition onRobotMessage (w : World) (clock : Clock) (sessionTimeout : option Z)
    (limit : nat) (mode : ChunkMode) (messageId : option string)
    (data : option Bot.InboundData) (st : Stores) : M (bool * Stores) :=
  let acknowledged := JS.truthyOpt messageId in
  let id := default EmptyString messageId in
  if (acknowledged && Session.isMessageProcessed id (processedMessages st))%bool
  then ret (acknowledged, st)
  else
    let marked :=
      if acknowledged
      then Session.markMessageProcessed (markNow clock) (sweepNow clock) id
             (processedMessages st)
      else processedMessages st in
    match data with
    | None => ret (acknowledged, mkStores marked (userSessions st))
    | Some data =>
        let* sessions :=
          Bot.handleDingTalkMessage w (handleNow clock) sessionTimeout limit mode data
            (userSessions st) in
        ret (acknowledged, mkStores marked sessions)
    end.

End Gateway.

(* ===================================================================== *)
(** * Shapes of send results and of the calls behind them                 *)
(* ===================================================================== *)

Module SendShape.
Import Env Send.

(** The four shapes of a [SendResult] the engine builds. *)
Definition cardDelivered (r : SendResult) : Prop :=
  exists id, r = mkSendResult true None (Some id) None (Some true).

Definition plainDelivered (r : SendResult) : Prop :=
  exists key, key <> EmptyString /\ r = mkSendResult true (Some key) None None (Some false).

Definition failed (r : SendResult) : Prop :=
  exists msg, msg <> EmptyString /\ r = mkSendResult false None None (Some msg) (Some false).

Definition wellShaped (r : SendResult) : Prop :=
  cardDelivered r \/ plainDelivered r \/ r = nothingSent \/ failed r.

(** Calls that hand the content to DingTalk. *)
Definition isDelivery (e : Event) : bool :=
  match e with
  | EvFinishAICard _ _ | EvBatchSend _ _ _ | EvGroupSend _ _ _ => true
  | _ => false
  end.

Definition isCardCreation (e : Event) : bool :=
  match e with EvCreateAICard _ => true | _ => false end.

(** Number of calls of a kind. *)
Definition count (P : Event -> bool) (calls : list Event) : nat :=
  length (List.filter P calls).

(** The calls [m] adds after history [h], with its result: *)
Definition runs {A} (m : M A) (h : list Event) (a : A) (calls : list Event) : Prop :=
  m h = (a, h ++ calls).

(** One call of the engine makes one attempt: a well-shaped result, at
    most one card creation and at most one delivering call; exactly one
    delivering call behind a delivered result and none behind
    [nothingSent]. *)
Definition singleAttempt (r : SendResult) (calls : list Event) : Prop :=
  wellShaped r /\
  (count isCardCreation calls <= 1)%nat /\
  (count isDelivery calls <= 1)%nat /\
  (cardDelivered r \/ plainDelivered r -> count isDelivery calls = 1%nat) /\
  (r = nothingSent -> count isDelivery calls = 0%nat).

End SendShape.

(* ===================================================================== *)
(** * Texts with and without media markers                                *)
(* ===================================================================== *)

Module Markers.

(** The byte [c] does not occur in [s]. *)
Definition lacks (c : ascii) (s : string) : bool :=
  negb (existsb (Ascii.eqb c) (JS.bytes s)).

(** No line terminator occurs in [s]. *)
Fixpoint singleLine (s : string) : bool :=
  match s with
  | EmptyString => true
  | String _ r => negb (Media.lineTerminatorAt s) && singleLine r
  end.

(** The three marker processors of [sendAICardInternal], in the order it
    applies them. *)
Definition processMarkers (content : string) : string :=
  Media.processFileMarkers (Media.processAudioMarkers (Media.processVideoMarkers content)).

End Markers.

(* ===================================================================== *)
(** * The uploads of the image post-processing                            *)
(* ===================================================================== *)

Module ImageUploads.
Import Env.

(** The bare image paths of [result] that are uploaded: those not preceded,
    within ten UTF-16 code units, by the "](" of a markdown image; last one
    first. *)
Definition bareCandidates (w : World) (result : string) : list RegExpMatch :=
  rev (List.filter (fun m =>
         let before := JS.sliceUnits (index m - 10) (index m) result in
         negb (JS.includes "](" before))
         (matchAllBareImage w result)).

(** The uploads requested for a content none of whose images is replaced. *)
Definition uploadsFor (w : World) (content : string) : list Event :=
  map (fun m => EvUploadMedia (Media.unescapeSpaces (Media.group 2 m)))
      (matchAllLocalImage w content)
  ++ map (fun m => EvUploadMedia (Media.group 1 m)) (bareCandidates w content).

(** Every upload fails: [uploadMediaToDingTalk] answers [null] (or an empty
    media id). *)
Definition uploadsFail (w : World) : Prop :=
  forall h, JS.truthyOpt (uploadMediaToDingTalk w h) = false.

End ImageUploads.

(* ===================================================================== *)
(** * The parts of an inbound turn                                        *)
(* ===================================================================== *)

Module Turn.
Import Env.

(** Calls to the outbound API of DingTalk: tokens, uploads, cards, sends. *)
Definition isOutbound (e : Event) : bool := Send.isRichCall e || Send.isPlainCall e.

(** A card is not finished with blank content. *)
Definition finishesNonBlank (e : Event) : bool :=
  match e with
  | EvFinishAICard _ content => negb (JS.isBlank content)
  | _ => true
  end.

(** [data.senderStaffId || data.senderId] *)
Definition sender (data : Bot.InboundData) : string :=
  default (Bot.senderId data)
    (JS.orElse (Bot.senderStaffId data) (Some (Bot.senderId data))).

(** [data.conversationType === "1"] *)
Definition direct (data : Bot.InboundData) : bool :=
  bool_decide (Bot.conversationType data = Some "1").

(** [data.senderNick || senderId] *)
Definition nick (data : Bot.InboundData) : string :=
  default (sender data) (JS.orElse (Bot.senderNick data) (Some (sender data))).

(** The calls that hand an ordinary message to the agent pipeline. *)
Definition prelude (data : Bot.InboundData) : list Event :=
  [ EvResolveAgentRoute (direct data)
      (if direct data then sender data else Bot.conversationId data);
    EvFormatAgentEnvelope (nick data +:+ ": " +:+ Bot.extractMessageText data);
    EvFinalizeInboundContext;
    EvEnqueueSystemEvent;
    EvDispatchReply ].

(** [markDispatchIdle()] runs when the dispatch did not throw. *)
Definition epilogue (thrown : option ErrorDetails) : list Event :=
  match thrown with
  | None => [EvMarkDispatchIdle]
  | Some _ => []
  end.

(** The message is of type "text" ([msgtype] absent, empty or "text"). *)
Definition textual (data : Bot.InboundData) : bool :=
  negb (JS.truthyOpt (Bot.msgtype data)) || bool_decide (Bot.msgtype data = Some "text").

(** [data.text?.content] is absent, empty or white space only. *)
Definition blankText (data : Bot.InboundData) : bool :=
  match Bot.textContent data with
  | Some c => JS.allWs c
  | None => true
  end.

End Turn.

(* ===================================================================== *)
(** * bot.ts: the AI card API                                             *)
(* ===================================================================== *)

Module CardApi.
Import Env.

(** const AICardStatus *)
Inductive AICardStatus := PROCESSING | INPUTING | FINISHED.

(** [imGroupOpenDeliverModel] with its [robotCode] ([config.clientId]), or
    [imRobotOpenDeliverModel]. *)
Inductive DeliverModel :=
| GroupDeliver (robotCode : option string)
| RobotDeliver.

(** The requests of the card API; [token] is the value of the header
    [x-acs-dingtalk-access-token]. *)
Inductive Request :=
| ReqAccessToken
| PostInstance (token outTrackId : string)
| PostDeliver (token outTrackId openSpaceId : string) (model : DeliverModel)
| PutInstance (token outTrackId : string) (flowStatus : AICardStatus) (msgContent : string)
| PutStreaming (token outTrackId guid content : string) (isFinalize : bool).

(** The answers: [getAccessToken] resolves to a token or rejects, a
    request resolves or rejects.  Each sees the requests made so far, its
    own included. *)
Record Api := mkApi {
  tokenAnswer : list Request -> Outcome string;
  httpAnswer : list Request -> Outcome unit
}.

Definition M (A : Type) : Type := list Request -> A * list Request.

Definition ret {A} (a : A) : M A := fun h => (a, h).

Definition bind {A B} (m : M A) (k : A -> M B) : M B :=
  fun h => let (a, h') := m h in k a h'.

Definition request {A} (r : Request) (answer : list Request -> A) : M A :=
  fun h => let h' := h ++ [r] in (answer h', h').

(** [`dtv1.card//IM_GROUP.${..}`], [`dtv1.card//IM_ROBOT.${..}`] *)
Definition openSpaceId (target : AICardTarget) : string :=
  match target with
  | TargetGroup openConversationId => "dtv1.card//IM_GROUP." +:+ openConversationId
  | TargetUser userId => "dtv1.card//IM_ROBOT." +:+ userId
  end.

Definition deliverModel (clientId : option string) (target : AICardTarget) : DeliverModel :=
  match target with
  | TargetGroup _ => GroupDeliver clientId
  | TargetUser _ => RobotDeliver
  end.

(** [createAICardForTarget(config, target, log)]; [cardInstanceId] is the
    identifier it draws from the clock and the random generator.  Whatever
    is thrown inside is caught and turned into [null]. *)
Definition createAICardForTarget (api : Api) (clientId : option string)
    (target : AICardTarget) (cardInstanceId : string) : M (option AICardInstance) :=
  bind (request ReqAccessToken (tokenAnswer api)) (fun token =>
  match token with
  | Throws _ => ret None
  | Returns token =>
      bind (request (PostInstance token cardInstanceId) (httpAnswer api)) (fun created =>
      match created with
      | Throws _ => ret None
      | Returns _ =>
          bind (request (PostDeliver token cardInstanceId (openSpaceId target)
                           (deliverModel clientId target)) (httpAnswer api))
            (fun delivered =>
          match delivered with
          | Throws _ => ret None
          | Returns _ => ret (Some (mkCard cardInstanceId token false))
          end)
      end)
  end).







Definition isDeliver (r : Request) : bool :=
  match r with PostDeliver _ _ _ _ => true | _ => false end.


End CardApi.

(* ===================================================================== *)
(** * auth.ts: the cached access token                                    *)
(* ===================================================================== *)

Module Auth.
Import Env.

(** [let accessToken], [let accessTokenExpiry]; an expiry that is not a
    number is [None]. *)
Record TokenCache := mkCache {
  accessToken : option string;
  accessTokenExpiry : option Z
}.

(** The state of the module when it is loaded. *)
Definition initial : TokenCache := mkCache None (Some 0).

(** [config.clientId], [config.clientSecret] *)
Record Credentials := mkCredentials {
  clientId : option string;
  clientSecret : option string
}.

(** [response.data]: [accessToken], and [expireIn] when it is a number.
    A response without [data] makes the call throw, like a failed request. *)
Record TokenResponse := mkTokenResponse {
  respAccessToken : option string;
  expireIn : option Z
}.

(** The request of a token with [appKey] and [appSecret]. *)
Inductive Request := PostAccessToken (appKey appSecret : option string).

(** [accessTokenExpiry > now + 60_000]; false when the expiry is not a
    number. *)
Definition valid (expiry : option Z) (now : Z) : bool :=
  match expiry with
  | Some e => e >? now + 60000
  | None => false
  end.

(** [getAccessToken(config)] at clock [now]: the result (the token, or what
    the request threw), the cache and the requests made. *)
Definition getAccessToken (answer : list Request -> Outcome TokenResponse)
    (config : Credentials) (now : Z) (cache : TokenCache) (h : list Request)
  : Outcome (option string) * TokenCache * list Request :=
  if (JS.truthyOpt (accessToken cache) && valid (accessTokenExpiry cache) now)%bool
  then (Returns (accessToken cache), cache, h)
  else
    let h' := h ++ [PostAccessToken (clientId config) (clientSecret config)] in
    match answer h' with
    | Throws e => (Throws e, cache, h')
    | Returns data =>
        (Returns (respAccessToken data),
         mkCache (respAccessToken data)
           (match expireIn data with Some e => Some (now + e * 1000) | None => None end),
         h')
    end.

(** Later calls, each with its credentials and its clock reading: the
    results, the cache and the requests. *)
Fixpoint getAll (answer : list Request -> Outcome TokenResponse)
    (calls : list (Credentials * Z)) (cache : TokenCache) (h : list Request)
  : list (Outcome (option string)) * TokenCache * list Request :=
  match calls with
  | [] => ([], cache, h)
  | (config, now) :: rest =>
      let '(r, cache', h') := getAccessToken answer config now cache h in
      let '(rs, cache'', h'') := getAll answer rest cache' h' in
      (r :: rs, cache'', h'')
  end.

End Auth.

(* ===================================================================== *)
(** * channel.ts: the outbound adapter                                    *)
(* ===================================================================== *)

Module Outbound.
Import Env Send.
Local Open Scope engine_scope.

(** What [sendText] and [sendMedia] end with: the returned
    [{ channel: "dingtalk", messageId }], or the message of the [Error]
    they throw. *)
Inductive Report :=
| Sent (messageId : string)
| Thrown (errorMessage : string).

(** [!config?.clientId || !config?.clientSecret] *)
Definition unconfigured (clientId clientSecret : option string) : bool :=
  negb (JS.truthyOpt clientId) || negb (JS.truthyOpt clientSecret).

(** The choice of the engine entry by the prefix of the target. *)
Definition sendTo (w : World) (targetStr content : string) (options : ProactiveSendOptions)
  : M SendResult :=
  if JS.startsWith "user:" targetStr
  then sendToUser w (OneUser (JS.drop 5 targetStr)) content options
  else if JS.startsWith "group:" targetStr
  then sendToGroup w (JS.drop 6 targetStr) content options
  else sendToUser w (OneUser targetStr) content options.

(** [if (result.ok) return {..}; throw new Error(result.error || fallback)] *)
Definition report (fallback : string) (result : SendResult) : Report :=
  if ok result
  then Sent (default "unknown" (JS.orElse (processQueryKey result) (Some "unknown")))
  else Thrown (default fallback (JS.orElse (error result) (Some fallback))).

(** [outbound.sendText(ctx)]; [clientId] and [clientSecret] are those of
    [resolveDingTalkAccount(cfg, accountId).config]. *)
Definition sendText (w : World) (clientId clientSecret : option string)
    (to text : string) : M Report :=
  if unconfigured clientId clientSecret then ret (Thrown "DingTalk not configured")
  else if negb (JS.truthy to) then ret (Thrown "Target is required.")
  else
    let* result := sendTo w to text noOptions in
    ret (report "Failed to send message" result).

(** [outbound.sendMedia(ctx)] *)
Definition sendMedia (w : World) (clientId clientSecret : option string)
    (to : string) (text mediaUrl : option string) : M Report :=
  if unconfigured clientId clientSecret then ret (Thrown "DingTalk not configured")
  else if negb (JS.truthy to) then ret (Thrown "Target is required.")
  else
    let* result :=
      if JS.truthyOpt mediaUrl
      then sendTo w to (default EmptyString mediaUrl)
             (mkOptions (Some MsgImage) None None None)
      else sendTo w to (default EmptyString (JS.orElse text (Some EmptyString))) noOptions in
    ret (report "Failed to send media" result).

End Outbound.

(* ===================================================================== *)
(** * onboarding.ts: parsing the allow-list input                         *)
(* ===================================================================== *)

Module Onboarding.

(** A byte of the class [[\n,;]]. *)
Definition isSeparator (a : ascii) : bool :=
  (JS.code a =? 10)%nat || Ascii.eqb a "," || Ascii.eqb a ";".

(** [raw.split(/[\n,;]+/g)]: the pieces between the maximal runs of
    separators; [inRun] tells that the byte before was a separator. *)
Fixpoint split (inRun : bool) (s : string) : list string :=
  match s with
  | EmptyString => [EmptyString]
  | String a r =>
      if isSeparator a
      then (if inRun then split true r else EmptyString :: split true r)
      else match split false r with
           | piece :: rest => String a piece :: rest
           | [] => [String a EmptyString]
           end
  end.

(** [.map((entry) => entry.trim()).filter(Boolean)] *)
Definition clean (entries : list string) : list string :=
  List.filter JS.truthy (map JS.trim entries).

(** [parseAllowFromInput(raw)] *)
Definition parseAllowFromInput (raw : string) : list string :=
  clean (split false raw).

(** The pieces between single separators: a run of separators gives empty
    pieces, which [clean] drops. *)
Fixpoint pieces (s : string) : list string :=
  match s with
  | EmptyString => [EmptyString]
  | String a r =>
      if isSeparator a then EmptyString :: pieces r
      else match pieces r with
           | piece :: rest => String a piece :: rest
           | [] => [String a EmptyString]
           end
  end.

(** No separator occurs in [s]. *)
Definition separatorFree (s : string) : bool :=
  forallb (fun a => negb (isSeparator a)) (JS.bytes s).

End Onboarding.

(* ===================================================================== *)
(** * Further environments used in the examples                           *)
(* ===================================================================== *)

Module MoreExamples.
Import Env.

Definition sampleCard : AICardInstance := mkCard "card_1" "token" false.

(** An environment whose agent answers every message with one final
    fragment, after the card of the turn has been created. *)
Definition replyingWorld : World :=
  {| getOapiAccessToken := fun _ => None;
     uploadMediaToDingTalk := fun _ => None;
     createAICardForTarget := fun _ => Returns (Some sampleCard);
     getAccessToken := fun _ => Returns "access-token";
     axiosPost := fun _ => Returns (mkResponse (Some "query-key") None);
     dispatchReplyFromConfig := fun _ =>
       ([ReplyStart; CreationSettles; Fragment (Some "hi") (Some KindFinal)], None);
     matchAllLocalImage := fun _ => [];
     matchAllBareImage := fun _ => [];
     jsonParses := fun _ => false;
     chunkTextWithMode := fun text _ _ => [text] |}.

(** An environment in which every upload fails, and the image expression
    finds the one markdown image of the content below. *)
Definition imageContent : string := "Chart: ![chart](/tmp/chart.png)".

Definition failingUploads : World :=
  {| getOapiAccessToken := fun _ => Some "oapi-token";
     uploadMediaToDingTalk := fun _ => None;
     createAICardForTarget := fun _ => Returns (Some sampleCard);
     getAccessToken := fun _ => Returns "access-token";
     axiosPost := fun _ => Returns (mkResponse (Some "query-key") None);
     dispatchReplyFromConfig := fun _ => ([], None);
     matchAllLocalImage := fun s =>
       if String.eqb s imageContent
       then [mkMatch 7 "![chart](/tmp/chart.png)" ["chart"; "/tmp/chart.png"]]
       else [];
     matchAllBareImage := fun _ => [];
     jsonParses := fun _ => false;
     chunkTextWithMode := fun text _ _ => [text] |}.

(** An environment in which every upload fails, and the bare path
    expression finds the path at the end of the content below, twelve code
    units (twenty bytes) from its start, behind four CJK characters. *)
Definition linkedContent : string :=
  "[a](b) " +:+
  String "232" (String "191" (String "153"
  (String "228" (String "184" (String "170"
  (String "229" (String "155" (String "190"
  (String "231" (String "137" (String "135" " /tmp/none.png"))))))))))).

Definition linkedUploads : World :=
  {| getOapiAccessToken := fun _ => Some "oapi-token";
     uploadMediaToDingTalk := fun _ => None;
     createAICardForTarget := fun _ => Returns (Some sampleCard);
     getAccessToken := fun _ => Returns "access-token";
     axiosPost := fun _ => Returns (mkResponse (Some "query-key") None);
     dispatchReplyFromConfig := fun _ => ([], None);
     matchAllLocalImage := fun _ => [];
     matchAllBareImage := fun s =>
       if String.eqb s linkedContent
       then [mkMatch 12 "/tmp/none.png" ["/tmp/none.png"]]
       else [];
     jsonParses := fun _ => false;
     chunkTextWithMode := fun text _ _ => [text] |}.

(** A direct message "hello" from staff member [staff-1]. *)
Definition hello : Bot.InboundData :=
  Bot.mkData (Some "text") (Some " hello ") [] None None (Some "1")
    (Some "staff-1") "sender-1" (Some "Ann") "conv-1".


End MoreExamples.


(* ===================================================================== *)
(** * Concrete stores and environments used in the examples              *)
(* ===================================================================== *)

Module Examples.
Import Env.

(** Ninety-nine message ids [m0 .. m98], all marked at time 0. *)
Definition oldIds : list string :=
  map (fun n => "m" +:+ JS.numberToString (Z.of_nat n)) (seq 0 99).

Definition oldStore : gmap string Z :=
  list_to_map (map (fun i => (i, 0)) oldIds).

Definition sampleCard : AICardInstance := mkCard "card_1" "token" false.

(** An environment in which nothing needs the OAPI token, the card API
    answers as [cards] says, the send endpoints accept every message, and
    the chunker returns the text as one chunk. *)
Definition worldWith (cards : list Event -> Outcome (option AICardInstance)) : World :=
  {| getOapiAccessToken := fun _ => None;
     uploadMediaToDingTalk := fun _ => None;
     createAICardForTarget := cards;
     getAccessToken := fun _ => Returns "access-token";
     axiosPost := fun _ => Returns (mkResponse (Some "query-key") None);
     dispatchReplyFromConfig := fun _ => ([], None);
     matchAllLocalImage := fun _ => [];
     matchAllBareImage := fun _ => [];
     jsonParses := fun _ => false;
     chunkTextWithMode := fun text _ _ => [text] |}.

(** The card API always creates the card. *)
Definition cardWorld : World := worldWith (fun _ => Returns (Some sampleCard)).

(** The card API always answers [null]. *)
Definition noCardWorld : World := worldWith (fun _ => Returns None).

(** The card API answers [null] to the first creation request and creates
    the card from the second request on. *)
Definition flakyCardWorld : World :=
  worldWith (fun h =>
    if (length (List.filter
                  (fun e => match e with EvCreateAICard _ => true | _ => false end) h)
        <=? 1)%nat
    then Returns None
    else Returns (Some sampleCard)).

(** A turn in a direct chat with [user_1]. *)
Definition directTurn : Dispatcher.Params :=
  Dispatcher.mkParams "user_1" true "" 4000 ChunkLength.

(** A turn in the group conversation [conv_1]. *)
Definition groupTurn : Dispatcher.Params :=
  Dispatcher.mkParams "user_1" false "conv_1" 4000 ChunkLength.

(** As [cardWorld], with an OAPI token, so that media post-processing runs. *)
Definition tokenWorld : World :=
  {| getOapiAccessToken := fun _ => Some "oapi-token";
     uploadMediaToDingTalk := fun _ => Some "@media-1";
     createAICardForTarget := fun _ => Returns (Some sampleCard);
     getAccessToken := fun _ => Returns "access-token";
     axiosPost := fun _ => Returns (mkResponse (Some "query-key") None);
     dispatchReplyFromConfig := fun _ => ([], None);
     matchAllLocalImage := fun _ => [];
     matchAllBareImage := fun _ => [];
     jsonParses := fun _ => false;
     chunkTextWithMode := fun text _ _ => [text] |}.

(** A chunker that cuts the text every [limit] bytes. *)
Fixpoint chunkEvery (fuel limit : nat) (text : string) : list string :=
  match fuel with
  | O => []
  | S fuel' =>
      if JS.truthy text
      then JS.take limit text :: chunkEvery fuel' limit (JS.drop limit text)
      else []
  end.

(** As [noCardWorld], with that chunker. *)
Definition chunkingWorld : World :=
  {| getOapiAccessToken := fun _ => None;
     uploadMediaToDingTalk := fun _ => None;
     createAICardForTarget := fun _ => Returns None;
     getAccessToken := fun _ => Returns "access-token";
     axiosPost := fun _ => Returns (mkResponse (Some "query-key") None);
     dispatchReplyFromConfig := fun _ => ([], None);
     matchAllLocalImage := fun _ => [];
     matchAllBareImage := fun _ => [];
     jsonParses := fun _ => false;
     chunkTextWithMode := fun text limit _ => chunkEvery (String.length text) limit text |}.

(** A turn in a group conversation with a chunk limit of five bytes. *)
Definition shortChunks : Dispatcher.Params :=
  Dispatcher.mkParams "user_1" false "conv_1" 5 ChunkLength.

End Examples.

(* ===================================================================== *)
(** * Facts about the string primitives                                   *)
(* ===================================================================== *)

Module JSFacts.
Import JS.

(** Induction on strings that may step over one, two or three bytes. *)
Lemma string_ind3 (P : string -> Prop) :
  P EmptyString ->
  (forall a r, P r ->
     (forall b r2, r = String b r2 -> P r2) ->
     (forall b c r3, r = String b (String c r3) -> P r3) ->
     P (String a r)) ->
  forall s, P s.
Proof.
  intros H0 Hstep.
  assert (H : forall s, P s /\
            (forall b r2, s = String b r2 -> P r2) /\
            (forall b c r3, s = String b (String c r3) -> P r3)).
  { induction s as [|a r IH].
    - split; [exact H0|]. split; intros; discriminate.
    - destruct IH as (IH1 & IH2 & IH3).
      split; [apply Hstep; assumption|].
      split.
      + intros b r2 E. injection E as _ <-. exact IH1.
      + intros b c r3 E. injection E as _ E'. eapply IH2. exact E'. }
  intros s. apply H.
Qed.

Lemma trimStart_allWs s : allWs (trimStart s) = allWs s.
Proof.
  induction s as [|a r IH1 IH2 IH3] using string_ind3; [reflexivity|].
  cbn [trimStart allWs].
  destruct (ws1 a) eqn:E1; [exact IH1|].
  destruct r as [|b r2]; [cbn [allWs]; rewrite E1; reflexivity|].
  destruct (ws2 a b) eqn:E2; [exact (IH2 _ _ eq_refl)|].
  destruct r2 as [|c r3]; [cbn [allWs]; rewrite E1, E2; reflexivity|].
  destruct (ws3 a b c) eqn:E3; [exact (IH3 _ _ _ eq_refl)|].
  cbn [allWs]. rewrite E1, E2, E3. reflexivity.
Qed.

Lemma trimStart_blank s : allWs s = true -> trimStart s = EmptyString.
Proof.
  induction s as [|a r IH1 IH2 IH3] using string_ind3; [reflexivity|].
  cbn [trimStart allWs].
  destruct (ws1 a); [exact IH1|].
  destruct r as [|b r2]; [discriminate|].
  destruct (ws2 a b); [exact (IH2 _ _ eq_refl)|].
  destruct r2 as [|c r3]; [discriminate|].
  destruct (ws3 a b c); [exact (IH3 _ _ _ eq_refl)|discriminate].
Qed.

Lemma trimEnd_empty s : trimEnd s = EmptyString <-> allWs s = true.
Proof.
  destruct s as [|a r]; [split; reflexivity|].
  cbn [trimEnd]. destruct (allWs (String a r)); split; intros H;
    try reflexivity; discriminate.
Qed.

(** [s.trim()] is empty exactly when [s] is empty or white space only. *)
Lemma trim_empty s : trim s = EmptyString <-> allWs s = true.
Proof. unfold trim. rewrite trimEnd_empty, trimStart_allWs. reflexivity. Qed.

Lemma isBlank_allWs s : isBlank s = allWs s.
Proof.
  unfold isBlank, truthy. rewrite negb_involutive.
  destruct (allWs s) eqn:E.
  - apply trim_empty in E. rewrite E. reflexivity.
  - destruct (String.eqb_spec (trim s) EmptyString) as [H|H]; [|reflexivity].
    apply trim_empty in H. congruence.
Qed.

Lemma trim_blank s : allWs s = true -> trim s = EmptyString.
Proof. apply trim_empty. Qed.

Lemma truthy_false s : truthy s = false <-> s = EmptyString.
Proof.
  unfold truthy. destruct (String.eqb_spec s EmptyString); split; intros;
    try reflexivity; try assumption; try discriminate; contradiction.
Qed.

Lemma truthy_true s : truthy s = true <-> s <> EmptyString.
Proof.
  unfold truthy. destruct (String.eqb_spec s EmptyString); split; intros;
    try reflexivity; try assumption; try discriminate; try contradiction.
Qed.

(** The decimal rendering of an integer determines the integer. *)
Lemma numberToString_inj n m : numberToString n = numberToString m -> n = m.
Proof.
  unfold numberToString. intros H.
  assert (E : Some (Z.to_int n) = Some (Z.to_int m)).
  { rewrite <- (NilEmpty.isi (Z.to_int n)), <- (NilEmpty.isi (Z.to_int m)).
    rewrite H. reflexivity. }
  injection E as E.
  rewrite <- (DecimalZ.of_to n), <- (DecimalZ.of_to m), E. reflexivity.
Qed.

Lemma append_cancel_l p a b : p +:+ a = p +:+ b -> a = b.
Proof.
  induction p as [|c p IH]; [trivial|].
  change (String c (p +:+ a) = String c (p +:+ b) -> a = b).
  intros H. injection H as H. auto.
Qed.

Lemma append_empty_r s : s +:+ EmptyString = s.
Proof.
  induction s as [|c s IH]; [reflexivity|].
  change (String c (s +:+ EmptyString) = String c s). f_equal. exact IH.
Qed.

End JSFacts.

(* ===================================================================== *)
(** * Properties of the session store                                     *)
(* ===================================================================== *)

Module SessionFacts.
Import Session.

Lemma initial_ne_rotated s now : initialSessionId s <> rotatedSessionId s now.
Proof.
  unfold initialSessionId, rotatedSessionId. intros H.
  apply JSFacts.append_cancel_l in H.
  rewrite <- (JSFacts.append_empty_r s) in H at 1.
  apply JSFacts.append_cancel_l in H. discriminate.
Qed.

Lemma rotated_inj s t1 t2 : rotatedSessionId s t1 = rotatedSessionId s t2 -> t1 = t2.
Proof.
  unfold rotatedSessionId. intros H.
  do 3 apply JSFacts.append_cancel_l in H.
  apply JSFacts.numberToString_inj. exact H.
Qed.

(** A forced call always rotates. *)
Lemma getSessionKey_forced now s T us :
  getSessionKey now s true T us =
    (mkSessionKeyResult (rotatedSessionId s now) true,
     <[s := mkUserSession now (rotatedSessionId s now)]> us).
Proof. reflexivity. Qed.

(** After any call for [s] at [now], the stored session of [s] holds the
    returned key and [now]. *)
Lemma getSessionKey_stored now s f T us :
  snd (getSessionKey now s f T us) !! s =
    Some (mkUserSession now (sessionKey (fst (getSessionKey now s f T us)))).
Proof.
  unfold getSessionKey. destruct f; cbn; [apply lookup_insert_eq|].
  destruct (us !! s) as [e|]; [destruct (_ >? _)|]; cbn; apply lookup_insert_eq.
Qed.

(** A call for another sender leaves the session of [s] alone. *)
Lemma getSessionKey_other now s' f T us s :
  s' <> s -> snd (getSessionKey now s' f T us) !! s = us !! s.
Proof.
  intros Hne. unfold getSessionKey. destruct f; cbn; [by apply lookup_insert_ne|].
  destruct (us !! s') as [e|]; [destruct (_ >? _)|]; cbn; by apply lookup_insert_ne.
Qed.

(** Every key a sequence of calls returns for [s] is the first-contact key
    of [s] or a rotated key whose time is that of a rotating call. *)
Lemma runCalls_shape (P : Z -> Prop) s calls : forall us,
  (forall e, us !! s = Some e -> keyShape P s (sessionId e)) ->
  (forall c r, In (c, r) (fst (runCalls calls us)) ->
     callSender c = s -> isNew r = true -> P (callAt c)) ->
  (forall c r, In (c, r) (fst (runCalls calls us)) ->
     callSender c = s -> keyShape P s (sessionKey r)) /\
  (forall e, snd (runCalls calls us) !! s = Some e -> keyShape P s (sessionId e)).
Proof.
  induction calls as [|c calls IH]; intros us Hus Hrot.
  - split; [intros c r []|exact Hus].
  - cbn [runCalls fst snd] in *.
    assert (Hhead : callSender c = s -> keyShape P s (sessionKey (fst (perform c us)))).
    { intros Hs.
      assert (Hnew : isNew (fst (perform c us)) = true -> P (callAt c)).
      { intros Hn. eapply Hrot; [left; reflexivity|exact Hs|exact Hn]. }
      revert Hnew. unfold perform, getSessionKey. rewrite Hs.
      destruct (callForceNew c); cbn.
      - intros Hn. right. exists (callAt c). split; [apply Hn|]; reflexivity.
      - destruct (us !! s) as [e|] eqn:He.
        + destruct (_ >? _); cbn; intros Hn.
          * right. exists (callAt c). split; [apply Hn|]; reflexivity.
          * apply Hus. reflexivity.
        + intros _. left. reflexivity. }
    assert (Hstore : forall e, snd (perform c us) !! s = Some e ->
                               keyShape P s (sessionId e)).
    { intros e. destruct (decide (callSender c = s)) as [Hs|Hs].
      - unfold perform. rewrite <- Hs at 1. rewrite getSessionKey_stored.
        intros [= <-]. cbn. apply Hhead, Hs.
      - unfold perform. rewrite getSessionKey_other by exact Hs. apply Hus. }
    destruct (IH (snd (perform c us)) Hstore) as [IH1 IH2].
    { intros c' r' Hin. apply Hrot. right. exact Hin. }
    split; [|exact IH2].
    intros c' r' [[= <- <-]|Hin] Hs; [apply Hhead, Hs|].
    eapply IH1; eassumption.
Qed.

Lemma storeAt_empty now : storeAt now ∅.
Proof. intros s e H. rewrite lookup_empty in H. discriminate. Qed.

(** With a clock that does not run backwards, every call keeps the store in
    that shape. *)
Lemma getSessionKey_storeAt now now' s f T us :
  storeAt now us -> now <= now' -> storeAt now' (snd (getSessionKey now' s f T us)).
Proof.
  intros Hst Hle s' e. destruct (decide (s = s')) as [<-|Hne].
  - rewrite getSessionKey_stored. intros [= <-].
    unfold keyNotAfterActivity. cbn [lastActivity sessionId].
    split; [lia|].
    unfold getSessionKey. destruct f; cbn [fst sessionKey].
    + right. exists now'. split; [lia|reflexivity].
    + destruct (us !! s) as [e|] eqn:He.
      * destruct (_ >? _); cbn [fst sessionKey].
        -- right. exists now'. split; [lia|reflexivity].
        -- destruct (Hst s e He) as [Hact [Hk|(t & Ht & Hk)]]; [left; exact Hk|].
           right. exists t. split; [lia|exact Hk].
      * left. reflexivity.
  - rewrite getSessionKey_other by exact Hne. intros He.
    destruct (Hst s' e He) as [Hact Hk]. split; [lia|exact Hk].
Qed.

End SessionFacts.

(* ===================================================================== *)
(** * C1: forced rotation                                                 *)
(* ===================================================================== *)

Module ForcedRotation.
Import Session SessionFacts.

(** C1, as stated, fails: two consecutive forced rotations of the same
    sender that read the same millisecond of the clock both report
    [isNew = true] and return the very same session key. *)
Lemma forced_rotation_same_millisecond_collides :
  let first := getSessionKey 1700000000000 "user-1" true 1800000 ∅ in
  let second := getSessionKey 1700000000000 "user-1" true 1800000 (snd first) in
  isNew (fst first) = true /\ isNew (fst second) = true /\
  sessionKey (fst second) = sessionKey (fst first).
Proof. repeat split. Qed.

(** C1, amended: after any sequence of [getSessionKey] calls starting from
    the empty store, a forced call for sender [s] at clock reading [now]
    returns [isNew = true] and the key [dingtalk-connector:<s>:<now>]; that
    key differs from every key returned earlier for [s] provided no
    earlier call for [s] that rotated read the same clock value [now]. *)
Theorem forced_rotation_fresh_key (calls : list Call) (s : string) (now T : Z) :
  (forall c r, In (c, r) (fst (runCalls calls ∅)) ->
     callSender c = s -> isNew r = true -> callAt c <> now) ->
  let r := getSessionKey now s true T (snd (runCalls calls ∅)) in
  isNew (fst r) = true /\
  sessionKey (fst r) = rotatedSessionId s now /\
  forall c k, In (c, k) (fst (runCalls calls ∅)) ->
    callSender c = s -> sessionKey k <> sessionKey (fst r).
Proof.
  intros Hclock. cbn zeta. rewrite getSessionKey_forced. cbn [fst sessionKey isNew].
  split; [reflexivity|]. split; [reflexivity|].
  destruct (runCalls_shape (fun t => t <> now) s calls ∅) as [Hlog _].
  - intros e He. rewrite lookup_empty in He. discriminate.
  - exact Hclock.
  - intros c k Hin Hs Heq.
    destruct (Hlog c k Hin Hs) as [Hk|(t & Ht & Hk)]; rewrite Hk in Heq.
    + exact (initial_ne_rotated _ _ Heq).
    + apply rotated_inj in Heq. contradiction.
Qed.

(** The amended statement at work: first contact at 1000, a forced
    rotation at 2000, and a forced rotation at 3000. *)
Lemma forced_rotation_fresh_key_witness :
  let calls := [mkCall 1000 "user-1" false 1800000; mkCall 2000 "user-1" true 1800000] in
  let r := getSessionKey 3000 "user-1" true 1800000 (snd (runCalls calls ∅)) in
  isNew (fst r) = true /\
  sessionKey (fst r) = rotatedSessionId "user-1" 3000 /\
  forall c k, In (c, k) (fst (runCalls calls ∅)) ->
    callSender c = "user-1" -> sessionKey k <> sessionKey (fst r).
Proof.
  apply (forced_rotation_fresh_key
           [mkCall 1000 "user-1" false 1800000; mkCall 2000 "user-1" true 1800000]
           "user-1" 3000 1800000).
  intros c r Hin _ _.
  destruct Hin as [H|[H|[]]]; injection H as <- _; cbn; lia.
Defined.

End ForcedRotation.

(* ===================================================================== *)
(** * C4: session resolution without forcing                              *)
(* ===================================================================== *)

Module SessionResolution.
Import Session SessionFacts.

(** C4: [getSessionKey(s, false, timeout)] at clock reading [now].
    - First contact: the session is created with the key derived from the
      sender id alone, and [isNew = false].
    - Existing session with [now - lastActivity <= timeout]: the stored
      key is returned with [isNew = false] and [lastActivity] becomes [now].
    - Existing session with [now - lastActivity > timeout]: the session is
      rotated to the key for [now], and [isNew = true]; that key differs
      from the stored one when the timeout is not negative and the stored
      key carries no time later than the last activity (as in every store
      built with a clock that does not run backwards).
    - Hence a second unforced call within the timeout of any first unforced
      call returns the same key with [isNew = false]. *)
Theorem unforced_session_resolution (s : string) (now timeout : Z)
    (us : gmap string UserSession) :
  (us !! s = None ->
     getSessionKey now s false timeout us =
       (mkSessionKeyResult (initialSessionId s) false,
        <[s := mkUserSession now (initialSessionId s)]> us)) /\
  (forall e, us !! s = Some e -> now - lastActivity e <= timeout ->
     getSessionKey now s false timeout us =
       (mkSessionKeyResult (sessionId e) false,
        <[s := mkUserSession now (sessionId e)]> us)) /\
  (forall e, us !! s = Some e -> now - lastActivity e > timeout ->
     getSessionKey now s false timeout us =
       (mkSessionKeyResult (rotatedSessionId s now) true,
        <[s := mkUserSession now (rotatedSessionId s now)]> us) /\
     (0 <= timeout -> keyNotAfterActivity s e -> rotatedSessionId s now <> sessionId e)) /\
  (forall now2 timeout2, now2 - now <= timeout2 ->
     let first := getSessionKey now s false timeout us in
     let second := getSessionKey now2 s false timeout2 (snd first) in
     sessionKey (fst second) = sessionKey (fst first) /\
     isNew (fst second) = false).
Proof.
  repeat split.
  - intros H. unfold getSessionKey. rewrite H. reflexivity.
  - intros e H Hle. unfold getSessionKey. rewrite H.
    destruct (Z.gtb_spec (now - lastActivity e) timeout); [lia|reflexivity].
  - unfold getSessionKey. rewrite H.
    destruct (Z.gtb_spec (now - lastActivity e) timeout); [reflexivity|lia].
  - intros Hpos [Hk|(t & Ht & Hk)] Heq; rewrite Hk in Heq.
    + exact (initial_ne_rotated _ _ (eq_sym Heq)).
    + apply rotated_inj in Heq. lia.
  - unfold getSessionKey at 1. rewrite getSessionKey_stored. cbn [lastActivity sessionId].
    destruct (Z.gtb_spec (now2 - now) timeout2); [lia|reflexivity].
  - unfold getSessionKey at 1. rewrite getSessionKey_stored. cbn [lastActivity sessionId].
    destruct (Z.gtb_spec (now2 - now) timeout2); [lia|reflexivity].
Qed.

(** The four cases on a concrete store: [alice] was last active at 1000
    with her first-contact key, [bob] is unknown, the timeout is 500. *)
Lemma unforced_session_resolution_witness :
  let us : gmap string UserSession :=
    {[ "alice" := mkUserSession 1000 (initialSessionId "alice") ]} in
  fst (getSessionKey 1200 "bob" false 500 us)
    = mkSessionKeyResult "dingtalk-connector:bob" false /\
  fst (getSessionKey 1500 "alice" false 500 us)
    = mkSessionKeyResult "dingtalk-connector:alice" false /\
  fst (getSessionKey 1501 "alice" false 500 us)
    = mkSessionKeyResult "dingtalk-connector:alice:1501" true /\
  sessionKey (fst (getSessionKey 2001 "alice" false 500
                     (snd (getSessionKey 1501 "alice" false 500 us))))
    = "dingtalk-connector:alice:1501".
Proof.
  intros us.
  pose proof (unforced_session_resolution "bob" 1200 500 us) as (Hbob & _).
  pose proof (unforced_session_resolution "alice" 1500 500 us) as (_ & Hin & _).
  pose proof (unforced_session_resolution "alice" 1501 500 us) as (_ & _ & Hrot & Htwice).
  assert (Hout : forall e, us !! "alice" = Some e -> 1501 - lastActivity e > 500 ->
            getSessionKey 1501 "alice" false 500 us =
              (mkSessionKeyResult (rotatedSessionId "alice" 1501) true,
               <[ "alice" := mkUserSession 1501 (rotatedSessionId "alice" 1501)]> us)).
  { intros e He Hgt. apply (Hrot e He Hgt). }
  split; [|split; [|split]].
  - rewrite Hbob; [reflexivity|]. subst us. apply lookup_singleton_ne. discriminate.
  - rewrite (Hin (mkUserSession 1000 (initialSessionId "alice")));
      [reflexivity| subst us; apply lookup_singleton_eq | cbn; lia].
  - rewrite (Hout (mkUserSession 1000 (initialSessionId "alice")));
      [reflexivity| subst us; apply lookup_singleton_eq | cbn; lia].
  - destruct (Htwice 2001 500) as [Hkey _]; [lia|].
    cbn zeta in Hkey. rewrite Hkey.
    rewrite (Hout (mkUserSession 1000 (initialSessionId "alice")));
      [reflexivity| subst us; apply lookup_singleton_eq | cbn; lia].
Defined.

End SessionResolution.

(* ===================================================================== *)
(** * C5: the de-duplication cache                                        *)
(* ===================================================================== *)

Module Dedup.
Import Session.

Lemma isMessageProcessed_spec m pm :
  m <> EmptyString ->
  (isMessageProcessed m pm = true <-> is_Some (pm !! m)).
Proof.
  intros Hm. unfold isMessageProcessed.
  apply JSFacts.truthy_true in Hm. rewrite Hm. cbn [negb].
  apply bool_decide_eq_true.
Qed.

(** The sweep keeps exactly the entries that are not older than the TTL. *)
Lemma cleanup_lookup now pm k t :
  cleanupProcessedMessages now pm !! k = Some t <->
  pm !! k = Some t /\ ~ (now - t > MESSAGE_DEDUP_TTL).
Proof. unfold cleanupProcessedMessages. apply map_lookup_filter_Some. Qed.

Lemma mark_lookup_None now now' id pm m :
  id <> m -> pm !! m = None -> markMessageProcessed now now' id pm !! m = None.
Proof.
  intros Hne Hm. unfold markMessageProcessed.
  destruct (negb (JS.truthy id)); [exact Hm|]. cbn zeta.
  assert (Hins : <[id := now]> pm !! m = None) by (by rewrite lookup_insert_ne).
  destruct (100 <=? _)%nat; [|exact Hins].
  destruct (cleanupProcessedMessages now' _ !! m) as [t|] eqn:E; [|reflexivity].
  apply cleanup_lookup in E as [E _]. congruence.
Qed.

Lemma runMarks_lookup_None marks m : forall pm,
  Forall (fun mk => markId mk <> m) marks ->
  pm !! m = None -> runMarks marks pm !! m = None.
Proof.
  induction marks as [|mk marks IH]; intros pm Hall Hm; [exact Hm|].
  inversion Hall as [|? ? Hhd Htl]; subst.
  cbn [runMarks fold_left]. apply IH; [exact Htl|].
  apply mark_lookup_None; assumption.
Qed.

(** C5: for a non-empty message id [m],
    - [isMessageProcessed(m)] is false as long as [markMessageProcessed(m)]
      has not been called (whatever other ids were marked since start-up);
    - right after [markMessageProcessed(m)] it is true: the sweep that the
      insertion itself may trigger never evicts [m] (the sweep reads the
      clock after the insertion, in the same synchronous call, so its
      reading [now'] is less than the TTL after the insertion's [now]);
    - after any later [markMessageProcessed(m')], [m] is still reported
      processed exactly when it was in the store and was not removed by a
      sweep, which runs only when the size after insertion is at least
      100 and removes exactly the entries older than the TTL;
    - the empty id is never processed and marking it changes nothing. *)
Theorem dedup_cache (m : string) (Hm : m <> EmptyString) :
  (forall marks, Forall (fun mk => markId mk <> m) marks ->
     isMessageProcessed m (runMarks marks ∅) = false) /\
  (forall pm now now', now' - now <= MESSAGE_DEDUP_TTL ->
     isMessageProcessed m (markMessageProcessed now now' m pm) = true) /\
  (forall pm m' t t', m' <> EmptyString ->
     (isMessageProcessed m (markMessageProcessed t t' m' pm) = true <->
      exists ts, <[m' := t]> pm !! m = Some ts /\
                 ~ ((100 <= size (<[m' := t]> pm))%nat /\ t' - ts > MESSAGE_DEDUP_TTL))) /\
  (forall pm now now',
     ((size (<[m := now]> pm) < 100)%nat ->
        markMessageProcessed now now' m pm = <[m := now]> pm) /\
     ((100 <= size (<[m := now]> pm))%nat ->
        forall k t, markMessageProcessed now now' m pm !! k = Some t <->
                    <[m := now]> pm !! k = Some t /\ ~ (now' - t > MESSAGE_DEDUP_TTL))) /\
  (forall pm now now',
     isMessageProcessed EmptyString pm = false /\
     markMessageProcessed now now' EmptyString pm = pm).
Proof.
  assert (Hstep : forall pm m' t t', m' <> EmptyString ->
           forall k ts, markMessageProcessed t t' m' pm !! k = Some ts <->
             <[m' := t]> pm !! k = Some ts /\
             ~ ((100 <= size (<[m' := t]> pm))%nat /\ t' - ts > MESSAGE_DEDUP_TTL)).
  { intros pm m' t t' Hm' k ts. unfold markMessageProcessed.
    apply JSFacts.truthy_true in Hm'. rewrite Hm'. cbn [negb]. cbn zeta.
    destruct (Nat.leb_spec 100 (size (<[m' := t]> pm))) as [Hsz|Hsz].
    - rewrite cleanup_lookup. split; intros [H1 H2]; (split; [exact H1|]); tauto.
    - split; [intros H; split; [exact H|lia]|intros [H _]; exact H]. }
  split; [|split; [|split; [|split]]].
  - intros marks Hall.
    destruct (isMessageProcessed m (runMarks marks ∅)) eqn:E; [|reflexivity].
    apply isMessageProcessed_spec in E; [|exact Hm].
    rewrite runMarks_lookup_None in E; [destruct E; discriminate|exact Hall|].
    apply lookup_empty.
  - intros pm now now' Hclock. apply isMessageProcessed_spec; [exact Hm|].
    exists now. apply Hstep; [exact Hm|]. split; [apply lookup_insert_eq|lia].
  - intros pm m' t t' Hm'. rewrite isMessageProcessed_spec by exact Hm.
    split.
    + intros [ts Hts]. exists ts. apply Hstep; assumption.
    + intros (ts & H1 & H2). exists ts. apply Hstep; [assumption|]. split; assumption.
  - intros pm now now'. split.
    + intros Hsz. unfold markMessageProcessed.
      apply JSFacts.truthy_true in Hm. rewrite Hm. cbn [negb]. cbn zeta.
      destruct (Nat.leb_spec 100 (size (<[m := now]> pm))); [lia|reflexivity].
    + intros Hsz k t. rewrite (Hstep pm m now now' Hm k t). tauto.
  - intros pm now now'. split; reflexivity.
Qed.

(** The cache on a full store: ninety-nine ids marked at time 0, then
    [fresh] marked at 300001 (both readings).  The insertion makes the size
    100, the sweep runs, evicts the old ids and keeps [fresh]. *)
Lemma dedup_cache_witness :
  isMessageProcessed "fresh" Examples.oldStore = false /\
  isMessageProcessed "fresh"
    (markMessageProcessed 300001 300001 "fresh" Examples.oldStore) = true /\
  isMessageProcessed "m5"
    (markMessageProcessed 300001 300001 "fresh" Examples.oldStore) = false /\
  isMessageProcessed "m5"
    (markMessageProcessed 300000 300000 "fresh" Examples.oldStore) = true.
Proof.
  assert (Hfresh : "fresh" <> EmptyString) by discriminate.
  destruct (dedup_cache "fresh" Hfresh) as (_ & Hmark & _).
  split; [vm_compute; reflexivity|].
  split; [apply Hmark; vm_compute; discriminate|].
  split; vm_compute; reflexivity.
Defined.

End Dedup.

(* ===================================================================== *)
(** * C7: stopping a gateway account is recorded once                     *)
(* ===================================================================== *)

Module GatewayStop.
Import Env Channel.

Lemma react_stopped a s h : stopped a = true -> react a s h = (a, h).
Proof.
  intros Hs. destruct s; cbn; [|destruct (abortSignal a); [|reflexivity]];
    unfold stopOnce; rewrite Hs; reflexivity.
Qed.

Lemma reactAll_stopped signals : forall a h,
  stopped a = true -> reactAll signals a h = (a, h).
Proof.
  induction signals as [|s signals IH]; intros a h Hs; [reflexivity|].
  unfold reactAll in *. cbn [forEach]. unfold bind at 1.
  rewrite react_stopped by exact Hs. apply IH, Hs.
Qed.

Lemma react_running a s h :
  stopped a = false -> heard a s = true ->
  react a s h = (mkAccount (abortSignal a) true, h ++ stopCalls).
Proof.
  destruct a as [ab st]. cbn. intros -> Hh.
  destruct s; cbn in *; subst; cbn; unfold stopCalls, bind, emit, call, ret; cbn;
    rewrite <- app_assoc; reflexivity.
Qed.

Lemma react_unheard a s h : heard a s = false -> react a s h = (a, h).
Proof. destruct s; cbn; [discriminate|]. intros ->. reflexivity. Qed.

Lemma reactAll_running signals : forall a h,
  stopped a = false ->
  reactAll signals a h =
    if existsb (heard a) signals
    then (mkAccount (abortSignal a) true, h ++ stopCalls)
    else (a, h).
Proof.
  induction signals as [|s signals IH]; intros a h Hs; [reflexivity|].
  unfold reactAll in *. cbn [forEach existsb]. unfold bind at 1.
  destruct (heard a s) eqn:Hh.
  - rewrite react_running by assumption. cbn [orb].
    apply (reactAll_stopped signals). reflexivity.
  - rewrite react_unheard by assumption. cbn [orb]. apply IH, Hs.
Qed.

(** C7: take an account as [startAccount] leaves it, after any history [h],
    and let any sequence of [stop()] calls and abort events reach it.
    - The first signal the account hears disconnects the client and records
      the activity, once.
    - On a stopped account every signal is a no-op: no call is made and the
      state is unchanged.
    - Over the whole sequence the stop-side calls are therefore made exactly
      once if any signal was heard, however many there were. *)
Theorem stop_recorded_exactly_once (abort : bool) (signals : list Signal)
    (h : list Event) :
  let started := startAccount abort h in
  (forall s, heard (fst started) s = true ->
     react (fst started) s (snd started) =
       (mkAccount abort true, snd started ++ [EvClientDisconnect; EvActivityRecord])) /\
  (forall a s h', stopped a = true -> react a s h' = (a, h')) /\
  snd (reactAll signals (fst started) (snd started)) =
    snd started ++
    (if existsb (heard (fst started)) signals
     then [EvClientDisconnect; EvActivityRecord] else []).
Proof.
  cbn zeta. unfold startAccount, bind, emit, call, ret. cbn [fst snd].
  split; [|split].
  - intros s Hh. rewrite react_running by (reflexivity || exact Hh). reflexivity.
  - intros a s h' Hs. apply react_stopped, Hs.
  - rewrite reactAll_running by reflexivity.
    cbn [heard abortSignal]. destruct (existsb _ signals); cbn [snd].
    + reflexivity.
    + rewrite app_nil_r. reflexivity.
Qed.

(** An account started with an abort signal; the signal fires, then [stop]
    is called twice: one disconnect and one record after those of the start. *)
Lemma stop_recorded_exactly_once_witness :
  snd (reactAll [AbortFires; CallStop; CallStop]
         (fst (startAccount true [])) (snd (startAccount true [])))
    = [EvClientConnect; EvActivityRecord; EvClientDisconnect; EvActivityRecord].
Proof.
  destruct (stop_recorded_exactly_once true [AbortFires; CallStop; CallStop] [])
    as (_ & _ & Hall).
  rewrite Hall. reflexivity.
Defined.

End GatewayStop.

(* ===================================================================== *)
(** * Properties of the reply dispatcher                                  *)
(* ===================================================================== *)

Module DispatcherFacts.
Import Env Dispatcher.

Lemma settle_idem st : settle (settle st) = settle st.
Proof.
  destruct st as [c [[[created|e]|]|]]; reflexivity.
Qed.

(** Settling never clears the promise, and never sets one. *)
Lemma settle_promise st :
  cardCreationPromise (settle st) = None <-> cardCreationPromise st = None.
Proof.
  destruct st as [c [[[created|e]|]|]]; cbn; split; intros H;
    try discriminate; reflexivity.
Qed.

Lemma settle_no_promise st : cardCreationPromise st = None -> settle st = st.
Proof. destruct st as [c [pr|]]; [discriminate|reflexivity]. Qed.

Lemma startCard_noop w p st h :
  cardCreationPromise st <> None \/ card st <> None -> startCard w p st h = (st, h).
Proof.
  unfold startCard. destruct (cardCreationPromise st), (card st); intros [H|H];
    try reflexivity; contradiction.
Qed.

Lemma startCard_request w p st h :
  cardCreationPromise st = None -> card st = None ->
  startCard w p st h =
    (mkState None
       (Some (Pending (createAICardForTarget w (h ++ [EvCreateAICard (target p)])))),
     h ++ [EvCreateAICard (target p)]).
Proof. unfold startCard. intros -> ->. reflexivity. Qed.

(** The second [startCard()] of a reply start never does anything. *)
Lemma onReplyStart_startCard w p st h : onReplyStart w p st h = startCard w p st h.
Proof.
  unfold onReplyStart, bind.
  destruct (cardCreationPromise st) as [pr|] eqn:Hp.
  - rewrite (startCard_noop w p st h) by (left; congruence).
    apply startCard_noop. left. congruence.
  - destruct (card st) as [c|] eqn:Hc.
    + rewrite (startCard_noop w p st h) by (right; congruence).
      apply startCard_noop. right. congruence.
    + rewrite startCard_request by assumption.
      apply startCard_noop. left. discriminate.
Qed.

Lemma closeCard_state text st h : fst (closeCard text st h) = mkState None None.
Proof. unfold closeCard. destruct (card (awaitCreation st)); reflexivity. Qed.

Lemma closeCard_card text st c h :
  card (awaitCreation st) = Some c ->
  closeCard text st h =
    (mkState None None,
     h ++ [EvFinishAICard c (if JS.truthy text then text else "Done")]).
Proof. unfold closeCard. intros ->. reflexivity. Qed.

(** The state of a computation that ends in [ret x]. *)
Lemma bind_ret_state {A B} (m : M A) (x : B) h : fst (bind m (fun _ => ret x) h) = x.
Proof. unfold bind, ret. destruct (m h). reflexivity. Qed.

(** The state in which [deliver] leaves the dispatcher. *)
Lemma deliver_state w p text info st h :
  fst (deliver w p text info st h) =
    if JS.isBlank (default EmptyString text) then st
    else match card (settle st), info with
         | Some _, Some KindFinal => mkState None None
         | _, _ => settle st
         end.
Proof.
  unfold deliver. cbn zeta. destruct (JS.isBlank _); [reflexivity|].
  unfold awaitCreation. destruct (card (settle st)) as [c|] eqn:Hc.
  - destruct info as [[| |]|]; try reflexivity. apply closeCard_state.
  - rewrite bind_ret_state. destruct info as [[| |]|]; reflexivity.
Qed.

Lemma armed_settle st : armed (settle st) = armed st.
Proof. destruct st as [c [[[created|e]|]|]]; destruct c; try reflexivity; destruct created; reflexivity. Qed.

(** Requests of [startCard] are paid for by an earlier [closeCard], except
    the first. *)
Lemma requests_bounded w p es : forall st h,
  (tally requestsCard w p es st h
   <= (if armed st then 1 else 0) + tally closesCard w p es st h)%nat.
Proof.
  induction es as [|e es IH]; intros st h; [cbn; lia|].
  cbn [tally]. set (next := step w p st e h).
  specialize (IH (fst next) (snd next)).
  assert (Hstep : ((if requestsCard st e then 1 else 0)
                   + (if armed (fst next) then 1 else 0)
                   <= (if armed st then 1 else 0)
                      + (if closesCard st e then 1 else 0))%nat).
  { subst next. destruct e as [| |text info|err]; cbn [step].
    - rewrite onReplyStart_startCard. unfold armed. cbn [requestsCard closesCard].
      destruct (cardCreationPromise st) as [pr|] eqn:Hp.
      + rewrite startCard_noop by (left; congruence). cbn [fst].
        rewrite Hp. cbn. lia.
      + destruct (card st) as [c|] eqn:Hc.
        * rewrite startCard_noop by (right; congruence). cbn [fst].
          rewrite Hp, Hc. cbn. lia.
        * rewrite startCard_request by assumption. cbn. lia.
    - cbn [requestsCard closesCard ret fst]. rewrite armed_settle.
      destruct (armed st); cbn; lia.
    - cbn [requestsCard closesCard]. rewrite deliver_state.
      unfold awaitCreation.
      destruct (JS.isBlank (default EmptyString text)).
      + destruct info as [[| |]|]; cbn; destruct (armed st); cbn; lia.
      + destruct (card (settle st)) as [c|] eqn:Hc.
        * destruct info as [[| |]|]; cbn [negb andb];
            try (rewrite armed_settle; destruct (armed st); cbn; lia).
          rewrite bool_decide_eq_true_2 by eauto. cbn.
          destruct (armed st); cbn; lia.
        * rewrite bool_decide_eq_false_2 by (intros [? ?]; discriminate).
          assert (Ha : armed (settle st) = armed st) by apply armed_settle.
          destruct info as [[| |]|]; rewrite Ha; destruct (armed st); cbn; lia.
    - cbn [requestsCard closesCard]. unfold onError. rewrite closeCard_state.
      cbn. destruct (armed st); cbn; lia. }
  lia.
Qed.

End DispatcherFacts.

(* ===================================================================== *)
(** * C6: how often a turn requests a card                                *)
(* ===================================================================== *)

Module CardCreation.
Import Env Dispatcher DispatcherFacts.

(** C6, as stated, fails: in one turn, a reply start, the creation
    settling, a final fragment (which closes the card and clears the
    creation promise) and another reply start make [startCard] request a
    card twice; the history holds two card creation requests. *)
Lemma second_card_requested_after_close :
  let turn := [ReplyStart; CreationSettles;
               Fragment (Some "hi there") (Some KindFinal); ReplyStart] in
  tally requestsCard Examples.cardWorld Examples.directTurn turn initial [] = 2%nat /\
  snd (run Examples.cardWorld Examples.directTurn turn initial []) =
    [EvCreateAICard (TargetUser "user_1");
     EvFinishAICard Examples.sampleCard "hi there";
     EvCreateAICard (TargetUser "user_1")].
Proof. split; vm_compute; reflexivity. Qed.

(** C6, amended: [startCard] does nothing whenever a creation promise is
    set (in flight, or settled and not yet cleared) or a card exists; a
    reply start makes at most one creation request; and over any stream of
    reply starts, settlements, fragments and dispatch errors given to a
    fresh dispatcher, [startCard] requests a card at most once more than
    [closeCard] has run: a second request can only follow the closing of
    the previous card (or a dispatch error). *)
Theorem card_requested_once_per_close (w : World) (p : Params) :
  (forall st h, cardCreationPromise st <> None \/ card st <> None ->
     startCard w p st h = (st, h)) /\
  (forall st h,
     snd (onReplyStart w p st h) =
       h ++ (if requestsCard st ReplyStart then [EvCreateAICard (target p)] else [])) /\
  (forall es h,
     (tally requestsCard w p es initial h
      <= 1 + tally closesCard w p es initial h)%nat).
Proof.
  split; [|split].
  - intros st h. apply startCard_noop.
  - intros st h. rewrite onReplyStart_startCard. cbn [requestsCard].
    destruct (cardCreationPromise st) as [pr|] eqn:Hp.
    + rewrite startCard_noop by (left; congruence). cbn. rewrite app_nil_r.
      reflexivity.
    + destruct (card st) as [c|] eqn:Hc.
      * rewrite startCard_noop by (right; congruence). cbn. rewrite app_nil_r.
        reflexivity.
      * rewrite startCard_request by assumption. reflexivity.
  - intros es h. apply (requests_bounded w p es initial h).
Qed.

(** The amended statement on a turn in which the creation is still in
    flight when more reply starts and a block fragment arrive: one request,
    no close. *)
Lemma card_requested_once_per_close_witness :
  let turn := [ReplyStart; ReplyStart; Fragment (Some "part") (Some KindBlock);
               ReplyStart] in
  startCard Examples.cardWorld Examples.directTurn
    (mkState None (Some Settled)) [] = (mkState None (Some Settled), []) /\
  (tally requestsCard Examples.cardWorld Examples.directTurn turn initial []
   <= 1 + tally closesCard Examples.cardWorld Examples.directTurn turn initial [])%nat /\
  tally closesCard Examples.cardWorld Examples.directTurn turn initial [] = 0%nat.
Proof.
  destruct (card_requested_once_per_close Examples.cardWorld Examples.directTurn)
    as (Hnoop & _ & Hbound).
  split; [apply Hnoop; left; discriminate|].
  split; [apply Hbound|vm_compute; reflexivity].
Defined.

End CardCreation.

(* ===================================================================== *)
(** * C2: delivery of one reply fragment                                  *)
(* ===================================================================== *)

Module FragmentDelivery.
Import Env Dispatcher DispatcherFacts.

(** [deliver(payload, info)] with [text = payload.text ?? ""], where it
    does not reach the fallback.
    - If [text] is empty or white space only nothing happens: no call is
      made and the state is unchanged.
    - Otherwise the pending card creation, if any, is awaited first (the
      decision is taken on the settled state), and then, with a card,
      (a) for [info.kind = "final"] the card is finalized with [text] and
          nothing else is called;
      (b) for another kind nothing is called. *)
Lemma deliver_blank_or_card (w : World) (p : Params) (payloadText : option string)
    (info : option ReplyKind) (st : State) (h : list Event) :
  let text := default EmptyString payloadText in
  (JS.allWs text = true -> deliver w p payloadText info st h = (st, h)) /\
  (JS.allWs text = false ->
     (forall c, card (awaitCreation st) = Some c -> info = Some KindFinal ->
        deliver w p payloadText info st h =
          (mkState None None, h ++ [EvFinishAICard c text])) /\
     (forall c, card (awaitCreation st) = Some c -> info <> Some KindFinal ->
        deliver w p payloadText info st h = (awaitCreation st, h))).
Proof.
  cbn zeta. unfold deliver. cbn zeta. rewrite JSFacts.isBlank_allWs.
  split; [intros ->; reflexivity|]. intros Hws. rewrite Hws.
  split.
  - intros c Hc ->. rewrite Hc.
    rewrite (closeCard_card _ _ c).
    + assert (Ht : JS.truthy (default EmptyString payloadText) = true).
      { apply JSFacts.truthy_true. intros E. rewrite E in Hws. discriminate. }
      rewrite Ht. reflexivity.
    + unfold awaitCreation in *. rewrite settle_idem. exact Hc.
  - intros c Hc Hinfo. rewrite Hc.
    destruct info as [[| |]|]; try reflexivity. contradiction.
Qed.

(** [sendPlainText] is the engine's [sendToUser] or [sendToGroup] with the
    empty options object, which tries a one-shot card before the plain send:
    where the card API works, the chunk is delivered as a card. *)
Remark sendPlainText_default_send :
  sendPlainText Examples.cardWorld Examples.directTurn "hi there" []
    = (tt, [EvGetOapiAccessToken; EvCreateAICard (TargetUser "user_1");
            EvFinishAICard Examples.sampleCard "hi there"]).
Proof. reflexivity. Qed.

(** C2: the fallback of [deliver] does not keep to the plain-text path.
    Without a card, [deliver] hands each chunk to [sendPlainText], which the
    code describes as "Fallback: send plain text via DingTalk API" but which
    calls [sendToUser] or [sendToGroup] with the options [{}], so that the
    engine tries a card of its own for every chunk first.
    - In a direct chat where the card of the turn could not be created
      (the card API answered [null]) and the API works again afterwards, the
      final fragment "hello" is delivered by creating and finishing a second
      card: no call of the plain-text path is made.
    - In a group where the card API always answers [null], the final
      fragment "hello world" with a chunk limit of five is sent as the three
      chunks in order, each plain send preceded by a further attempt to
      create a card. *)
Theorem fallback_chunk_delivered_as_card :
  run Examples.flakyCardWorld Examples.directTurn
      [ReplyStart; CreationSettles; Fragment (Some "hello") (Some KindFinal)] initial []
    = (mkState None (Some Settled),
       [ EvCreateAICard (TargetUser "user_1");
         EvGetOapiAccessToken;
         EvCreateAICard (TargetUser "user_1");
         EvFinishAICard Examples.sampleCard "hello" ]) /\
  forallb (fun e => negb (Send.isPlainCall e))
    (snd (run Examples.flakyCardWorld Examples.directTurn
            [ReplyStart; CreationSettles; Fragment (Some "hello") (Some KindFinal)]
            initial [])) = true /\
  run Examples.chunkingWorld Examples.shortChunks
      [ReplyStart; CreationSettles; Fragment (Some "hello world") (Some KindFinal)]
      initial []
    = (mkState None (Some Settled),
       [ EvCreateAICard (TargetGroup "conv_1");
         EvGetOapiAccessToken; EvCreateAICard (TargetGroup "conv_1");
         EvGetAccessToken; EvGroupSend "conv_1" "sampleText" (ParamText "hello");
         EvGetOapiAccessToken; EvCreateAICard (TargetGroup "conv_1");
         EvGetAccessToken; EvGroupSend "conv_1" "sampleText" (ParamText " worl");
         EvGetOapiAccessToken; EvCreateAICard (TargetGroup "conv_1");
         EvGetAccessToken; EvGroupSend "conv_1" "sampleText" (ParamText "d") ]).
Proof.
  split; [|split].
  - vm_compute. reflexivity.
  - vm_compute. reflexivity.
  - vm_compute. reflexivity.
Qed.

End FragmentDelivery.

(* ===================================================================== *)
(** * Which calls a computation makes                                     *)
(* ===================================================================== *)

Module Calls.
Import Env.

Lemma appends_ret {A} P (a : A) : appends P (ret a).
Proof. intros h. exists []. split; [symmetry; apply app_nil_r|reflexivity]. Qed.

Lemma appends_call {A} P e (ask : list Event -> A) : P e = true -> appends P (call e ask).
Proof. intros He h. exists [e]. cbn. rewrite He. split; reflexivity. Qed.

Lemma appends_bind {A B} P (m : M A) (k : A -> M B) :
  appends P m -> (forall a, appends P (k a)) -> appends P (bind m k).
Proof.
  intros Hm Hk h. unfold bind. destruct (Hm h) as (c1 & E1 & F1).
  destruct (m h) as [a h1]. cbn in E1. subst h1.
  destruct (Hk a (h ++ c1)) as (c2 & E2 & F2).
  exists (c1 ++ c2). rewrite E2, <- app_assoc, forallb_app, F1, F2.
  split; reflexivity.
Qed.

Lemma appends_forEach {A S} P (xs : list A) (body : S -> A -> M S) :
  (forall acc x, appends P (body acc x)) -> forall acc, appends P (forEach xs body acc).
Proof.
  intros Hbody. induction xs as [|x xs IH]; intros acc; cbn [forEach].
  - apply appends_ret.
  - apply appends_bind; [apply Hbody|exact IH].
Qed.

Lemma appends_weaken {A} (P Q : Event -> bool) (m : M A) :
  (forall e, P e = true -> Q e = true) -> appends P m -> appends Q m.
Proof.
  intros HPQ Hm h. destruct (Hm h) as (calls & E & F). exists calls.
  split; [exact E|]. rewrite forallb_forall in *. auto.
Qed.

End Calls.

(* ===================================================================== *)
(** * Properties of the outbound delivery engine                          *)
(* ===================================================================== *)

Module SendFacts.
Import Env Send Calls.

(** Media post-processing only uploads. *)
Lemma processLocalImages_uploads w content token :
  appends isUpload (Media.processLocalImages w content token).
Proof.
  unfold Media.processLocalImages.
  destruct (negb (JS.truthyOpt token)); [apply appends_ret|].
  apply appends_bind.
  - apply appends_forEach. intros acc m.
    apply appends_bind; [apply appends_call; reflexivity|].
    intros [id|]; [destruct (JS.truthy id)|]; apply appends_ret.
  - intros result. apply appends_forEach. intros acc m.
    apply appends_bind; [apply appends_call; reflexivity|].
    intros [id|]; [destruct (JS.truthy id)|]; apply appends_ret.
Qed.

Lemma processMedia_uploads w content token :
  appends isUpload (processMedia w content token).
Proof.
  unfold processMedia. destruct (JS.truthyOpt token); [|apply appends_ret].
  apply appends_bind; [apply processLocalImages_uploads|]. intros r. apply appends_ret.
Qed.

Lemma processMedia_rich w content token : appends isRichCall (processMedia w content token).
Proof.
  apply (appends_weaken isUpload); [|apply processMedia_uploads].
  intros [] H; try discriminate; reflexivity.
Qed.

(** The rich path starts by asking for the OAPI token and makes rich-path
    calls only. *)
Lemma sendAICardInternal_calls w target content h :
  exists calls,
    snd (sendAICardInternal w target content h) = h ++ EvGetOapiAccessToken :: calls /\
    forallb isRichCall calls = true.
Proof.
  unfold sendAICardInternal. unfold bind at 1. unfold call at 1.
  set (h1 := h ++ [EvGetOapiAccessToken]).
  assert (Hrest : appends isRichCall
            (bind (processMedia w content (getOapiAccessToken w h1))
               (fun processedContent =>
                  if JS.isBlank processedContent
                  then ret (mkSendResult true None None None (Some false))
                  else bind (call (EvCreateAICard target) (createAICardForTarget w))
                         (fun card =>
                            match card with
                            | Throws e => ret (failure (errorText e))
                            | Returns None => ret (failure "Failed to create AI Card")
                            | Returns (Some card) =>
                                bind (emit (EvFinishAICard card processedContent))
                                  (fun _ => ret (mkSendResult true None
                                                   (Some (cardInstanceId card)) None
                                                   (Some true)))
                            end)))).
  { apply appends_bind; [apply processMedia_rich|]. intros pc.
    destruct (JS.isBlank pc); [apply appends_ret|].
    apply appends_bind; [apply appends_call; reflexivity|].
    intros [[c|]|e]; try apply appends_ret.
    apply appends_bind; [apply appends_call; reflexivity|]. intros _. apply appends_ret. }
  destruct (Hrest h1) as (calls & E & F). exists calls.
  split; [|exact F]. rewrite E. subst h1. rewrite <- app_assoc. reflexivity.
Qed.

(** The plain senders make plain-path calls only. *)
Lemma sendNormalToUser_plain w ids content options :
  appends isPlainCall (sendNormalToUser w ids content options).
Proof.
  unfold sendNormalToUser. destruct (buildMsgPayload _ _ _ _) as [[k prm]|err];
    [|apply appends_ret].
  apply appends_bind; [apply appends_call; reflexivity|].
  intros [tok|e]; [|apply appends_ret].
  apply appends_bind; [apply appends_call; reflexivity|]. intros r. apply appends_ret.
Qed.

Lemma sendNormalToGroup_plain w conv content options :
  appends isPlainCall (sendNormalToGroup w conv content options).
Proof.
  unfold sendNormalToGroup. destruct (buildMsgPayload _ _ _ _) as [[k prm]|err];
    [|apply appends_ret].
  apply appends_bind; [apply appends_call; reflexivity|].
  intros [tok|e]; [|apply appends_ret].
  apply appends_bind; [apply appends_call; reflexivity|]. intros r. apply appends_ret.
Qed.

End SendFacts.

(* ===================================================================== *)
(** * C3: the paths of [sendToUser]                                       *)
(* ===================================================================== *)

Module UserDelivery.
Import Env Send Calls SendFacts.

(** C3: let [ids] be the user ids as an array.
    - The rich path is taken exactly when [useAICard] is not [false] and
      [ids] has exactly one element.  Otherwise (in particular with several
      ids) [sendToUser] is the batch plain send, and no rich-path call is
      made.
    - When it is taken, the rich attempt for that one user runs first (it
      begins by asking for the OAPI token and makes rich-path calls only);
      if its result is [ok], that result is returned and nothing else is
      called; if it is not [ok] and [fallbackToNormal] is [false], the
      failing result is returned and nothing else is called; if it is not
      [ok] and [fallbackToNormal] is not [false], the plain send follows. *)
Theorem sendToUser_paths (w : World) (userIds : UserIds) (content : string)
    (options : ProactiveSendOptions) (h : list Event) :
  let ids := userIdArray userIds in
  let rich := (orTrue (useAICard options) && (length ids =? 1)%nat)%bool in
  (rich = false ->
     sendToUser w userIds content options h = sendNormalToUser w ids content options h /\
     exists calls, snd (sendToUser w userIds content options h) = h ++ calls /\
                   forallb isPlainCall calls = true) /\
  (rich = true ->
     exists u, ids = [u] /\
       let attempt := sendAICardInternal w (TargetUser u) content h in
       (exists calls, snd attempt = h ++ EvGetOapiAccessToken :: calls /\
                      forallb isRichCall calls = true) /\
       (ok (fst attempt) = true ->
          sendToUser w userIds content options h = attempt) /\
       (ok (fst attempt) = false -> fallbackToNormal options = Some false ->
          sendToUser w userIds content options h = attempt) /\
       (ok (fst attempt) = false -> fallbackToNormal options <> Some false ->
          sendToUser w userIds content options h
            = sendNormalToUser w ids content options (snd attempt))).
Proof.
  cbn zeta. unfold sendToUser. cbn zeta. split.
  - intros ->. split; [reflexivity|]. apply sendNormalToUser_plain.
  - intros Hrich. rewrite Hrich.
    apply andb_true_iff in Hrich as [_ Hlen]. apply Nat.eqb_eq in Hlen.
    destruct (userIdArray userIds) as [|u [|u' rest]]; try discriminate.
    exists u. split; [reflexivity|]. cbn [nth]. cbn zeta.
    split; [apply sendAICardInternal_calls|].
    unfold bind. destruct (sendAICardInternal w (TargetUser u) content h) as [r h1].
    cbn [fst snd]. split; [|split].
    + intros ->. reflexivity.
    + intros -> ->. reflexivity.
    + intros -> Hfb. destruct (fallbackToNormal options) as [[|]|]; try reflexivity.
      contradiction.
Qed.

(** The paths in concrete environments: one user with a working card API;
    one user with a failing card API, with and without [fallbackToNormal:
    false]; two users. *)
Lemma sendToUser_paths_witness :
  sendToUser Examples.cardWorld (OneUser "user-1") "Hello" noOptions []
    = (mkSendResult true None (Some "card_1") None (Some true),
       [EvGetOapiAccessToken; EvCreateAICard (TargetUser "user-1");
        EvFinishAICard Examples.sampleCard "Hello"]) /\
  sendToUser Examples.noCardWorld (OneUser "user-1") "Hello"
      (mkOptions None None None (Some false)) []
    = (failure "Failed to create AI Card",
       [EvGetOapiAccessToken; EvCreateAICard (TargetUser "user-1")]) /\
  sendToUser Examples.noCardWorld (OneUser "user-1") "Hello" noOptions []
    = (mkSendResult true (Some "query-key") None None (Some false),
       [EvGetOapiAccessToken; EvCreateAICard (TargetUser "user-1");
        EvGetAccessToken; EvBatchSend ["user-1"] "sampleText" (ParamText "Hello")]) /\
  sendToUser Examples.cardWorld (ManyUsers ["user-1"; "user-2"]) "Hello" noOptions []
    = (mkSendResult true (Some "query-key") None None (Some false),
       [EvGetAccessToken;
        EvBatchSend ["user-1"; "user-2"] "sampleText" (ParamText "Hello")]).
Proof.
  split; [|split; [|split]].
  - destruct (sendToUser_paths Examples.cardWorld (OneUser "user-1") "Hello" noOptions [])
      as [_ Hrich].
    destruct (Hrich eq_refl) as (u & Hu & _ & Hok & _). injection Hu as <-.
    rewrite Hok; reflexivity.
  - destruct (sendToUser_paths Examples.noCardWorld (OneUser "user-1") "Hello"
                (mkOptions None None None (Some false)) []) as [_ Hrich].
    destruct (Hrich eq_refl) as (u & Hu & _ & _ & Hfail & _). injection Hu as <-.
    rewrite Hfail; reflexivity.
  - destruct (sendToUser_paths Examples.noCardWorld (OneUser "user-1") "Hello"
                noOptions []) as [_ Hrich].
    destruct (Hrich eq_refl) as (u & Hu & _ & _ & _ & Hfall). injection Hu as <-.
    rewrite Hfall; [reflexivity|reflexivity|discriminate].
  - destruct (sendToUser_paths Examples.cardWorld (ManyUsers ["user-1"; "user-2"])
                "Hello" noOptions []) as [Hplain _].
    destruct (Hplain eq_refl) as [Heq _]. rewrite Heq. reflexivity.
Defined.

End UserDelivery.

(* ===================================================================== *)
(** * Blank content                                                       *)
(* ===================================================================== *)

Module BlankFacts.
Import Env JS.

Lemma ws1_wsByte a : ws1 a = true -> wsByte a = true.
Proof.
  unfold ws1, wsByte. cbn zeta. intros H.
  apply orb_true_iff in H. rewrite !orb_true_iff. tauto.
Qed.

Lemma ws2_wsByte a b : ws2 a b = true -> wsByte a = true /\ wsByte b = true.
Proof.
  unfold ws2, wsByte. cbn zeta. intros H.
  apply andb_true_iff in H as [Ha Hb]. apply Nat.eqb_eq in Ha, Hb.
  rewrite Ha, Hb. split; reflexivity.
Qed.

Lemma ws3_wsByte a b c :
  ws3 a b c = true -> wsByte a = true /\ wsByte b = true /\ wsByte c = true.
Proof.
  unfold ws3, wsByte. cbn zeta. cbn [existsb].
  generalize (code a) (code b) (code c). intros x y z.
  rewrite !orb_true_iff, !andb_true_iff, !orb_true_iff, !andb_true_iff,
    !Nat.eqb_eq, !Nat.leb_le.
  intros H. repeat split; lia.
Qed.

(** A blank string is made of white-space bytes. *)
Lemma allWs_bytes s : allWs s = true -> forallb wsByte (bytes s) = true.
Proof.
  induction s as [|a r IH1 IH2 IH3] using JSFacts.string_ind3; [reflexivity|].
  cbn [allWs]. destruct (ws1 a) eqn:E1.
  - intros H. cbn. rewrite (ws1_wsByte _ E1). apply IH1, H.
  - destruct r as [|b r2]; [discriminate|].
    destruct (ws2 a b) eqn:E2.
    + intros H. destruct (ws2_wsByte _ _ E2) as [Ha Hb].
      cbn. rewrite Ha, Hb. apply (IH2 _ _ eq_refl), H.
    + destruct r2 as [|c r3]; [discriminate|].
      destruct (ws3 a b c) eqn:E3; [|discriminate].
      intros H. destruct (ws3_wsByte _ _ _ E3) as (Ha & Hb & Hc).
      cbn. rewrite Ha, Hb, Hc. apply (IH3 _ _ _ eq_refl), H.
Qed.

Lemma startsWith_bytes (P : ascii -> bool) p : forall s,
  startsWith p s = true -> forallb P (bytes s) = true -> forallb P (bytes p) = true.
Proof.
  induction p as [|a p IH]; intros s; [reflexivity|].
  destruct s as [|b s]; [discriminate|]. cbn.
  intros H1 H2. apply andb_true_iff in H1 as [Hab Hp], H2 as [Hb Hs].
  apply Ascii.eqb_eq in Hab. subst b. rewrite Hb. exact (IH s Hp Hs).
Qed.

(** What occurs in a string is made of the bytes of that string. *)
Lemma includes_bytes (P : ascii -> bool) p s :
  includes p s = true -> forallb P (bytes s) = true -> forallb P (bytes p) = true.
Proof.
  induction s as [|b s IH]; cbn [includes].
  - rewrite orb_false_r. apply startsWith_bytes.
  - intros H Hs. apply orb_true_iff in H as [H|H].
    + exact (startsWith_bytes P p _ H Hs).
    + cbn in Hs. apply andb_true_iff in Hs as [_ Hs]. exact (IH H Hs).
Qed.

(** With a sound engine, neither image pattern matches in blank text. *)
Lemma no_image_in_blank w s :
  Media.regexSound w -> allWs s = true ->
  matchAllLocalImage w s = [] /\ matchAllBareImage w s = [].
Proof.
  intros [Hlocal Hbare] Hs. apply allWs_bytes in Hs. split.
  - destruct (matchAllLocalImage w s) as [|m ms] eqn:E; [reflexivity|exfalso].
    destruct (Hlocal s m) as [Hhead Hin]; [rewrite E; left; reflexivity|].
    pose proof (includes_bytes wsByte _ _ Hin Hs) as Hm.
    pose proof (startsWith_bytes wsByte _ _ Hhead Hm) as Hbang.
    discriminate Hbang.
  - destruct (matchAllBareImage w s) as [|m ms] eqn:E; [reflexivity|exfalso].
    destruct (Hbare s m) as [Hdot Hin]; [rewrite E; left; reflexivity|].
    pose proof (includes_bytes wsByte _ _ Hin Hs) as Hm.
    pose proof (includes_bytes wsByte _ _ Hdot Hm) as Hd.
    discriminate Hd.
Qed.

(** No marker begins in text that has no opening bracket. *)
Lemma removeMarkers_blank op close s :
  forallb wsByte (bytes s) = true ->
  Media.removeMarkers (String "[" op) close 0 s = s.
Proof.
  induction s as [|a s IH]; [reflexivity|].
  cbn [bytes forallb]. intros H. apply andb_true_iff in H as [Ha Hs].
  cbn [Media.removeMarkers]. unfold Media.matchAt. cbn [startsWith].
  destruct (Ascii.eqb_spec "[" a) as [<-|_]; [discriminate Ha|].
  cbn [andb]. rewrite (IH Hs). reflexivity.
Qed.

(** The marker processors turn blank text into the empty string. *)
Lemma markers_blank s :
  allWs s = true ->
  Media.processFileMarkers
    (Media.processAudioMarkers (Media.processVideoMarkers s)) = EmptyString.
Proof.
  intros Hs. unfold Media.processVideoMarkers.
  rewrite (removeMarkers_blank _ _ s) by (apply allWs_bytes, Hs).
  rewrite (JSFacts.trim_blank s Hs). reflexivity.
Qed.

(** Media post-processing of blank content makes no call and leaves the
    content blank. *)
Lemma processMedia_blank w content token h :
  Media.regexSound w -> allWs content = true ->
  exists processed,
    Send.processMedia w content token h = (processed, h) /\ allWs processed = true.
Proof.
  intros Hre Hs. unfold Send.processMedia.
  destruct (truthyOpt token) eqn:Ht; [|exists content; split; [reflexivity|exact Hs]].
  exists EmptyString. split; [|reflexivity].
  unfold Media.processLocalImages. rewrite Ht. cbn [negb].
  destruct (no_image_in_blank w content Hre Hs) as [-> Hbare].
  unfold bind. cbn [forEach ret]. rewrite Hbare. cbn [List.filter rev forEach ret].
  rewrite (markers_blank content Hs). reflexivity.
Qed.

End BlankFacts.

(* ===================================================================== *)
(** * C10: blank content on the rich-card path                            *)
(* ===================================================================== *)

Module BlankContent.
Import Env Send Calls SendFacts BlankFacts.

(** Blank processed content ends the rich path at once. *)
Lemma sendAICardInternal_blank_processed w target content h :
  let h1 := h ++ [EvGetOapiAccessToken] in
  let media := processMedia w content (getOapiAccessToken w h1) h1 in
  JS.allWs (fst media) = true ->
  sendAICardInternal w target content h = (nothingSent, snd media).
Proof.
  cbn zeta. intros Hblank. unfold sendAICardInternal, bind, call.
  destruct (processMedia w content _ _) as [processed h2]. cbn [fst snd] in *.
  rewrite JSFacts.isBlank_allWs, Hblank. reflexivity.
Qed.

(** C10: on the rich-card path, when the content left by media
    post-processing is empty or white space only, [sendAICardInternal]
    returns [{ok: true, usedAICard: false}]; the only calls made are the
    request for the OAPI token and the media uploads of the post-processing:
    no card is created or finalized and nothing is sent.  Blank content stays
    blank through the post-processing (assuming a sound regular expression
    engine), so for blank content the token request is the only call, and
    [sendToUser] with a single recipient and [sendToGroup], unless
    [useAICard] is [false], report success while delivering nothing. *)
Theorem blank_content_reports_success (w : World) (content : string) :
  (forall target h,
     let h1 := h ++ [EvGetOapiAccessToken] in
     let media := processMedia w content (getOapiAccessToken w h1) h1 in
     JS.allWs (fst media) = true ->
     sendAICardInternal w target content h = (nothingSent, snd media) /\
     exists uploads, snd media = h1 ++ uploads /\ forallb isUpload uploads = true) /\
  (Media.regexSound w -> JS.allWs content = true ->
     (forall target h,
        sendAICardInternal w target content h = (nothingSent, h ++ [EvGetOapiAccessToken])) /\
     (forall userIds u options h,
        userIdArray userIds = [u] -> useAICard options <> Some false ->
        sendToUser w userIds content options h
          = (nothingSent, h ++ [EvGetOapiAccessToken])) /\
     (forall conv options h,
        useAICard options <> Some false ->
        sendToGroup w conv content options h
          = (nothingSent, h ++ [EvGetOapiAccessToken]))).
Proof.
  split.
  - intros target h. cbn zeta. intros Hblank.
    split; [apply (sendAICardInternal_blank_processed w target content h Hblank)|].
    apply processMedia_uploads.
  - intros Hre Hblank.
    assert (Hrich : forall target h,
              sendAICardInternal w target content h
                = (nothingSent, h ++ [EvGetOapiAccessToken])).
    { intros target h.
      destruct (processMedia_blank w content
                  (getOapiAccessToken w (h ++ [EvGetOapiAccessToken]))
                  (h ++ [EvGetOapiAccessToken]) Hre Hblank) as (processed & E & Hp).
      rewrite (sendAICardInternal_blank_processed w target content h); rewrite E;
        [reflexivity|exact Hp]. }
    split; [exact Hrich|]. split.
    + intros userIds u options h Hids Huse. unfold sendToUser. cbn zeta.
      rewrite Hids. cbn [length Nat.eqb nth].
      assert (Ht : orTrue (useAICard options) = true).
      { destruct (useAICard options) as [[|]|]; try reflexivity. contradiction. }
      rewrite Ht. cbn [andb]. unfold bind. rewrite Hrich. reflexivity.
    + intros conv options h Huse. unfold sendToGroup. cbn zeta.
      assert (Ht : orTrue (useAICard options) = true).
      { destruct (useAICard options) as [[|]|]; try reflexivity. contradiction. }
      rewrite Ht. unfold bind. rewrite Hrich. reflexivity.
Qed.

(** Blank content, and content that is blank once its marker is removed, in
    an environment where media post-processing runs and the card API works:
    success is reported and only the OAPI token is requested. *)
Lemma blank_content_reports_success_witness :
  sendAICardInternal Examples.tokenWorld (TargetUser "user-1")
      " [DINGTALK_AUDIO]{x}[/DINGTALK_AUDIO] " []
    = (nothingSent, [EvGetOapiAccessToken]) /\
  sendToUser Examples.tokenWorld (OneUser "user-1") "   " noOptions []
    = (nothingSent, [EvGetOapiAccessToken]) /\
  sendToGroup Examples.tokenWorld "conv-1" "" noOptions []
    = (nothingSent, [EvGetOapiAccessToken]).
Proof.
  assert (Hre : Media.regexSound Examples.tokenWorld).
  { split; intros s m []. }
  split; [|split].
  - destruct (blank_content_reports_success Examples.tokenWorld
                " [DINGTALK_AUDIO]{x}[/DINGTALK_AUDIO] ") as [Hprocessed _].
    destruct (Hprocessed (TargetUser "user-1") []) as [Heq _]; [reflexivity|].
    rewrite Heq. reflexivity.
  - destruct (blank_content_reports_success Examples.tokenWorld "   ")
      as [_ Hblank].
    destruct (Hblank Hre eq_refl) as (_ & Huser & _).
    apply (Huser (OneUser "user-1") "user-1"); [reflexivity|discriminate].
  - destruct (blank_content_reports_success Examples.tokenWorld "")
      as [_ Hblank].
    destruct (Hblank Hre eq_refl) as (_ & _ & Hgroup).
    apply Hgroup. discriminate.
Defined.

End BlankContent.

(* ===================================================================== *)
(** * C8: the target of a proactive send                                  *)
(* ===================================================================== *)

Module ProactiveTargeting.
Import Env Send.

(** C8: [sendProactive(config, target, content, options)], with [options']
    the options after the formatting mode was detected.
    - With no user id, no user id list and no group conversation id, the
      result is [{ok: false, error: "Must specify userId, userIds, or
      openConversationId", usedAICard: false}] and no call is made.
    - With a user id list, it is [sendToUser] on that list; with a user id
      and no list, it is [sendToUser] on the array of that id.
    - With neither, and a group conversation id, it is [sendToGroup] on that
      conversation. *)
Theorem sendProactive_target (w : World) (target : ProactiveTarget) (content : string)
    (options : ProactiveSendOptions) (h : list Event) :
  let options' := detectMsgType content options in
  (JS.truthyOpt (userId target) = false -> userIds target = None ->
   JS.truthyOpt (openConversationId target) = false ->
     sendProactive w target content options h
       = (mkSendResult false None None
            (Some "Must specify userId, userIds, or openConversationId") (Some false),
          h)) /\
  (forall ids, userIds target = Some ids ->
     sendProactive w target content options h
       = sendToUser w (ManyUsers ids) content options' h) /\
  (forall u, userId target = Some u -> JS.truthy u = true -> userIds target = None ->
     sendProactive w target content options h
       = sendToUser w (ManyUsers [u]) content options' h) /\
  (forall conv, JS.truthyOpt (userId target) = false -> userIds target = None ->
     openConversationId target = Some conv -> JS.truthy conv = true ->
     sendProactive w target content options h
       = sendToGroup w conv content options' h).
Proof.
  cbn zeta. unfold sendProactive. cbn zeta.
  split; [|split; [|split]].
  - intros -> -> ->. reflexivity.
  - intros ids ->. rewrite bool_decide_eq_true_2 by eauto.
    rewrite orb_true_r. reflexivity.
  - intros u -> Hu ->. cbn [JS.truthyOpt]. rewrite Hu. reflexivity.
  - intros conv -> -> -> Hc. cbn [JS.truthyOpt]. rewrite Hc.
    rewrite bool_decide_eq_false_2 by (intros [? ?]; discriminate).
    reflexivity.
Qed.

(** The empty selector, a user id, and a group conversation id. *)
Lemma sendProactive_target_witness :
  sendProactive Examples.cardWorld (mkTarget None None None) "No target" noOptions []
    = (mkSendResult false None None
         (Some "Must specify userId, userIds, or openConversationId") (Some false), []) /\
  JS.includes "Must specify" "Must specify userId, userIds, or openConversationId" = true /\
  sendProactive Examples.cardWorld (mkTarget (Some "user-1") None None)
      "Proactive message" noOptions []
    = sendToUser Examples.cardWorld (ManyUsers ["user-1"]) "Proactive message" noOptions [] /\
  sendProactive Examples.cardWorld (mkTarget None None (Some "conv-123"))
      "Group notification" noOptions []
    = sendToGroup Examples.cardWorld "conv-123" "Group notification" noOptions [].
Proof.
  split; [|split; [reflexivity|split]].
  - apply (sendProactive_target Examples.cardWorld (mkTarget None None None)
             "No target" noOptions []); reflexivity.
  - destruct (sendProactive_target Examples.cardWorld (mkTarget (Some "user-1") None None)
                "Proactive message" noOptions []) as (_ & _ & Huser & _).
    exact (Huser "user-1" eq_refl eq_refl eq_refl).
  - destruct (sendProactive_target Examples.cardWorld (mkTarget None None (Some "conv-123"))
                "Group notification" noOptions []) as (_ & _ & _ & Hgroup).
    exact (Hgroup "conv-123" eq_refl eq_refl eq_refl eq_refl).
Defined.

End ProactiveTargeting.

(* ===================================================================== *)
(** * C9: a reset command only rotates the session                        *)
(* ===================================================================== *)

Module ResetCommand.
Import Env Session Bot.

Lemma command_recognised cmd :
  In cmd NEW_SESSION_COMMANDS -> JS.truthy cmd = true /\ isNewSessionCommand cmd = true.
Proof.
  intros H. repeat (destruct H as [<-|H]; [split; vm_compute; reflexivity|]).
  destruct H.
Qed.

(** C9: when the text extracted from the inbound message is one of the
    configured reset commands, [handleDingTalkMessage] calls
    [getSessionKey(senderId, true, sessionTimeout)], which stores the rotated
    session of the sender, and returns: the history of calls is unchanged, so
    no route is resolved, no envelope is built and no reply is dispatched. *)
Theorem reset_command_only_rotates (w : World) (now : Z) (sessionTimeout : option Z)
    (limit : nat) (mode : ChunkMode) (data : InboundData)
    (us : gmap string UserSession) (h : list Event) :
  In (extractMessageText data) NEW_SESSION_COMMANDS ->
  let sender :=
    default (senderId data) (JS.orElse (senderStaffId data) (Some (senderId data))) in
  handleDingTalkMessage w now sessionTimeout limit mode data us h
    = (snd (getSessionKey now sender true (default 1800000 sessionTimeout) us), h) /\
  snd (getSessionKey now sender true (default 1800000 sessionTimeout) us)
    = <[sender := mkUserSession now (rotatedSessionId sender now)]> us.
Proof.
  intros Hcmd. cbn zeta. apply command_recognised in Hcmd as [Ht Hc].
  split; [|reflexivity].
  unfold handleDingTalkMessage. cbn zeta. rewrite Ht, Hc. reflexivity.
Qed.

(** A direct message [/new] from staff member [staff-1] at time 5000. *)
Lemma reset_command_only_rotates_witness :
  let data := mkData (Some "text") (Some "/new") [] None None (Some "1")
                (Some "staff-1") "sender-1" (Some "Ann") "conv-1" in
  handleDingTalkMessage Examples.cardWorld 5000 None 4000 ChunkLength data ∅ []
    = ({[ "staff-1" := mkUserSession 5000 "dingtalk-connector:staff-1:5000" ]}, []).
Proof.
  intros data.
  destruct (reset_command_only_rotates Examples.cardWorld 5000 None 4000 ChunkLength
              data ∅ []) as [Hrun Hstore].
  - left. reflexivity.
  - rewrite Hrun, Hstore. reflexivity.
Defined.

End ResetCommand.

(* ===================================================================== *)
(** * Trimming                                                            *)
(* ===================================================================== *)

Module TrimFacts.
Import JS JSMore.

Lemma allWs_app x : forall y, allWs x = true -> allWs y = true -> allWs (x +:+ y) = true.
Proof.
  induction x as [|a r IH1 IH2 IH3] using JSFacts.string_ind3; intros y; [intros _ H; exact H|].
  change (String a r +:+ y) with (String a (r +:+ y)). cbn [allWs].
  destruct (ws1 a); [apply IH1|].
  destruct r as [|b r2]; [discriminate|].
  change (String b r2 +:+ y) with (String b (r2 +:+ y)). cbn iota.
  destruct (ws2 a b); [apply (IH2 _ _ eq_refl)|].
  destruct r2 as [|c r3]; [discriminate|].
  change (String c r3 +:+ y) with (String c (r3 +:+ y)). cbn iota.
  destruct (ws3 a b c); [apply (IH3 _ _ _ eq_refl)|discriminate].
Qed.

(** [trimEnd] cuts off a white-space suffix. *)
Lemma trimEnd_split s : exists q, s = trimEnd s +:+ q /\ allWs q = true.
Proof.
  induction s as [|a r IH]; [exists EmptyString; split; reflexivity|].
  cbn [trimEnd]. destruct (allWs (String a r)) eqn:E.
  - exists (String a r). split; [reflexivity|exact E].
  - destruct IH as (q & Hq & Wq). exists q. split; [|exact Wq].
    change (String a r = String a (trimEnd r +:+ q)). f_equal. exact Hq.
Qed.

Lemma trimEnd_not_blank a r : allWs (String a r) = false -> allWs (String a (trimEnd r)) = false.
Proof.
  intros E. destruct (allWs (String a (trimEnd r))) eqn:E'; [|reflexivity].
  destruct (trimEnd_split r) as (q & Hq & Wq).
  pose proof (allWs_app _ q E' Wq) as H.
  change (String a (trimEnd r) +:+ q) with (String a (trimEnd r +:+ q)) in H.
  rewrite <- Hq in H. congruence.
Qed.

Lemma trimEnd_idem s : trimEnd (trimEnd s) = trimEnd s.
Proof.
  induction s as [|a r IH]; [reflexivity|].
  cbn [trimEnd]. destruct (allWs (String a r)) eqn:E; [reflexivity|].
  cbn [trimEnd]. rewrite (trimEnd_not_blank a r E), IH. reflexivity.
Qed.

Lemma trimEnd_prefix s : startsWith (trimEnd s) s = true.
Proof.
  induction s as [|a r IH]; [reflexivity|].
  cbn [trimEnd]. destruct (allWs (String a r)); [reflexivity|].
  cbn [startsWith]. rewrite Ascii.eqb_refl, IH. reflexivity.
Qed.

Lemma startsWs_trimStart s : startsWs (trimStart s) = false.
Proof.
  induction s as [|a r IH1 IH2 IH3] using JSFacts.string_ind3; [reflexivity|].
  cbn [trimStart].
  destruct (ws1 a) eqn:E1; [exact IH1|].
  destruct r as [|b r2]; [cbn [startsWs]; rewrite E1; reflexivity|].
  destruct (ws2 a b) eqn:E2; [exact (IH2 _ _ eq_refl)|].
  destruct r2 as [|c r3]; [cbn [startsWs]; rewrite E1, E2; reflexivity|].
  destruct (ws3 a b c) eqn:E3; [exact (IH3 _ _ _ eq_refl)|].
  cbn [startsWs]. rewrite E1, E2, E3. reflexivity.
Qed.

Lemma trimStart_fixed s : startsWs s = false -> trimStart s = s.
Proof.
  destruct s as [|a [|b [|c r]]]; cbn [startsWs trimStart]; try reflexivity;
    destruct (ws1 a); cbn [orb]; try discriminate; try reflexivity;
    destruct (ws2 a b); cbn [orb]; try discriminate; try reflexivity;
    destruct (ws3 a b c); try discriminate; reflexivity.
Qed.

Lemma trimStart_idem s : trimStart (trimStart s) = trimStart s.
Proof. apply trimStart_fixed, startsWs_trimStart. Qed.

(** A string that starts with white space keeps doing so when extended. *)
Lemma startsWs_mono u t : startsWith u t = true -> startsWs u = true -> startsWs t = true.
Proof.
  destruct u as [|a [|b [|c u]]]; cbn [startsWs]; try discriminate.
  - destruct t as [|a' t]; cbn [startsWith startsWs]; [discriminate|].
    destruct (Ascii.eqb_spec a a'); [subst a'|discriminate].
    intros _. rewrite !orb_false_r. intros ->. reflexivity.
  - destruct t as [|a' [|b' t]]; cbn [startsWith startsWs]; try discriminate.
    { destruct (a =? a')%char; discriminate. }
    destruct (Ascii.eqb_spec a a'); [subst a'|discriminate].
    destruct (Ascii.eqb_spec b b'); [subst b'|discriminate].
    intros _. rewrite !orb_false_r.
    destruct (ws1 a); [reflexivity|]. cbn [orb]. intros ->. reflexivity.
  - destruct t as [|a' [|b' [|c' t]]]; cbn [startsWith startsWs]; try discriminate.
    { destruct (a =? a')%char; discriminate. }
    { destruct (a =? a')%char; [|discriminate]. destruct (b =? b')%char; discriminate. }
    destruct (Ascii.eqb_spec a a'); [subst a'|discriminate].
    destruct (Ascii.eqb_spec b b'); [subst b'|discriminate].
    destruct (Ascii.eqb_spec c c'); [subst c'|discriminate].
    intros _. exact (fun H => H).
Qed.

Lemma trimStart_trimEnd_fixed t : startsWs t = false -> trimStart (trimEnd t) = trimEnd t.
Proof.
  intros H. apply trimStart_fixed.
  destruct (startsWs (trimEnd t)) eqn:E; [|reflexivity].
  rewrite (startsWs_mono _ _ (trimEnd_prefix t) E) in H. discriminate.
Qed.

(** [trim] is idempotent. *)
Lemma trim_idem s : trim (trim s) = trim s.
Proof.
  unfold trim.
  rewrite (trimStart_trimEnd_fixed _ (startsWs_trimStart s)).
  apply trimEnd_idem.
Qed.

End TrimFacts.

(* ===================================================================== *)
(** * Further properties of the session store                             *)
(* ===================================================================== *)

Module SessionStore.
Import Session SessionFacts.

(** X1: whatever the arguments, after [getSessionKey] the store holds for
    the sender exactly the returned key with [lastActivity = now]; the
    sessions of all other senders are untouched, and no session is ever
    removed: the senders known afterwards are the earlier ones and [s]. *)
Theorem getSessionKey_frame (now : Z) (s : string) (forceNew : bool) (timeout : Z)
    (us : gmap string UserSession) :
  let r := getSessionKey now s forceNew timeout us in
  snd r !! s = Some (mkUserSession now (sessionKey (fst r))) /\
  (forall s', s' <> s -> snd r !! s' = us !! s') /\
  dom (snd r) = {[s]} ∪ dom us.
Proof.
  cbn zeta. split; [apply getSessionKey_stored|].
  split; [intros s' Hne; apply getSessionKey_other; congruence|].
  unfold getSessionKey. destruct forceNew; cbn [snd]; [apply dom_insert_L|].
  destruct (us !! s) as [e|]; [destruct (_ >? _)|]; cbn [snd]; apply dom_insert_L.
Qed.

(** Every result with [isNew = true] carries the rotated key of its call. *)
Lemma runCalls_rotated calls : forall us c r,
  In (c, r) (fst (runCalls calls us)) -> isNew r = true ->
  sessionKey r = rotatedSessionId (callSender c) (callAt c).
Proof.
  induction calls as [|c0 calls IH]; intros us c r; [intros []|].
  cbn [runCalls fst]. intros [[= <- <-]|Hin] Hnew; [|eapply IH; eassumption].
  revert Hnew. unfold perform, getSessionKey.
  destruct (callForceNew c0); cbn; [reflexivity|].
  destruct (us !! callSender c0) as [e|]; [destruct (_ >? _)|]; cbn;
    intros H; try discriminate; reflexivity.
Qed.

(** X2: in any sequence of [getSessionKey] calls from any store, two calls
    for the same sender that both report [isNew = true] return the same key
    exactly when they read the same clock value. *)
Theorem rotated_keys_collide_iff (calls : list Call) (us : gmap string UserSession)
    (c1 c2 : Call) (r1 r2 : SessionKeyResult) :
  In (c1, r1) (fst (runCalls calls us)) ->
  In (c2, r2) (fst (runCalls calls us)) ->
  callSender c1 = callSender c2 ->
  isNew r1 = true -> isNew r2 = true ->
  (sessionKey r1 = sessionKey r2 <-> callAt c1 = callAt c2).
Proof.
  intros H1 H2 Hs N1 N2.
  rewrite (runCalls_rotated _ _ _ _ H1 N1), (runCalls_rotated _ _ _ _ H2 N2), Hs.
  split; [apply rotated_inj|intros ->; reflexivity].
Qed.

(** Two timeouts of the same sender, at 3000 and at 9000. *)
Lemma rotated_keys_collide_iff_witness :
  let calls := [mkCall 1000 "u" false 500; mkCall 3000 "u" false 500;
                mkCall 9000 "u" false 500] in
  "dingtalk-connector:u:3000" = "dingtalk-connector:u:9000" <-> 3000 = 9000.
Proof.
  intros calls.
  apply (rotated_keys_collide_iff calls ∅
           (mkCall 3000 "u" false 500) (mkCall 9000 "u" false 500)
           (mkSessionKeyResult "dingtalk-connector:u:3000" true)
           (mkSessionKeyResult "dingtalk-connector:u:9000" true)).
  - right; left. reflexivity.
  - right; right; left. reflexivity.
  - reflexivity.
  - reflexivity.
  - reflexivity.
Defined.

End SessionStore.

Module SenderSeparation.
Import Session SessionFacts SenderIds.

Lemma id_determined s1 : forall s2 t1 t2,
  s1 +:+ t1 = s2 +:+ t2 ->
  noColon s1 = true -> noColon s2 = true -> keyTail t1 -> keyTail t2 -> s1 = s2.
Proof.
  assert (Hhead : forall b s t, noColon (String b s) = true -> keyTail t ->
                    t <> String b s +:+ t /\ forall t', t <> String b (s +:+ t')).
  { intros b s t Hb Ht. unfold noColon in Hb. cbn in Hb.
    destruct (Ascii.eqb_spec ":" b) as [<-|Hne]; [discriminate|].
    assert (Hgen : forall t', t <> String b t').
    { intros t' E. destruct Ht as [->|(r & ->)]; [discriminate|].
      injection E as E _. contradiction. }
    split; [apply Hgen|intros t'; apply Hgen]. }
  induction s1 as [|a s1 IH]; intros [|b s2] t1 t2 E H1 H2 T1 T2.
  - reflexivity.
  - exfalso. change (t1 = String b (s2 +:+ t2)) in E.
    exact (proj2 (Hhead b s2 t1 H2 T1) t2 E).
  - exfalso. change (String a (s1 +:+ t1) = t2) in E.
    exact (proj2 (Hhead a s1 t2 H1 T2) t1 (eq_sym E)).
  - change (String a (s1 +:+ t1) = String b (s2 +:+ t2)) in E.
    injection E as -> E. f_equal. apply (IH s2 t1 t2 E); try assumption.
    + unfold noColon in *. cbn in H1. apply negb_true_iff in H1.
      apply orb_false_iff in H1 as [_ H1]. rewrite H1. reflexivity.
    + unfold noColon in *. cbn in H2. apply negb_true_iff in H2.
      apply orb_false_iff in H2 as [_ H2]. rewrite H2. reflexivity.
Qed.

Lemma keyShape_tail s k :
  keyShape (fun _ => True) s k ->
  exists t, keyTail t /\ k = "dingtalk-connector:" +:+ s +:+ t.
Proof.
  intros [->|(t & _ & ->)].
  - exists EmptyString. split; [left; reflexivity|].
    unfold initialSessionId. rewrite JSFacts.append_empty_r. reflexivity.
  - exists (":" +:+ JS.numberToString t). split; [right; eexists; reflexivity|].
    reflexivity.
Qed.

(** X3: session keys keep senders apart.  In any sequence of
    [getSessionKey] calls from the empty store, keys returned for two
    different senders are different, provided neither sender id contains a
    colon. *)
Theorem keys_of_distinct_senders_differ (calls : list Call) (c1 c2 : Call)
    (r1 r2 : SessionKeyResult) :
  In (c1, r1) (fst (runCalls calls ∅)) ->
  In (c2, r2) (fst (runCalls calls ∅)) ->
  noColon (callSender c1) = true -> noColon (callSender c2) = true ->
  callSender c1 <> callSender c2 ->
  sessionKey r1 <> sessionKey r2.
Proof.
  intros H1 H2 N1 N2 Hne Heq.
  assert (Hshape : forall c r, In (c, r) (fst (runCalls calls ∅)) ->
            keyShape (fun _ => True) (callSender c) (sessionKey r)).
  { intros c r Hin.
    destruct (runCalls_shape (fun _ => True) (callSender c) calls ∅) as [Hlog _].
    - intros e He. rewrite lookup_empty in He. discriminate.
    - intros; exact I.
    - apply (Hlog c r Hin). reflexivity. }
  destruct (keyShape_tail _ _ (Hshape _ _ H1)) as (t1 & T1 & K1).
  destruct (keyShape_tail _ _ (Hshape _ _ H2)) as (t2 & T2 & K2).
  rewrite K1, K2 in Heq. apply JSFacts.append_cancel_l in Heq.
  apply Hne. exact (id_determined _ _ _ _ Heq N1 N2 T1 T2).
Qed.

(** Two senders; and why the colon matters: the first-contact key of the
    sender [a:5] is the key of sender [a] rotated at time 5. *)
Lemma keys_of_distinct_senders_differ_witness :
  "dingtalk-connector:alice" <> "dingtalk-connector:bob:2000" /\
  initialSessionId "a:5" = rotatedSessionId "a" 5.
Proof.
  split; [|reflexivity].
  apply (keys_of_distinct_senders_differ
           [mkCall 1000 "alice" false 500; mkCall 2000 "bob" true 500]
           (mkCall 1000 "alice" false 500) (mkCall 2000 "bob" true 500)
           (mkSessionKeyResult "dingtalk-connector:alice" false)
           (mkSessionKeyResult "dingtalk-connector:bob:2000" true)).
  - left. reflexivity.
  - right; left. reflexivity.
  - reflexivity.
  - reflexivity.
  - discriminate.
Defined.

End SenderSeparation.

(* ===================================================================== *)
(** * Further properties of the de-duplication cache                      *)
(* ===================================================================== *)

Module DedupStore.
Import Session.

Lemma insert_size_le (m : string) (now : Z) (pm : gmap string Z) :
  (size (<[m := now]> pm) <= S (size pm))%nat.
Proof. rewrite map_size_insert. destruct (pm !! m); cbn; lia. Qed.

Lemma cleanup_size_le now pm : (size (cleanupProcessedMessages now pm) <= size pm)%nat.
Proof. apply map_subseteq_size. apply map_filter_subseteq. Qed.

(** X4: for a non-empty id, [markMessageProcessed] adds at most one entry
    and never invents one; and afterwards the cache either has fewer than
    100 entries or holds only entries that were at most the TTL old when the
    sweep ran.  (There is no hard bound: a hundred or more fresh ids all
    stay.) *)
Theorem mark_keeps_cache_small_or_fresh (now now' : Z) (m : string)
    (pm : gmap string Z) :
  m <> EmptyString ->
  let r := markMessageProcessed now now' m pm in
  (size r <= S (size pm))%nat /\
  (forall k t, r !! k = Some t -> (k = m /\ t = now) \/ pm !! k = Some t) /\
  ((size r < 100)%nat \/
   forall k t, r !! k = Some t -> now' - t <= MESSAGE_DEDUP_TTL).
Proof.
  intros Hm. cbn zeta. unfold markMessageProcessed.
  apply JSFacts.truthy_true in Hm. rewrite Hm. cbn [negb]. cbn zeta.
  assert (Hins : forall k t, <[m := now]> pm !! k = Some t ->
                   (k = m /\ t = now) \/ pm !! k = Some t).
  { intros k t. destruct (decide (m = k)) as [<-|Hne].
    - rewrite lookup_insert_eq. intros [= <-]. left. split; reflexivity.
    - rewrite lookup_insert_ne by exact Hne. intros H. right. exact H. }
  destruct (Nat.leb_spec 100 (size (<[m := now]> pm))) as [Hge|Hlt].
  - split; [|split].
    + pose proof (cleanup_size_le now' (<[m := now]> pm)).
      pose proof (insert_size_le m now pm). lia.
    + intros k t H. apply Dedup.cleanup_lookup in H as [H _]. apply Hins, H.
    + right. intros k t H. apply Dedup.cleanup_lookup in H as [_ H]. lia.
  - split; [apply insert_size_le|]. split; [exact Hins|left; exact Hlt].
Qed.

(** The full store of ninety-nine old ids: marking one more sweeps it down
    to the fresh id alone. *)
Lemma mark_keeps_cache_small_or_fresh_witness :
  size (markMessageProcessed 300001 300001 "fresh" Examples.oldStore) = 1%nat /\
  (size (markMessageProcessed 300001 300001 "fresh" Examples.oldStore)
   <= S (size Examples.oldStore))%nat.
Proof.
  assert (Hfresh : "fresh" <> EmptyString) by discriminate.
  destruct (mark_keeps_cache_small_or_fresh 300001 300001 "fresh" Examples.oldStore
              Hfresh) as (Hsize & _ & _).
  split; [vm_compute; reflexivity|exact Hsize].
Defined.

(** X5: sweeps compose: sweeping at [t1] and then at [t2] leaves what one
    sweep at the later of the two times leaves; in particular a sweep
    repeated at the same time removes nothing more. *)
Theorem sweeps_compose (t1 t2 : Z) (pm : gmap string Z) :
  cleanupProcessedMessages t2 (cleanupProcessedMessages t1 pm)
    = cleanupProcessedMessages (Z.max t1 t2) pm /\
  cleanupProcessedMessages t1 (cleanupProcessedMessages t1 pm)
    = cleanupProcessedMessages t1 pm.
Proof.
  assert (Hgen : forall a b,
            cleanupProcessedMessages b (cleanupProcessedMessages a pm)
              = cleanupProcessedMessages (Z.max a b) pm).
  { intros a b. apply map_eq. intros k. apply option_eq. intros t.
    rewrite !Dedup.cleanup_lookup. split.
    - intros [[H Ha] Hb]. split; [exact H|lia].
    - intros [H Hmax]. split; [split; [exact H|lia]|lia]. }
  split; [apply Hgen|]. rewrite Hgen, Z.max_id. reflexivity.
Qed.

End DedupStore.

(* ===================================================================== *)
(** * The robot message callback                                          *)
(* ===================================================================== *)

Module GatewayCallback.
Import Env Session Gateway.

(** X8: a message id delivered a second time is dropped.  After the
    callback has run for a message with a non-empty id (its sweep reading the
    clock less than the TTL after its insertion), a further delivery with the
    same id is acknowledged and nothing else happens: no collaborator is
    called and both stores stay as they are, whatever the payload. *)
Theorem duplicate_message_dropped (w : World) (c1 c2 : Clock) (timeout : option Z)
    (limit : nat) (mode : ChunkMode) (id : string)
    (d1 d2 : option Bot.InboundData) (st : Stores) (h : list Event) :
  id <> EmptyString ->
  sweepNow c1 - markNow c1 <= MESSAGE_DEDUP_TTL ->
  let first := onRobotMessage w c1 timeout limit mode (Some id) d1 st h in
  onRobotMessage w c2 timeout limit mode (Some id) d2 (snd (fst first)) (snd first)
    = ((true, snd (fst first)), snd first).
Proof.
  intros Hid Hclock. cbn zeta.
  pose proof Hid as Ht. apply JSFacts.truthy_true in Ht.
  assert (Hmarked : isMessageProcessed id
            (processedMessages (snd (fst (onRobotMessage w c1 timeout limit mode
                                            (Some id) d1 st h)))) = true).
  { unfold onRobotMessage at 1. cbn [JS.truthyOpt].
    change (default EmptyString (Some id)) with id. rewrite Ht. cbn [andb].
    destruct (isMessageProcessed id (processedMessages st)) eqn:Hseen; [exact Hseen|].
    assert (Hnow : isMessageProcessed id
              (markMessageProcessed (markNow c1) (sweepNow c1) id (processedMessages st))
              = true).
    { apply Dedup.isMessageProcessed_spec; [exact Hid|].
      unfold markMessageProcessed. rewrite Ht. cbn [negb]. cbn zeta.
      destruct (100 <=? _)%nat.
      - exists (markNow c1). apply Dedup.cleanup_lookup.
        split; [apply lookup_insert_eq|lia].
      - exists (markNow c1). apply lookup_insert_eq. }
    destruct d1 as [d|]; [|exact Hnow].
    unfold bind, ret. destruct (Bot.handleDingTalkMessage _ _ _ _ _ _ _ _). exact Hnow. }
  unfold onRobotMessage at 1. cbn [JS.truthyOpt].
  change (default EmptyString (Some id)) with id. rewrite Ht, Hmarked.
  reflexivity.
Qed.

(** The message [msg-1] with the text [hello] delivered twice: the second
    delivery adds nothing to the calls of the first. *)
Lemma duplicate_message_dropped_witness :
  let data := Bot.mkData (Some "text") (Some "hello") [] None None (Some "1")
                None "sender-1" None "conv-1" in
  let first := onRobotMessage Examples.cardWorld (mkClock 1000 1000 1001) None 4000
                 ChunkLength (Some "msg-1") (Some data) (mkStores ∅ ∅) [] in
  snd first = [EvResolveAgentRoute true "sender-1"; EvFormatAgentEnvelope "sender-1: hello";
               EvFinalizeInboundContext; EvEnqueueSystemEvent; EvDispatchReply;
               EvMarkDispatchIdle] /\
  snd (onRobotMessage Examples.cardWorld (mkClock 2000 2000 2001) None 4000 ChunkLength
         (Some "msg-1") (Some data) (snd (fst first)) (snd first)) = snd first.
Proof.
  intros data first. split; [reflexivity|].
  subst first.
  rewrite (duplicate_message_dropped Examples.cardWorld (mkClock 1000 1000 1001)
             (mkClock 2000 2000 2001) None 4000 ChunkLength "msg-1"
             (Some data) (Some data) (mkStores ∅ ∅) []).
  - reflexivity.
  - discriminate.
  - vm_compute. discriminate.
Defined.

(** X9: a message without an id is not acknowledged and bypasses the cache:
    the cache stays as it is and the handler runs on every delivery. *)
Theorem message_without_id_always_handled (w : World) (c : Clock) (timeout : option Z)
    (limit : nat) (mode : ChunkMode) (messageId : option string)
    (data : Bot.InboundData) (st : Stores) (h : list Event) :
  JS.truthyOpt messageId = false ->
  let handled := Bot.handleDingTalkMessage w (handleNow c) timeout limit mode data
                   (userSessions st) h in
  onRobotMessage w c timeout limit mode messageId (Some data) st h
    = ((false, mkStores (processedMessages st) (fst handled)), snd handled).
Proof.
  intros Hid. cbn zeta. unfold onRobotMessage. rewrite Hid. cbn [andb].
  unfold bind, ret. destruct (Bot.handleDingTalkMessage _ _ _ _ _ _ _ _). reflexivity.
Qed.

(** The message [hello] delivered twice without an id is routed twice. *)
Lemma message_without_id_always_handled_witness :
  let data := Bot.mkData (Some "text") (Some "hello") [] None None (Some "1")
                None "sender-1" None "conv-1" in
  let first := onRobotMessage Examples.cardWorld (mkClock 1000 1000 1001) None 4000
                 ChunkLength None (Some data) (mkStores ∅ ∅) [] in
  length (snd (onRobotMessage Examples.cardWorld (mkClock 2000 2000 2001) None 4000
                 ChunkLength None (Some data) (snd (fst first)) (snd first))) = 12%nat.
Proof.
  intros data first.
  rewrite (message_without_id_always_handled Examples.cardWorld
             (mkClock 2000 2000 2001) None 4000 ChunkLength None data
             (snd (fst first)) (snd first)); reflexivity.
Defined.

End GatewayCallback.

(* ===================================================================== *)
(** * Further properties of the outbound delivery engine                  *)
(* ===================================================================== *)

Module EngineTraces.
Import Env Send Calls SendFacts SendShape.

Lemma orElse_truthy x d :
  JS.truthy d = true -> JS.truthy (default d (JS.orElse x (Some d))) = true.
Proof.
  intros Hd. unfold JS.orElse. destruct (JS.truthyOpt x) eqn:E.
  - destruct x as [s|]; [exact E|discriminate].
  - exact Hd.
Qed.

Lemma errorText_nonempty e : errorText e <> EmptyString.
Proof. apply JSFacts.truthy_true. unfold errorText. apply orElse_truthy. reflexivity. Qed.

Lemma failure_failed msg : msg <> EmptyString -> failed (failure msg).
Proof. intros H. exists msg. split; [exact H|reflexivity]. Qed.

Lemma uploads_no_delivery calls :
  forallb isUpload calls = true ->
  count isDelivery calls = 0%nat /\ count isCardCreation calls = 0%nat.
Proof.
  unfold count. induction calls as [|e calls IH]; [split; reflexivity|].
  cbn [forallb]. intros H. apply andb_true_iff in H as [He H].
  destruct (IH H) as [I1 I2].
  destruct e; try discriminate He. cbn. split; assumption.
Qed.

Lemma count_app P a b : count P (a ++ b) = (count P a + count P b)%nat.
Proof. unfold count. rewrite List.filter_app, length_app. reflexivity. Qed.

(** The rich path: the token request, the uploads, and then nothing (blank
    content), a refused creation, or a creation followed by the finish. *)
Lemma sendAICardInternal_trace w target content h :
  exists r uploads,
    forallb isUpload uploads = true /\
    ((r = nothingSent /\
      runs (sendAICardInternal w target content) h r (EvGetOapiAccessToken :: uploads)) \/
     (failed r /\
      runs (sendAICardInternal w target content) h r
        (EvGetOapiAccessToken :: uploads ++ [EvCreateAICard target])) \/
     (exists card processed,
        r = mkSendResult true None (Some (cardInstanceId card)) None (Some true) /\
        runs (sendAICardInternal w target content) h r
          (EvGetOapiAccessToken :: uploads
           ++ [EvCreateAICard target; EvFinishAICard card processed]))).
Proof.
  unfold runs, sendAICardInternal, bind, call.
  destruct (processMedia_uploads w content
              (getOapiAccessToken w (h ++ [EvGetOapiAccessToken]))
              (h ++ [EvGetOapiAccessToken])) as (uploads & E & F).
  destruct (processMedia w content _ _) as [processed h2]. cbn [snd] in E. subst h2.
  assert (Happ : forall tail, (h ++ [EvGetOapiAccessToken]) ++ uploads ++ tail
                              = h ++ EvGetOapiAccessToken :: uploads ++ tail).
  { intros tail. rewrite <- app_assoc. reflexivity. }
  destruct (JS.isBlank processed).
  - exists nothingSent, uploads. split; [exact F|]. left. split; [reflexivity|].
    cbn [ret]. f_equal. rewrite <- (app_nil_r uploads) at 1. rewrite Happ, app_nil_r.
    reflexivity.
  - destruct (createAICardForTarget w _) as [[card|]|e] eqn:Hc.
    + exists (mkSendResult true None (Some (cardInstanceId card)) None (Some true)), uploads.
      split; [exact F|]. right. right. exists card, processed. split; [reflexivity|].
      unfold emit, call, ret. f_equal.
      rewrite <- !app_assoc. reflexivity.
    + exists (failure "Failed to create AI Card"), uploads.
      split; [exact F|]. right. left.
      split; [apply failure_failed; discriminate|].
      cbn [ret]. f_equal. rewrite <- !app_assoc. reflexivity.
    + exists (failure (errorText e)), uploads.
      split; [exact F|]. right. left.
      split; [apply failure_failed, errorText_nonempty|].
      cbn [ret]. f_equal. rewrite <- !app_assoc. reflexivity.
Qed.

Lemma ofResponse_shape resp : plainDelivered (ofResponse resp) \/ failed (ofResponse resp).
Proof.
  destruct resp as [data|e]; cbn [ofResponse].
  - destruct (JS.truthyOpt (respProcessQueryKey data)) eqn:E.
    + left. destruct (respProcessQueryKey data) as [key|]; [|discriminate].
      exists key. split; [apply JSFacts.truthy_true, E|reflexivity].
    + right. apply failure_failed. apply JSFacts.truthy_true, orElse_truthy. reflexivity.
  - right. apply failure_failed, errorText_nonempty.
Qed.

Lemma buildMsgPayload_error w t content title err :
  buildMsgPayload w t content title = inr err -> err <> EmptyString.
Proof.
  destruct t; cbn; try discriminate;
    destruct (jsonParses w content); try discriminate; intros [= <-]; discriminate.
Qed.

(** Not delivered, not blank: the two shapes cannot be confused. *)
Lemma failed_not_delivered r :
  failed r -> ~ (cardDelivered r \/ plainDelivered r) /\ r <> nothingSent.
Proof.
  intros (msg & _ & ->). split; [|discriminate].
  intros [(id & E)|(key & _ & E)]; discriminate.
Qed.

(** A plain send, to users or to a group: no card is created, and at most
    one message is posted. *)
Lemma plain_summary (post : list string * string * MsgParam -> Event) w content options h
    (send : M SendResult) :
  (forall x, isDelivery (post x) = true /\ isCardCreation (post x) = false) ->
  send = (match buildMsgPayload w (default MsgText (msgType options)) content (title options) with
          | inr err => ret (failure err)
          | inl (msgKey, msgParam) =>
              bind (call EvGetAccessToken (getAccessToken w))
                (fun token =>
                   match token with
                   | Throws e => ret (failure (errorText e))
                   | Returns _ =>
                       bind (call (post ([], msgKey, msgParam)) (axiosPost w))
                         (fun resp => ret (ofResponse resp))
                   end)
          end) ->
  exists r calls, runs send h r calls /\
    (plainDelivered r \/ failed r) /\
    count isCardCreation calls = 0%nat /\
    (count isDelivery calls <= 1)%nat /\
    (plainDelivered r -> count isDelivery calls = 1%nat).
Proof.
  intros Hpost ->. unfold runs.
  destruct (buildMsgPayload _ _ _ _) as [[k prm]|err] eqn:Hb.
  - unfold bind, call. destruct (getAccessToken w _) as [tok|e].
    + destruct (Hpost ([], k, prm)) as [Hd Hc].
      exists (ofResponse (axiosPost w ((h ++ [EvGetAccessToken]) ++ [post ([], k, prm)]))),
        [EvGetAccessToken; post ([], k, prm)].
      split; [cbn [ret]; f_equal; rewrite <- app_assoc; reflexivity|].
      split; [apply ofResponse_shape|].
      unfold count. cbn [List.filter isDelivery isCardCreation]. rewrite Hd, Hc.
      cbn. split; [reflexivity|]. split; [lia|reflexivity].
    + exists (failure (errorText e)), [EvGetAccessToken].
      split; [reflexivity|]. split; [right; apply failure_failed, errorText_nonempty|].
      split; [reflexivity|]. split; [cbn; lia|].
      intros Hp. exfalso.
      apply (proj1 (failed_not_delivered _ (failure_failed _ (errorText_nonempty e)))).
      right. exact Hp.
  - exists (failure err), []. split; [cbn [ret]; rewrite app_nil_r; reflexivity|].
    pose proof (buildMsgPayload_error _ _ _ _ _ Hb) as Herr.
    split; [right; apply failure_failed, Herr|].
    split; [reflexivity|]. split; [cbn; lia|].
    intros Hp. exfalso.
    apply (proj1 (failed_not_delivered _ (failure_failed _ Herr))). right. exact Hp.
Qed.

Lemma sendNormalToUser_summary w ids content options h :
  exists r calls, runs (sendNormalToUser w ids content options) h r calls /\
    (plainDelivered r \/ failed r) /\
    count isCardCreation calls = 0%nat /\
    (count isDelivery calls <= 1)%nat /\
    (plainDelivered r -> count isDelivery calls = 1%nat).
Proof.
  apply (plain_summary (fun x => EvBatchSend ids (snd (fst x)) (snd x)) w content options).
  - intros x. split; reflexivity.
  - unfold sendNormalToUser. destruct (buildMsgPayload _ _ _ _) as [[k prm]|]; reflexivity.
Qed.

Lemma sendNormalToGroup_summary w conv content options h :
  exists r calls, runs (sendNormalToGroup w conv content options) h r calls /\
    (plainDelivered r \/ failed r) /\
    count isCardCreation calls = 0%nat /\
    (count isDelivery calls <= 1)%nat /\
    (plainDelivered r -> count isDelivery calls = 1%nat).
Proof.
  apply (plain_summary (fun x => EvGroupSend conv (snd (fst x)) (snd x)) w content options).
  - intros x. split; reflexivity.
  - unfold sendNormalToGroup. destruct (buildMsgPayload _ _ _ _) as [[k prm]|]; reflexivity.
Qed.

Lemma plain_singleAttempt r calls :
  (plainDelivered r \/ failed r) ->
  count isCardCreation calls = 0%nat ->
  (count isDelivery calls <= 1)%nat ->
  (plainDelivered r -> count isDelivery calls = 1%nat) ->
  singleAttempt r calls.
Proof.
  intros Hshape Hc Hd Hone. split; [|split; [lia|split; [exact Hd|split]]].
  - destruct Hshape as [H|H]; [right; left; exact H|right; right; right; exact H].
  - intros [Hcard|Hplain]; [|exact (Hone Hplain)].
    destruct Hshape as [(key & _ & ->)|(msg & _ & ->)];
      destruct Hcard as (id & E); discriminate.
  - intros ->. destruct Hshape as [(key & _ & E)|(msg & _ & E)]; discriminate.
Qed.

(** The rich path makes one attempt; when its result is not [ok] it has
    delivered nothing. *)
Lemma rich_summary w target content h :
  exists r calls, runs (sendAICardInternal w target content) h r calls /\
    singleAttempt r calls /\
    (ok r = false -> failed r /\ count isDelivery calls = 0%nat).
Proof.
  destruct (sendAICardInternal_trace w target content h) as (r & uploads & F & Hcase).
  destruct (uploads_no_delivery uploads F) as [Ud Uc].
  assert (Hcons : forall tail P, count P (EvGetOapiAccessToken :: uploads ++ tail)
                    = ((if P EvGetOapiAccessToken then 1 else 0)
                       + count P uploads + count P tail)%nat).
  { intros tail P. change (EvGetOapiAccessToken :: uploads ++ tail)
      with ([EvGetOapiAccessToken] ++ uploads ++ tail).
    rewrite !count_app. unfold count at 1. cbn [List.filter].
    destruct (P EvGetOapiAccessToken); cbn; lia. }
  destruct Hcase as [[-> Hrun]|[[Hfail Hrun]|(card & processed & -> & Hrun)]].
  - exists nothingSent, (EvGetOapiAccessToken :: uploads). split; [exact Hrun|].
    assert (Hd : count isDelivery (EvGetOapiAccessToken :: uploads) = 0%nat).
    { rewrite <- (app_nil_r uploads). rewrite Hcons, Ud. reflexivity. }
    assert (Hc : count isCardCreation (EvGetOapiAccessToken :: uploads) = 0%nat).
    { rewrite <- (app_nil_r uploads). rewrite Hcons, Uc. reflexivity. }
    split; [|discriminate].
    split; [right; right; left; reflexivity|]. rewrite Hd, Hc.
    split; [lia|split; [lia|split; [|reflexivity]]].
    intros [(id & E)|(key & _ & E)]; discriminate.
  - exists r, (EvGetOapiAccessToken :: uploads ++ [EvCreateAICard target]).
    split; [exact Hrun|].
    assert (Hd : count isDelivery (EvGetOapiAccessToken :: uploads ++ [EvCreateAICard target])
                 = 0%nat) by (rewrite Hcons, Ud; reflexivity).
    assert (Hc : count isCardCreation
                   (EvGetOapiAccessToken :: uploads ++ [EvCreateAICard target]) = 1%nat)
      by (rewrite Hcons, Uc; reflexivity).
    destruct (failed_not_delivered r Hfail) as [Hnd Hnb].
    split; [|intros _; split; [exact Hfail|exact Hd]].
    split; [right; right; right; exact Hfail|]. rewrite Hd, Hc.
    split; [lia|split; [lia|split; [intros H; contradiction|intros H; contradiction]]].
  - set (calls := EvGetOapiAccessToken :: uploads
                  ++ [EvCreateAICard target; EvFinishAICard card processed]).
    exists (mkSendResult true None (Some (cardInstanceId card)) None (Some true)), calls.
    split; [exact Hrun|].
    assert (Hd : count isDelivery calls = 1%nat) by (subst calls; rewrite Hcons, Ud; reflexivity).
    assert (Hc : count isCardCreation calls = 1%nat)
      by (subst calls; rewrite Hcons, Uc; reflexivity).
    split; [|discriminate].
    split; [left; eexists; reflexivity|]. rewrite Hd, Hc.
    split; [lia|split; [lia|split; [reflexivity|discriminate]]].
Qed.

(** A rich attempt followed, when it failed and falling back is allowed, by
    a plain send. *)
Lemma rich_then_plain (rich plain : M SendResult) (fallback : bool) h :
  (forall h, exists r calls, runs rich h r calls /\ singleAttempt r calls /\
     (ok r = false -> failed r /\ count isDelivery calls = 0%nat)) ->
  (forall h, exists r calls, runs plain h r calls /\
     (plainDelivered r \/ failed r) /\
     count isCardCreation calls = 0%nat /\
     (count isDelivery calls <= 1)%nat /\
     (plainDelivered r -> count isDelivery calls = 1%nat)) ->
  exists r calls,
    runs (bind rich (fun cardResult =>
            if (ok cardResult || negb fallback)%bool then ret cardResult else plain))
      h r calls /\
    singleAttempt r calls.
Proof.
  intros Hrich Hplain. unfold runs, bind.
  destruct (Hrich h) as (r1 & c1 & R1 & S1 & F1). unfold runs in R1. rewrite R1.
  destruct (ok r1 || negb fallback)%bool eqn:E.
  - exists r1, c1. split; [reflexivity|exact S1].
  - apply orb_false_iff in E as [Hok _]. destruct (F1 Hok) as [_ Hd1].
    destruct (Hplain (h ++ c1)) as (r2 & c2 & R2 & Sh2 & Hc2 & Hd2 & Hone2).
    unfold runs in R2. rewrite R2. exists r2, (c1 ++ c2).
    split; [rewrite app_assoc; reflexivity|].
    pose proof (plain_singleAttempt r2 c2 Sh2 Hc2 Hd2 Hone2) as (W & _ & _ & One & Zero).
    destruct S1 as (_ & Hc1 & _).
    split; [exact W|]. rewrite !count_app, Hd1, Hc2.
    split; [lia|split; [cbn; exact Hd2|split; [exact One|exact Zero]]].
Qed.

(** X10: every call of [sendToUser], [sendToGroup] or [sendProactive] makes
    a single attempt.  The result has one of four shapes: delivered as a
    card (card id, no error), delivered as a plain message (a non-empty
    processQueryKey, no error), nothing to send ([{ok: true, usedAICard:
    false}] alone), or failed with a non-empty error text.  Behind it are at
    most one card creation and at most one delivering call (card finish or
    message post), exactly one when the content was delivered and none for
    nothing to send: a card and a plain message are never both sent, and
    nothing is retried. *)
Theorem engine_single_attempt (w : World) (content : string)
    (options : ProactiveSendOptions) (h : list Event) :
  (forall userIds, exists r calls,
     runs (sendToUser w userIds content options) h r calls /\ singleAttempt r calls) /\
  (forall conv, exists r calls,
     runs (sendToGroup w conv content options) h r calls /\ singleAttempt r calls) /\
  (forall target, exists r calls,
     runs (sendProactive w target content options) h r calls /\ singleAttempt r calls).
Proof.
  assert (Huser : forall opts userIds, exists r calls,
            runs (sendToUser w userIds content opts) h r calls /\ singleAttempt r calls).
  { intros opts userIds. unfold sendToUser. cbn zeta.
    destruct (orTrue (useAICard opts) && (length (userIdArray userIds) =? 1)%nat)%bool.
    - apply rich_then_plain; intros h'.
      + apply rich_summary.
      + apply sendNormalToUser_summary.
    - destruct (sendNormalToUser_summary w (userIdArray userIds) content opts h)
        as (r & calls & R & Sh & Hc & Hd & Hone).
      exists r, calls. split; [exact R|apply plain_singleAttempt; assumption]. }
  assert (Hgroup : forall opts conv, exists r calls,
            runs (sendToGroup w conv content opts) h r calls /\ singleAttempt r calls).
  { intros opts conv. unfold sendToGroup. cbn zeta.
    destruct (orTrue (useAICard opts)).
    - apply rich_then_plain; intros h'.
      + apply rich_summary.
      + apply sendNormalToGroup_summary.
    - destruct (sendNormalToGroup_summary w conv content opts h)
        as (r & calls & R & Sh & Hc & Hd & Hone).
      exists r, calls. split; [exact R|apply plain_singleAttempt; assumption]. }
  split; [apply Huser|]. split; [apply Hgroup|].
  intros target. unfold sendProactive. cbn zeta.
  destruct (JS.truthyOpt (userId target) || bool_decide (is_Some (userIds target)))%bool;
    [apply Huser|].
  destruct (JS.truthyOpt (openConversationId target)); [apply Hgroup|].
  exists (failure "Must specify userId, userIds, or openConversationId"), [].
  split; [unfold runs; cbn [ret]; rewrite app_nil_r; reflexivity|].
  apply plain_singleAttempt; try reflexivity.
  - right. apply failure_failed. discriminate.
  - cbn. lia.
  - intros (key & _ & E). discriminate.
Qed.

End EngineTraces.

Module GroupDelivery.
Import Env Send Calls SendFacts.

(** X11: the paths of [sendToGroup].  With [useAICard: false] it is the
    plain group send and only plain-path calls are made.  Otherwise the rich
    attempt for the conversation runs first; an [ok] result, or any result
    when [fallbackToNormal] is [false], is returned with no further call;
    a failed attempt with falling back allowed is followed by the plain
    group send. *)
Theorem sendToGroup_paths (w : World) (conv content : string)
    (options : ProactiveSendOptions) (h : list Event) :
  (useAICard options = Some false ->
     sendToGroup w conv content options h = sendNormalToGroup w conv content options h /\
     exists calls, snd (sendToGroup w conv content options h) = h ++ calls /\
                   forallb isPlainCall calls = true) /\
  (useAICard options <> Some false ->
     let attempt := sendAICardInternal w (TargetGroup conv) content h in
     (ok (fst attempt) = true ->
        sendToGroup w conv content options h = attempt) /\
     (fallbackToNormal options = Some false ->
        sendToGroup w conv content options h = attempt) /\
     (ok (fst attempt) = false -> fallbackToNormal options <> Some false ->
        sendToGroup w conv content options h
          = sendNormalToGroup w conv content options (snd attempt))).
Proof.
  unfold sendToGroup. cbn zeta. split.
  - intros ->. cbn [orTrue]. split; [reflexivity|]. apply sendNormalToGroup_plain.
  - intros Huse.
    assert (Ht : orTrue (useAICard options) = true).
    { destruct (useAICard options) as [[|]|]; try reflexivity. contradiction. }
    rewrite Ht. unfold bind.
    destruct (sendAICardInternal w (TargetGroup conv) content h) as [r h1]. cbn [fst snd].
    split; [|split].
    + intros ->. reflexivity.
    + intros ->. cbn [orTrue negb]. rewrite orb_true_r. reflexivity.
    + intros -> Hfb. destruct (fallbackToNormal options) as [[|]|]; try reflexivity.
      contradiction.
Qed.

(** A group with a working card API, and with one that answers [null]. *)
Lemma sendToGroup_paths_witness :
  sendToGroup Examples.cardWorld "conv-1" "Hello Group" noOptions []
    = (mkSendResult true None (Some "card_1") None (Some true),
       [EvGetOapiAccessToken; EvCreateAICard (TargetGroup "conv-1");
        EvFinishAICard Examples.sampleCard "Hello Group"]) /\
  sendToGroup Examples.noCardWorld "conv-1" "Hello Group" noOptions []
    = (mkSendResult true (Some "query-key") None None (Some false),
       [EvGetOapiAccessToken; EvCreateAICard (TargetGroup "conv-1");
        EvGetAccessToken; EvGroupSend "conv-1" "sampleText" (ParamText "Hello Group")]) /\
  sendToGroup Examples.cardWorld "conv-1" "Hello Group"
      (mkOptions None None (Some false) None) []
    = (mkSendResult true (Some "query-key") None None (Some false),
       [EvGetAccessToken; EvGroupSend "conv-1" "sampleText" (ParamText "Hello Group")]).
Proof.
  split; [|split].
  - destruct (sendToGroup_paths Examples.cardWorld "conv-1" "Hello Group" noOptions [])
      as [_ Hrich].
    destruct Hrich as (Hok & _ & _); [discriminate|]. rewrite Hok; reflexivity.
  - destruct (sendToGroup_paths Examples.noCardWorld "conv-1" "Hello Group" noOptions [])
      as [_ Hrich].
    destruct Hrich as (_ & _ & Hfall); [discriminate|].
    rewrite Hfall; [reflexivity|reflexivity|discriminate].
  - destruct (sendToGroup_paths Examples.cardWorld "conv-1" "Hello Group"
                (mkOptions None None (Some false) None) []) as [Hplain _].
    destruct (Hplain eq_refl) as [Heq _]. rewrite Heq. reflexivity.
Defined.

End GroupDelivery.

Module PlainSend.
Import Env Send.

(** X12: a plain send validates before it calls.  The payload is refused
    exactly for a [link] or [actionCard] whose content [JSON.parse] rejects;
    the send then returns [Invalid <type> message format] without any call.
    When the access token cannot be obtained, the error is returned after
    that one request and nothing is posted. *)
Theorem plain_send_validates_first (w : World) (content : string)
    (options : ProactiveSendOptions) (h : list Event) :
  let t := default MsgText (msgType options) in
  let invalid := ((t = MsgLink \/ t = MsgActionCard) /\ jsonParses w content = false) in
  ((exists err, buildMsgPayload w t content (title options) = inr err) <-> invalid) /\
  (invalid ->
     forall ids conv,
       sendNormalToUser w ids content options h
         = (failure ("Invalid " +:+ msgTypeName t +:+ " message format"), h) /\
       sendNormalToGroup w conv content options h
         = (failure ("Invalid " +:+ msgTypeName t +:+ " message format"), h)) /\
  (~ invalid ->
     forall e, getAccessToken w (h ++ [EvGetAccessToken]) = Throws e ->
     forall ids conv,
       sendNormalToUser w ids content options h
         = (failure (errorText e), h ++ [EvGetAccessToken]) /\
       sendNormalToGroup w conv content options h
         = (failure (errorText e), h ++ [EvGetAccessToken])).
Proof.
  cbn zeta. set (t := default MsgText (msgType options)).
  assert (Hcases : ((t = MsgLink \/ t = MsgActionCard) /\ jsonParses w content = false
                    /\ buildMsgPayload w t content (title options)
                       = inr ("Invalid " +:+ msgTypeName t +:+ " message format"))
                   \/ (~ ((t = MsgLink \/ t = MsgActionCard) /\ jsonParses w content = false)
                       /\ exists k prm, buildMsgPayload w t content (title options)
                                        = inl (k, prm))).
  { destruct t; cbn [buildMsgPayload];
      try (right; split; [intros [[H|H] _]; discriminate|eauto]);
      destruct (jsonParses w content);
      try (right; split; [intros [_ H]; discriminate|eauto]);
      left; split; auto. }
  split; [|split].
  - destruct Hcases as [(Ht & Hj & Hb)|(Hn & k & prm & Hb)].
    + split; [intros _; split; assumption|intros _; eauto].
    + split; [intros [err He]; rewrite Hb in He; discriminate|intros H; contradiction].
  - intros Hinv ids conv.
    destruct Hcases as [(_ & _ & Hb)|(Hn & _)]; [|contradiction].
    unfold sendNormalToUser, sendNormalToGroup. fold t. rewrite Hb. split; reflexivity.
  - intros Hvalid e He ids conv.
    destruct Hcases as [(Ht & Hj & _)|(_ & k & prm & Hb)]; [exfalso; apply Hvalid; auto|].
    unfold sendNormalToUser, sendNormalToGroup. fold t. rewrite Hb.
    unfold bind, call. rewrite He. split; reflexivity.
Qed.

(** A link whose content is not JSON, sent with [useAICard: false]. *)
Lemma plain_send_validates_first_witness :
  sendNormalToUser Examples.cardWorld ["user-1"] "not json"
      (mkOptions (Some MsgLink) None (Some false) None) []
    = (failure "Invalid link message format", []).
Proof.
  destruct (plain_send_validates_first Examples.cardWorld "not json"
              (mkOptions (Some MsgLink) None (Some false) None) []) as (_ & Hinv & _).
  destruct (Hinv (conj (or_introl eq_refl) eq_refl) ["user-1"] "") as [Huser _].
  exact Huser.
Defined.

(** X13: the rich path ignores the message kind.  When the rich attempt is
    made and succeeds, [sendToUser] and [sendToGroup] return its result
    whatever [msgType], [title] and [fallbackToNormal] say: the content is
    put on the card as it is. *)
Theorem rich_path_ignores_message_kind (w : World) (content : string)
    (options options' : ProactiveSendOptions) (h : list Event) :
  useAICard options <> Some false -> useAICard options' <> Some false ->
  (forall userIds u, userIdArray userIds = [u] ->
     ok (fst (sendAICardInternal w (TargetUser u) content h)) = true ->
     sendToUser w userIds content options h = sendToUser w userIds content options' h) /\
  (forall conv,
     ok (fst (sendAICardInternal w (TargetGroup conv) content h)) = true ->
     sendToGroup w conv content options h = sendToGroup w conv content options' h).
Proof.
  intros Hu Hu'.
  assert (Ht : forall o, useAICard o <> Some false -> orTrue (useAICard o) = true).
  { intros o Ho. destruct (useAICard o) as [[|]|]; try reflexivity. contradiction. }
  split.
  - intros userIds u Hids Hok. unfold sendToUser. cbn zeta.
    rewrite Hids, (Ht _ Hu), (Ht _ Hu'). cbn [length Nat.eqb andb nth].
    unfold bind. destruct (sendAICardInternal w (TargetUser u) content h) as [r h1].
    cbn [fst] in Hok. rewrite Hok. reflexivity.
  - intros conv Hok. unfold sendToGroup. cbn zeta. rewrite (Ht _ Hu), (Ht _ Hu').
    unfold bind. destruct (sendAICardInternal w (TargetGroup conv) content h) as [r h1].
    cbn [fst] in Hok. rewrite Hok. reflexivity.
Qed.

(** An image URL sent with [msgType: "image"] to one user is put on a card
    as text. *)
Lemma rich_path_ignores_message_kind_witness :
  sendToUser Examples.cardWorld (OneUser "user-1") "https://example.com/a.png"
      (mkOptions (Some MsgImage) None None None) []
    = (mkSendResult true None (Some "card_1") None (Some true),
       [EvGetOapiAccessToken; EvCreateAICard (TargetUser "user-1");
        EvFinishAICard Examples.sampleCard "https://example.com/a.png"]).
Proof.
  destruct (rich_path_ignores_message_kind Examples.cardWorld "https://example.com/a.png"
              (mkOptions (Some MsgImage) None None None) noOptions [])
    as [Huser _]; [discriminate|discriminate|].
  rewrite (Huser (OneUser "user-1") "user-1"); reflexivity.
Defined.

End PlainSend.

(* ===================================================================== *)
(** * White-space padding and letter case                                 *)
(* ===================================================================== *)

Module Padding.
Import JS JSMore JSFacts TrimFacts.

(** Turn boolean comparisons of byte codes in the hypotheses into
    arithmetic. *)
Ltac codes :=
  repeat match goal with
  | H : (_ || _)%bool = true |- _ => apply orb_prop in H; destruct H as [H|H]
  | H : (_ && _)%bool = true |- _ => apply andb_prop in H; destruct H
  | H : (_ =? _)%nat = true |- _ => apply Nat.eqb_eq in H
  | H : (_ <=? _)%nat = true |- _ => apply Nat.leb_le in H
  end.

(** The first byte of a white-space character is not a continuation byte,
    the later ones are. *)
Lemma ws1_lead a : ws1 a = true -> (code a < 33)%nat.
Proof. unfold ws1. cbn zeta. intros H. codes; lia. Qed.

Lemma ws2_bytes a b : ws2 a b = true -> (code a = 194 /\ 128 <= code b <= 191)%nat.
Proof. unfold ws2. intros H. codes; lia. Qed.

Lemma ws3_bytes a b c :
  ws3 a b c = true ->
  (224 <= code a /\ 128 <= code b <= 191 /\ 128 <= code c <= 191)%nat.
Proof. unfold ws3. cbn zeta. intros H. codes; lia. Qed.

Lemma allWs_lead b q :
  allWs (String b q) = true -> (code b < 128 \/ 192 <= code b)%nat.
Proof.
  cbn [allWs]. destruct (ws1 b) eqn:E1; [apply ws1_lead in E1; lia|].
  destruct q as [|c q]; [discriminate|].
  destruct (ws2 b c) eqn:E2; [apply ws2_bytes in E2; lia|].
  destruct q as [|d q]; [discriminate|].
  destruct (ws3 b c d) eqn:E3; [apply ws3_bytes in E3; lia|discriminate].
Qed.

Lemma lead_not_ws2 a b q : allWs (String b q) = true -> ws2 a b = false.
Proof.
  intros H. apply allWs_lead in H.
  destruct (ws2 a b) eqn:E; [apply ws2_bytes in E; lia|reflexivity].
Qed.

Lemma lead_not_ws3_mid a b c q : allWs (String b q) = true -> ws3 a b c = false.
Proof.
  intros H. apply allWs_lead in H.
  destruct (ws3 a b c) eqn:E; [apply ws3_bytes in E; lia|reflexivity].
Qed.

Lemma lead_not_ws3_last a b c q : allWs (String c q) = true -> ws3 a b c = false.
Proof.
  intros H. apply allWs_lead in H.
  destruct (ws3 a b c) eqn:E; [apply ws3_bytes in E; lia|reflexivity].
Qed.

(** White space appended to a string that is not blank does not make it
    blank. *)
Lemma allWs_app_inv q (Hq : allWs q = true) :
  forall t, allWs (t +:+ q) = true -> allWs t = true.
Proof.
  induction t as [|a r IH1 IH2 IH3] using string_ind3; [reflexivity|].
  change (String a r +:+ q) with (String a (r +:+ q)). cbn [allWs].
  destruct (ws1 a); [exact IH1|].
  destruct r as [|b r2].
  - change (EmptyString +:+ q) with q.
    destruct q as [|b q2]; [discriminate|].
    rewrite (lead_not_ws2 a b q2 Hq).
    destruct q2 as [|c q3]; [discriminate|].
    rewrite (lead_not_ws3_mid a b c _ Hq). discriminate.
  - change (String b r2 +:+ q) with (String b (r2 +:+ q)). cbn iota.
    destruct (ws2 a b); [exact (IH2 _ _ eq_refl)|].
    destruct r2 as [|c r3].
    + change (EmptyString +:+ q) with q.
      destruct q as [|c q3]; [discriminate|].
      rewrite (lead_not_ws3_last a b c q3 Hq). discriminate.
    + change (String c r3 +:+ q) with (String c (r3 +:+ q)). cbn iota.
      destruct (ws3 a b c); [exact (IH3 _ _ _ eq_refl)|discriminate].
Qed.

Lemma allWs_app_r q t : allWs q = true -> allWs (t +:+ q) = allWs t.
Proof.
  intros Hq. destruct (allWs t) eqn:E.
  - apply allWs_app; assumption.
  - destruct (allWs (t +:+ q)) eqn:E'; [|reflexivity].
    rewrite (allWs_app_inv q Hq t E') in E. discriminate.
Qed.

Lemma trimEnd_pad q s : allWs q = true -> trimEnd (s +:+ q) = trimEnd s.
Proof.
  intros Hq. induction s as [|a r IH].
  - change (EmptyString +:+ q) with q. apply trimEnd_empty. exact Hq.
  - change (String a r +:+ q) with (String a (r +:+ q)). cbn [trimEnd].
    change (String a (r +:+ q)) with (String a r +:+ q).
    rewrite (allWs_app_r q (String a r) Hq), IH. reflexivity.
Qed.

Lemma trimStart_pad_l p : forall s, allWs p = true -> trimStart (p +:+ s) = trimStart s.
Proof.
  induction p as [|a r IH1 IH2 IH3] using string_ind3; intros s; [reflexivity|].
  change (String a r +:+ s) with (String a (r +:+ s)). cbn [allWs trimStart].
  destruct (ws1 a); [apply IH1|].
  destruct r as [|b r2]; [discriminate|].
  change (String b r2 +:+ s) with (String b (r2 +:+ s)). cbn iota.
  destruct (ws2 a b); [apply (IH2 _ _ eq_refl)|].
  destruct r2 as [|c r3]; [discriminate|].
  change (String c r3 +:+ s) with (String c (r3 +:+ s)). cbn iota.
  destruct (ws3 a b c); [apply (IH3 _ _ _ eq_refl)|discriminate].
Qed.

(** Trimming the start of a string padded on the right leaves white space
    only after the trimmed string. *)
Lemma trimStart_pad_r q (Hq : allWs q = true) :
  forall s, exists q', allWs q' = true /\ trimStart (s +:+ q) = trimStart s +:+ q'.
Proof.
  induction s as [|a r IH1 IH2 IH3] using string_ind3.
  - exists EmptyString. split; [reflexivity|].
    change (EmptyString +:+ q) with q. apply trimStart_blank. exact Hq.
  - change (String a r +:+ q) with (String a (r +:+ q)). cbn [trimStart].
    destruct (ws1 a); [exact IH1|].
    destruct r as [|b r2].
    + change (EmptyString +:+ q) with q.
      destruct q as [|b q2]; [exists EmptyString; split; reflexivity|].
      rewrite (lead_not_ws2 a b q2 Hq).
      destruct q2 as [|c q3]; [exists (String b EmptyString); split; [exact Hq|reflexivity]|].
      rewrite (lead_not_ws3_mid a b c _ Hq).
      exists (String b (String c q3)). split; [exact Hq|reflexivity].
    + change (String b r2 +:+ q) with (String b (r2 +:+ q)). cbn iota.
      destruct (ws2 a b); [exact (IH2 _ _ eq_refl)|].
      destruct r2 as [|c r3].
      * change (EmptyString +:+ q) with q.
        destruct q as [|c q3]; [exists EmptyString; split; reflexivity|].
        rewrite (lead_not_ws3_last a b c q3 Hq).
        exists (String c q3). split; [exact Hq|reflexivity].
      * change (String c r3 +:+ q) with (String c (r3 +:+ q)). cbn iota.
        destruct (ws3 a b c); [exact (IH3 _ _ _ eq_refl)|].
        exists q. split; [exact Hq|reflexivity].
Qed.

(** [trim] removes any white-space padding. *)
Lemma trim_pad p q s :
  allWs p = true -> allWs q = true -> trim (p +:+ s +:+ q) = trim s.
Proof.
  intros Hp Hq. unfold trim. rewrite (trimStart_pad_l p _ Hp).
  destruct (trimStart_pad_r q Hq s) as (q' & Hq' & ->).
  apply trimEnd_pad. exact Hq'.
Qed.

Lemma trim_length s : (String.length (trim s) <= String.length s)%nat.
Proof.
  unfold trim.
  assert (HE : forall t, (String.length (trimEnd t) <= String.length t)%nat).
  { induction t as [|a r IH]; [reflexivity|].
    cbn [trimEnd]. destruct (allWs (String a r)); cbn [String.length]; lia. }
  assert (HS : forall t, (String.length (trimStart t) <= String.length t)%nat).
  { induction t as [|a r IH1 IH2 IH3] using string_ind3; [reflexivity|].
    cbn [trimStart]. destruct (ws1 a); [cbn [String.length]; lia|].
    destruct r as [|b r2]; [reflexivity|].
    destruct (ws2 a b); [specialize (IH2 _ _ eq_refl); cbn [String.length]; lia|].
    destruct r2 as [|c r3]; [reflexivity|].
    destruct (ws3 a b c); [specialize (IH3 _ _ _ eq_refl); cbn [String.length]; lia|].
    reflexivity. }
  etransitivity; [apply HE|apply HS].
Qed.

(** Lower-casing touches the ASCII capital letters only: no white space
    appears or disappears. *)
Lemma lowerChar_code a :
  lowerChar a = a \/ ((65 <= code a <= 90)%nat /\ (97 <= code (lowerChar a) <= 122)%nat).
Proof.
  unfold lowerChar. cbn zeta.
  destruct ((65 <=? code a)%nat && (code a <=? 90)%nat)%bool eqn:E; [right|left; reflexivity].
  codes. split; [lia|].
  unfold code in *. rewrite nat_ascii_embedding; lia.
Qed.

Lemma lowerChar_idem a : lowerChar (lowerChar a) = lowerChar a.
Proof.
  destruct (lowerChar_code a) as [E|[_ H]]; [rewrite !E; reflexivity|].
  unfold lowerChar at 1. cbn zeta.
  destruct ((65 <=? code (lowerChar a))%nat && (code (lowerChar a) <=? 90)%nat)%bool eqn:E;
    [|reflexivity].
  codes. lia.
Qed.

Lemma toLowerCase_idem s : toLowerCase (toLowerCase s) = toLowerCase s.
Proof.
  induction s as [|a r IH]; [reflexivity|].
  cbn [toLowerCase]. rewrite lowerChar_idem, IH. reflexivity.
Qed.

Lemma lowerChar_fixed a :
  (code a < 65 \/ 128 <= code a \/ code (lowerChar a) < 65 \/ 128 <= code (lowerChar a))%nat ->
  lowerChar a = a.
Proof. destruct (lowerChar_code a) as [E|H]; [intros _; exact E|lia]. Qed.

Lemma ws1_lower a : ws1 (lowerChar a) = ws1 a.
Proof.
  destruct (ws1 (lowerChar a)) eqn:E, (ws1 a) eqn:E'; try reflexivity.
  - pose proof (ws1_lead _ E) as H.
    rewrite (lowerChar_fixed a) in E by lia. congruence.
  - pose proof (ws1_lead _ E') as H.
    rewrite (lowerChar_fixed a) in E by lia. congruence.
Qed.

Lemma ws2_lower a b : ws2 (lowerChar a) (lowerChar b) = ws2 a b.
Proof.
  destruct (ws2 (lowerChar a) (lowerChar b)) eqn:E, (ws2 a b) eqn:E'; try reflexivity.
  - pose proof (ws2_bytes _ _ E) as H.
    rewrite (lowerChar_fixed a), (lowerChar_fixed b) in E by lia. congruence.
  - pose proof (ws2_bytes _ _ E') as H.
    rewrite (lowerChar_fixed a), (lowerChar_fixed b) in E by lia. congruence.
Qed.

Lemma ws3_lower a b c : ws3 (lowerChar a) (lowerChar b) (lowerChar c) = ws3 a b c.
Proof.
  destruct (ws3 (lowerChar a) (lowerChar b) (lowerChar c)) eqn:E, (ws3 a b c) eqn:E';
    try reflexivity.
  - pose proof (ws3_bytes _ _ _ E) as H.
    rewrite (lowerChar_fixed a), (lowerChar_fixed b), (lowerChar_fixed c) in E by lia.
    congruence.
  - pose proof (ws3_bytes _ _ _ E') as H.
    rewrite (lowerChar_fixed a), (lowerChar_fixed b), (lowerChar_fixed c) in E by lia.
    congruence.
Qed.

Lemma allWs_lower s : allWs (toLowerCase s) = allWs s.
Proof.
  induction s as [|a r IH1 IH2 IH3] using string_ind3; [reflexivity|].
  cbn [toLowerCase allWs]. rewrite ws1_lower.
  destruct (ws1 a); [exact IH1|].
  destruct r as [|b r2]; [reflexivity|].
  cbn [toLowerCase]. rewrite ws2_lower.
  destruct (ws2 a b); [exact (IH2 _ _ eq_refl)|].
  destruct r2 as [|c r3]; [reflexivity|].
  cbn [toLowerCase]. rewrite ws3_lower.
  destruct (ws3 a b c); [exact (IH3 _ _ _ eq_refl)|reflexivity].
Qed.

Lemma trimStart_lower s : trimStart (toLowerCase s) = toLowerCase (trimStart s).
Proof.
  induction s as [|a r IH1 IH2 IH3] using string_ind3; [reflexivity|].
  cbn [toLowerCase trimStart]. rewrite ws1_lower.
  destruct (ws1 a); [exact IH1|].
  destruct r as [|b r2]; [reflexivity|].
  cbn [toLowerCase]. rewrite ws2_lower.
  destruct (ws2 a b); [exact (IH2 _ _ eq_refl)|].
  destruct r2 as [|c r3]; [reflexivity|].
  cbn [toLowerCase]. rewrite ws3_lower.
  destruct (ws3 a b c); [exact (IH3 _ _ _ eq_refl)|reflexivity].
Qed.

Lemma trimEnd_lower s : trimEnd (toLowerCase s) = toLowerCase (trimEnd s).
Proof.
  induction s as [|a r IH]; [reflexivity|].
  cbn [toLowerCase trimEnd].
  change (String (lowerChar a) (toLowerCase r)) with (toLowerCase (String a r)).
  rewrite allWs_lower. destruct (allWs (String a r)); [reflexivity|].
  cbn [toLowerCase]. rewrite IH. reflexivity.
Qed.

(** Trimming and lower-casing commute. *)
Lemma trim_lower s : trim (toLowerCase s) = toLowerCase (trim s).
Proof. unfold trim. rewrite trimStart_lower, trimEnd_lower. reflexivity. Qed.

End Padding.

(* ===================================================================== *)
(** * session.ts: recognising the commands that open a new session       *)
(* ===================================================================== *)

Module CommandRecognition.
Import JS Session Padding.

(** X6: whether a text is a new-session command depends only on the text with
    its white-space padding removed and its ASCII letters lower-cased. *)
Theorem command_modulo_padding_and_case (p q text text' : string)
    (Hp : allWs p = true) (Hq : allWs q = true)
    (Hcase : toLowerCase text = toLowerCase text') :
  isNewSessionCommand (p +:+ text +:+ q) = isNewSessionCommand text'.
Proof.
  unfold isNewSessionCommand. cbn zeta.
  rewrite (trim_pad p q text Hp Hq), <- !trim_lower, Hcase. reflexivity.
Qed.

Lemma command_modulo_padding_and_case_witness :
  isNewSessionCommand ("  " +:+ "/New" +:+ String "010" EmptyString) = true.
Proof.
  rewrite (command_modulo_padding_and_case "  " (String "010" EmptyString) "/New" "/new");
    reflexivity.
Defined.

(** X7: a message whose text is a new-session command in any letter case and
    with any white space around it only rotates the session of the sender:
    the store gets the rotated session and no call is made. *)
Theorem dressed_command_rotates (w : Env.World) (now : Z) (sessionTimeout : option Z)
    (limit : nat) (mode : Env.ChunkMode) (data : Bot.InboundData)
    (us : gmap string UserSession) (h : list Env.Event)
    (p q text cmd : string)
    (Hcmd : In cmd NEW_SESSION_COMMANDS)
    (Hp : allWs p = true) (Hq : allWs q = true)
    (Hcase : toLowerCase text = toLowerCase cmd)
    (Htext : Bot.extractMessageText data = p +:+ text +:+ q) :
  Bot.handleDingTalkMessage w now sessionTimeout limit mode data us h
  = (<[Turn.sender data :=
         mkUserSession now (rotatedSessionId (Turn.sender data) now)]> us, h).
Proof.
  destruct (ResetCommand.command_recognised cmd Hcmd) as [Htruthy Hrec].
  assert (Hne : JS.truthy (p +:+ text +:+ q) = true).
  { apply JSFacts.truthy_true. intros E.
    assert (Hblank : allWs (p +:+ text +:+ q) = true) by (rewrite E; reflexivity).
    rewrite <- JSFacts.isBlank_allWs in Hblank. unfold isBlank in Hblank.
    rewrite (trim_pad p q text Hp Hq) in Hblank.
    apply negb_true_iff, JSFacts.truthy_false, JSFacts.trim_empty in Hblank.
    rewrite <- allWs_lower, Hcase, allWs_lower in Hblank.
    assert (Hc : isNewSessionCommand cmd = false).
    { unfold isNewSessionCommand. cbn zeta.
      rewrite (JSFacts.trim_blank cmd Hblank). reflexivity. }
    congruence. }
  assert (Hsame : isNewSessionCommand (p +:+ text +:+ q) = isNewSessionCommand cmd).
  { unfold isNewSessionCommand. cbn zeta.
    rewrite (trim_pad p q text Hp Hq), <- !trim_lower, Hcase. reflexivity. }
  unfold Bot.handleDingTalkMessage. cbn zeta.
  rewrite Htext, Hne, Hsame, Hrec. reflexivity.
Qed.

(** A rich-text message reading " /RESET" with a line feed behind it. *)
Lemma dressed_command_rotates_witness :
  let data := Bot.mkData (Some "richText") None
                [Bot.mkPart (Some "text") (Some (" /RESET" +:+ String "010" EmptyString))]
                None None (Some "1") (Some "staff-1") "sender-1" (Some "Ann") "conv-1" in
  Bot.handleDingTalkMessage Examples.cardWorld 5000 None 4000 Env.ChunkLength data ∅ []
  = ({[ "staff-1" := mkUserSession 5000 "dingtalk-connector:staff-1:5000" ]}, []).
Proof.
  intros data.
  rewrite (dressed_command_rotates Examples.cardWorld 5000 None 4000 Env.ChunkLength data ∅ []
             " " (String "010" EmptyString) "/RESET" "/reset").
  - reflexivity.
  - right. left. reflexivity.
  - reflexivity.
  - reflexivity.
  - reflexivity.
  - reflexivity.
Defined.

End CommandRecognition.

(* ===================================================================== *)
(** * media.ts: removal of the media markers                              *)
(* ===================================================================== *)

Module MarkerFacts.
Import JS Media Markers JSFacts.

Lemma append_assoc (a b c : string) : (a +:+ b) +:+ c = a +:+ (b +:+ c).
Proof.
  induction a as [|x a IH]; [reflexivity|].
  change (String x ((a +:+ b) +:+ c) = String x (a +:+ (b +:+ c))). f_equal. exact IH.
Qed.

Lemma append_length (a b : string) :
  String.length (a +:+ b) = (String.length a + String.length b)%nat.
Proof.
  induction a as [|x a IH]; [reflexivity|].
  change (S (String.length (a +:+ b)) = S (String.length a + String.length b)).
  f_equal. exact IH.
Qed.

Lemma startsWith_app p s : startsWith p (p +:+ s) = true.
Proof.
  induction p as [|x p IH]; [reflexivity|].
  change (startsWith (String x p) (String x (p +:+ s)) = true).
  cbn [startsWith]. rewrite Ascii.eqb_refl. exact IH.
Qed.

Lemma drop_app p s : drop (String.length p) (p +:+ s) = s.
Proof.
  induction p as [|x p IH]; [destruct s; reflexivity|].
  change (drop (S (String.length p)) (String x (p +:+ s)) = s). exact IH.
Qed.

Lemma lacks_cons c a s : lacks c (String a s) = negb (Ascii.eqb c a) && lacks c s.
Proof. unfold lacks. cbn [bytes existsb]. apply negb_orb. Qed.

Lemma lacks_app c s t : lacks c (s +:+ t) = lacks c s && lacks c t.
Proof.
  induction s as [|a s IH]; [reflexivity|].
  change (String a s +:+ t) with (String a (s +:+ t)).
  rewrite !lacks_cons, IH. apply andb_assoc.
Qed.

(** Bytes still to be skipped are dropped whatever they are. *)
Lemma removeMarkers_skip op cl x : forall y,
  removeMarkers op cl (String.length x) (x +:+ y) = removeMarkers op cl 0 y.
Proof.
  induction x as [|a x IH]; intros y; [reflexivity|].
  change (removeMarkers op cl (S (String.length x)) (String a (x +:+ y))
          = removeMarkers op cl 0 y).
  cbn [removeMarkers]. apply IH.
Qed.

Section Tag.
Variables (op' cl' : string).
Let op := String "[" op'.
Let cl := String "}" cl'.

Lemma matchAt_other a r : Ascii.eqb "[" a = false -> matchAt op cl (String a r) = None.
Proof.
  intros H. unfold matchAt, op. cbn [startsWith]. rewrite H. reflexivity.
Qed.

(** Text without an opening bracket is copied. *)
Lemma removeMarkers_keep pre : forall y,
  lacks "[" pre = true ->
  removeMarkers op cl 0 (pre +:+ y) = pre +:+ removeMarkers op cl 0 y.
Proof.
  induction pre as [|a pre IH]; intros y; [reflexivity|].
  rewrite lacks_cons. intros H. apply andb_prop in H. destruct H as [Ha Hpre].
  apply negb_true_iff in Ha.
  change (String a pre +:+ y) with (String a (pre +:+ y)).
  cbn [removeMarkers]. rewrite (matchAt_other a _ Ha).
  change (String a (removeMarkers op cl 0 (pre +:+ y))
          = String a (pre +:+ removeMarkers op cl 0 y)).
  f_equal. apply IH. exact Hpre.
Qed.

Lemma removeMarkers_empty : removeMarkers op cl 0 EmptyString = EmptyString.
Proof. reflexivity. Qed.

Lemma lazyClose_other a r :
  Ascii.eqb "}" a = false ->
  lazyClose cl (String a r) =
  if lineTerminatorAt (String a r) then None
  else match lazyClose cl r with Some n => Some (S n) | None => None end.
Proof.
  intros H. unfold cl. cbn [lazyClose startsWith]. rewrite Ascii.eqb_sym in H.
  rewrite Ascii.eqb_sym, H. reflexivity.
Qed.

(** A closing tag needs a closing brace. *)
Lemma lazyClose_none s : lacks "}" s = true -> lazyClose cl s = None.
Proof.
  induction s as [|a s IH]; [reflexivity|].
  rewrite lacks_cons. intros H. apply andb_prop in H. destruct H as [Ha Hs].
  apply negb_true_iff in Ha. rewrite (lazyClose_other a s Ha), (IH Hs).
  destruct (lineTerminatorAt (String a s)); reflexivity.
Qed.

Lemma removeMarkers_no_close s :
  lacks "}" s = true -> removeMarkers op cl 0 s = s.
Proof.
  induction s as [|a s IH]; [reflexivity|].
  intros H. pose proof H as H'. rewrite lacks_cons in H'.
  apply andb_prop in H'. destruct H' as [Ha Hs].
  cbn [removeMarkers].
  assert (E : matchAt op cl (String a s) = None).
  { unfold matchAt. destruct (startsWith op (String a s)) eqn:Es; [|reflexivity].
    rewrite lazyClose_none; [reflexivity|].
    clear -H. revert H. generalize (String a s). generalize (String.length op).
    induction n as [|n IHn]; intros t Ht; [exact Ht|].
    destruct t as [|b t]; [reflexivity|]. cbn [drop]. apply IHn.
    rewrite lacks_cons in Ht. apply andb_prop in Ht. apply Ht. }
  rewrite E, (IH Hs). reflexivity.
Qed.

Lemma startsWith_lacks c p : forall s,
  startsWith p s = true -> lacks c s = true -> lacks c p = true.
Proof.
  induction p as [|a p IH]; intros s; [reflexivity|].
  destruct s as [|b s]; [discriminate|].
  cbn [startsWith]. intros H. apply andb_prop in H. destruct H as [Hab Hp].
  apply Ascii.eqb_eq in Hab. subst b.
  rewrite !lacks_cons. intros H. apply andb_prop in H. destruct H as [Ha Hs].
  rewrite Ha, (IH s Hp Hs). reflexivity.
Qed.

(** An opening tag needs each of its bytes. *)
Lemma removeMarkers_no_open c s :
  lacks c op = false -> lacks c s = true -> removeMarkers op cl 0 s = s.
Proof.
  intros Hop. induction s as [|a s IH]; [reflexivity|].
  intros H. pose proof H as H'. rewrite lacks_cons in H'.
  apply andb_prop in H'. destruct H' as [Ha Hs].
  cbn [removeMarkers].
  assert (E : matchAt op cl (String a s) = None).
  { unfold matchAt. destruct (startsWith op (String a s)) eqn:Es; [|reflexivity].
    rewrite (startsWith_lacks c op _ Es H) in Hop. discriminate. }
  rewrite E, (IH Hs). reflexivity.
Qed.

(** A line terminator cannot begin in a text and end in a brace. *)
Lemma lineTerminatorAt_brace a r x :
  lineTerminatorAt (String a r +:+ String "}" x) = lineTerminatorAt (String a r).
Proof.
  destruct r as [|b [|c r]].
  - change (String a EmptyString +:+ String "}" x) with (String a (String "}" x)).
    destruct x; cbn [lineTerminatorAt]; rewrite ?orb_false_r; try reflexivity.
    change (code "}") with 125%nat. cbn [Nat.eqb].
    rewrite andb_false_r, orb_false_r. reflexivity.
  - change (String a (String b EmptyString) +:+ String "}" x)
      with (String a (String b (String "}" x))).
    cbn [lineTerminatorAt]. change (code "}") with 125%nat. cbn [Nat.eqb orb].
    rewrite andb_false_r. reflexivity.
  - reflexivity.
Qed.

(** The lazy body of a marker ends at the first closing tag. *)
Lemma lazyClose_body body rest :
  lacks "}" body = true -> singleLine body = true ->
  lazyClose cl (body +:+ cl +:+ rest)
  = Some (String.length body + String.length cl)%nat.
Proof.
  induction body as [|a body IH]; intros Hb Hl.
  - change (EmptyString +:+ cl +:+ rest) with (String "}" (cl' +:+ rest)).
    cbn [lazyClose].
    change (String "}" (cl' +:+ rest)) with (cl +:+ rest).
    rewrite startsWith_app. reflexivity.
  - rewrite lacks_cons in Hb. apply andb_prop in Hb. destruct Hb as [Ha Hb].
    apply negb_true_iff in Ha.
    cbn [singleLine] in Hl. apply andb_prop in Hl. destruct Hl as [Hl1 Hl].
    apply negb_true_iff in Hl1.
    change (String a body +:+ cl +:+ rest) with (String a (body +:+ cl +:+ rest)).
    rewrite (lazyClose_other a _ Ha).
    change (String a (body +:+ cl +:+ rest)) with (String a body +:+ String "}" (cl' +:+ rest)).
    rewrite lineTerminatorAt_brace, Hl1.
    change (body +:+ String "}" (cl' +:+ rest)) with (body +:+ cl +:+ rest).
    rewrite (IH Hb Hl). reflexivity.
Qed.

(** A well-formed marker is cut out and the scan goes on behind it. *)
Lemma removeMarkers_marker body rest :
  lacks "}" body = true -> singleLine body = true ->
  removeMarkers op cl 0 (op +:+ body +:+ cl +:+ rest) = removeMarkers op cl 0 rest.
Proof.
  intros Hb Hl.
  assert (E : matchAt op cl (op +:+ body +:+ cl +:+ rest)
              = Some (String.length op + (String.length body + String.length cl))%nat).
  { unfold matchAt. rewrite startsWith_app, drop_app, (lazyClose_body body rest Hb Hl).
    reflexivity. }
  change (op +:+ body +:+ cl +:+ rest) with (String "[" (op' +:+ body +:+ cl +:+ rest)) in *.
  cbn [removeMarkers]. rewrite E.
  replace (String.length op + (String.length body + String.length cl) - 1)%nat
    with (String.length (op' +:+ body +:+ cl)).
  - rewrite <- (removeMarkers_skip op cl (op' +:+ body +:+ cl) rest).
    rewrite !append_assoc. reflexivity.
  - rewrite !append_length. unfold op. cbn [String.length]. lia.
Qed.

(** A marker broken by a line terminator is not a marker. *)
Lemma lazyClose_broken body rest :
  lacks "}" body = true -> lineTerminatorAt rest = true ->
  lazyClose cl (body +:+ rest) = None.
Proof.
  intros Hb Hr. induction body as [|a body IH].
  - change (EmptyString +:+ rest) with rest.
    destruct rest as [|b rest]; [discriminate|].
    destruct (Ascii.eqb_spec "}" b) as [<-|Hne].
    + destruct rest as [|? [|? ?]]; discriminate.
    + rewrite lazyClose_other, Hr; [reflexivity|].
      apply Ascii.eqb_neq. exact Hne.
  - rewrite lacks_cons in Hb. apply andb_prop in Hb. destruct Hb as [Ha Hb].
    apply negb_true_iff in Ha.
    change (String a body +:+ rest) with (String a (body +:+ rest)).
    rewrite (lazyClose_other a _ Ha), (IH Hb).
    destruct (lineTerminatorAt (String a (body +:+ rest))); reflexivity.
Qed.

Lemma removeMarkers_broken body rest :
  lacks "[" op' = true -> lacks "[" body = true -> lacks "}" body = true ->
  lineTerminatorAt rest = true ->
  removeMarkers op cl 0 (op +:+ body +:+ rest)
  = op +:+ body +:+ removeMarkers op cl 0 rest.
Proof.
  intros Hop Hb1 Hb2 Hr.
  assert (E : matchAt op cl (op +:+ body +:+ rest) = None).
  { unfold matchAt. rewrite startsWith_app, drop_app, (lazyClose_broken body rest Hb2 Hr).
    reflexivity. }
  change (op +:+ body +:+ rest) with (String "[" (op' +:+ body +:+ rest)) in *.
  cbn [removeMarkers]. rewrite E.
  change (op +:+ body +:+ removeMarkers op cl 0 rest)
    with (String "[" (op' +:+ body +:+ removeMarkers op cl 0 rest)).
  f_equal. rewrite <- !append_assoc. apply removeMarkers_keep.
  rewrite lacks_app, Hop, Hb1. reflexivity.
Qed.

End Tag.

(** Trimming and marker removal only delete bytes. *)
Lemma trimStart_sublist s : sublist (bytes (trimStart s)) (bytes s).
Proof.
  induction s as [|a r IH1 IH2 IH3] using string_ind3; [constructor|].
  cbn [trimStart]. destruct (ws1 a); [apply sublist_cons; exact IH1|].
  destruct r as [|b r2]; [reflexivity|].
  destruct (ws2 a b); [do 2 apply sublist_cons; exact (IH2 _ _ eq_refl)|].
  destruct r2 as [|c r3]; [reflexivity|].
  destruct (ws3 a b c); [do 3 apply sublist_cons; exact (IH3 _ _ _ eq_refl)|reflexivity].
Qed.

Lemma trimEnd_sublist s : sublist (bytes (trimEnd s)) (bytes s).
Proof.
  induction s as [|a r IH]; [constructor|].
  cbn [trimEnd]. destruct (allWs (String a r)); [apply sublist_nil_l|].
  cbn [bytes]. apply sublist_skip. exact IH.
Qed.

Lemma trim_sublist s : sublist (bytes (trim s)) (bytes s).
Proof.
  unfold trim. etransitivity; [apply trimEnd_sublist|apply trimStart_sublist].
Qed.

Lemma removeMarkers_sublist op cl s : forall skip,
  sublist (bytes (removeMarkers op cl skip s)) (bytes s).
Proof.
  induction s as [|a r IH]; intros skip; [constructor|].
  cbn [removeMarkers]. destruct skip as [|k]; [|apply sublist_cons, IH].
  destruct (matchAt op cl (String a r)); [apply sublist_cons, IH|].
  cbn [bytes]. apply sublist_skip, IH.
Qed.

Lemma lacks_sublist c s t :
  sublist (bytes s) (bytes t) -> lacks c t = true -> lacks c s = true.
Proof.
  unfold lacks. intros Hsub Ht. apply negb_true_iff. apply negb_true_iff in Ht.
  destruct (existsb (Ascii.eqb c) (bytes s)) eqn:E; [|reflexivity].
  apply existsb_exists in E. destruct E as (x & Hin & Hx).
  rewrite <- Ht. symmetry. apply existsb_exists. exists x. split; [|exact Hx].
  apply list_elem_of_In. eapply elem_of_sublist; [|exact Hsub].
  apply list_elem_of_In. exact Hin.
Qed.

Lemma lacks_trim c s : lacks c s = true -> lacks c (trim s) = true.
Proof. apply lacks_sublist, trim_sublist. Qed.

End MarkerFacts.

Module MarkerRemoval.
Import JS Media Markers JSFacts TrimFacts MarkerFacts.

(** X14: marker processing only deletes: what it returns is what is left of the
    content after some bytes were taken out, in the same order. *)
Theorem markers_only_delete (content : string) :
  sublist (bytes (processVideoMarkers content)) (bytes content) /\
  sublist (bytes (processAudioMarkers content)) (bytes content) /\
  sublist (bytes (processFileMarkers content)) (bytes content) /\
  sublist (bytes (processMarkers content)) (bytes content).
Proof.
  assert (H : forall op cl s, sublist (bytes (trim (removeMarkers op cl 0 s))) (bytes s)).
  { intros op cl s. etransitivity; [apply trim_sublist|apply removeMarkers_sublist]. }
  repeat split; try apply H.
  unfold processMarkers, processFileMarkers, processAudioMarkers, processVideoMarkers.
  etransitivity; [apply H|]. etransitivity; [apply H|]. apply H.
Qed.

(** X15: content in which one of the bytes [ { } does not occur holds no
    marker: each processor, and the three in a row, only trim it. *)
Theorem text_without_marker_only_trimmed (content : string)
    (Hplain : lacks "[" content = true \/ lacks "{" content = true
              \/ lacks "}" content = true) :
  processVideoMarkers content = trim content /\
  processAudioMarkers content = trim content /\
  processFileMarkers content = trim content /\
  processMarkers content = trim content.
Proof.
  assert (H : forall op' cl' s,
            lacks "{" (String "[" op') = false ->
            lacks "[" s = true \/ lacks "{" s = true \/ lacks "}" s = true ->
            trim (removeMarkers (String "[" op') (String "}" cl') 0 s) = trim s).
  { intros op' cl' s Hop [Hs|[Hs|Hs]].
    - rewrite <- (append_empty_r s) at 1.
      rewrite (removeMarkers_keep op' cl' s EmptyString Hs).
      change (removeMarkers _ _ 0 EmptyString) with EmptyString.
      rewrite append_empty_r. reflexivity.
    - rewrite (removeMarkers_no_open op' cl' "{" s Hop Hs). reflexivity.
    - rewrite (removeMarkers_no_close op' cl' s Hs). reflexivity. }
  assert (Htrim : lacks "[" (trim content) = true \/ lacks "{" (trim content) = true
                  \/ lacks "}" (trim content) = true).
  { destruct Hplain as [Hc|[Hc|Hc]]; [left|right; left|right; right];
      apply lacks_trim; exact Hc. }
  assert (HV : forall s, lacks "[" s = true \/ lacks "{" s = true \/ lacks "}" s = true ->
                 processVideoMarkers s = trim s)
    by (intros s Hs; apply H; [reflexivity|exact Hs]).
  assert (HA : forall s, lacks "[" s = true \/ lacks "{" s = true \/ lacks "}" s = true ->
                 processAudioMarkers s = trim s)
    by (intros s Hs; apply H; [reflexivity|exact Hs]).
  assert (HF : forall s, lacks "[" s = true \/ lacks "{" s = true \/ lacks "}" s = true ->
                 processFileMarkers s = trim s)
    by (intros s Hs; apply H; [reflexivity|exact Hs]).
  repeat split; auto.
  unfold processMarkers.
  rewrite (HV content Hplain), (HA (trim content) Htrim), trim_idem.
  rewrite (HF (trim content) Htrim). apply trim_idem.
Qed.

Lemma text_without_marker_only_trimmed_witness :
  processMarkers " see [1] and (a} " = "see [1] and (a}".
Proof.
  destruct (text_without_marker_only_trimmed " see [1] and (a} ") as (_ & _ & _ & H);
    [right; left; reflexivity|].
  rewrite H. reflexivity.
Defined.

(** X16: a marker written on one line, with no closing brace inside its body,
    is cut out: the result is the one for the content without the marker.
    The text before it holds no opening bracket. *)
Theorem wellformed_marker_cut_out (pre body rest : string)
    (Hpre : lacks "[" pre = true)
    (Hbrace : lacks "}" body = true) (Hline : singleLine body = true) :
  processVideoMarkers
    (pre +:+ "[DINGTALK_VIDEO]{" +:+ body +:+ "}[/DINGTALK_VIDEO]" +:+ rest)
  = processVideoMarkers (pre +:+ rest) /\
  processAudioMarkers
    (pre +:+ "[DINGTALK_AUDIO]{" +:+ body +:+ "}[/DINGTALK_AUDIO]" +:+ rest)
  = processAudioMarkers (pre +:+ rest) /\
  processFileMarkers
    (pre +:+ "[DINGTALK_FILE]{" +:+ body +:+ "}[/DINGTALK_FILE]" +:+ rest)
  = processFileMarkers (pre +:+ rest).
Proof.
  assert (H : forall op' cl',
            removeMarkers (String "[" op') (String "}" cl') 0
              (pre +:+ String "[" op' +:+ body +:+ String "}" cl' +:+ rest)
            = removeMarkers (String "[" op') (String "}" cl') 0 (pre +:+ rest)).
  { intros op' cl'.
    rewrite !(removeMarkers_keep op' cl' pre _ Hpre).
    rewrite (removeMarkers_marker op' cl' body rest Hbrace Hline). reflexivity. }
  unfold processFileMarkers, processAudioMarkers, processVideoMarkers.
  repeat split; f_equal; apply H.
Qed.

Lemma wellformed_marker_cut_out_witness :
  processVideoMarkers
    ("Here it is. " +:+ "[DINGTALK_VIDEO]{" +:+ "'path':'/tmp/a.mp4'"
     +:+ "}[/DINGTALK_VIDEO]" +:+ EmptyString)
  = "Here it is.".
Proof.
  destruct (wellformed_marker_cut_out "Here it is. " "'path':'/tmp/a.mp4'" EmptyString)
    as (H & _ & _); [reflexivity|reflexivity|reflexivity|].
  rewrite H. reflexivity.
Defined.

(** X17: a marker whose body runs into a line terminator before any closing
    brace is not recognised: it stays in the text.  No opening brace, and
    so no other marker, follows the break. *)
Theorem broken_marker_kept (pre body rest : string)
    (Hpre : lacks "[" pre = true)
    (Hbody : lacks "[" body = true) (Hbrace : lacks "}" body = true)
    (Hbreak : lineTerminatorAt rest = true) (Hrest : lacks "{" rest = true) :
  processVideoMarkers (pre +:+ "[DINGTALK_VIDEO]{" +:+ body +:+ rest)
  = trim (pre +:+ "[DINGTALK_VIDEO]{" +:+ body +:+ rest) /\
  processAudioMarkers (pre +:+ "[DINGTALK_AUDIO]{" +:+ body +:+ rest)
  = trim (pre +:+ "[DINGTALK_AUDIO]{" +:+ body +:+ rest) /\
  processFileMarkers (pre +:+ "[DINGTALK_FILE]{" +:+ body +:+ rest)
  = trim (pre +:+ "[DINGTALK_FILE]{" +:+ body +:+ rest).
Proof.
  assert (H : forall op' cl',
            lacks "[" op' = true -> lacks "{" (String "[" op') = false ->
            removeMarkers (String "[" op') (String "}" cl') 0
              (pre +:+ String "[" op' +:+ body +:+ rest)
            = pre +:+ String "[" op' +:+ body +:+ rest).
  { intros op' cl' Hop Hop'.
    rewrite (removeMarkers_keep op' cl' pre _ Hpre).
    rewrite (removeMarkers_broken op' cl' body rest Hop Hbody Hbrace Hbreak).
    rewrite (removeMarkers_no_open op' cl' "{" rest Hop' Hrest). reflexivity. }
  unfold processFileMarkers, processAudioMarkers, processVideoMarkers.
  repeat split; f_equal; apply H; reflexivity.
Qed.

Lemma broken_marker_kept_witness :
  processFileMarkers
    ("x " +:+ "[DINGTALK_FILE]{" +:+ "'path':" +:+ String "010" "'/tmp/a.pdf'}[/DINGTALK_FILE]")
  = "x " +:+ "[DINGTALK_FILE]{" +:+ "'path':" +:+ String "010" "'/tmp/a.pdf'}[/DINGTALK_FILE]".
Proof.
  destruct (broken_marker_kept "x " "'path':" (String "010" "'/tmp/a.pdf'}[/DINGTALK_FILE]"))
    as (_ & _ & H); [reflexivity|reflexivity|reflexivity|reflexivity|reflexivity|].
  rewrite H. reflexivity.
Defined.

End MarkerRemoval.

(* ===================================================================== *)
(** * media.ts: image post-processing when uploads fail                   *)
(* ===================================================================== *)

Module ImageFacts.
Import Env Media ImageUploads.

Lemma upload_failed (w : World) (Hfail : uploadsFail w) (p : string)
    (replaced result : string -> string) (r : string) h :
  bind (uploadImage w p) (fun mediaId =>
    match mediaId with
    | Some id => if JS.truthy id then ret (replaced id) else ret r
    | None => ret r
    end) h
  = (r, h ++ [EvUploadMedia p]).
Proof.
  unfold bind, uploadImage, call.
  pose proof (Hfail (h ++ [EvUploadMedia p])) as Hf.
  destruct (uploadMediaToDingTalk w (h ++ [EvUploadMedia p])) as [id|]; [|reflexivity].
  cbn [JS.truthyOpt] in Hf. rewrite Hf. reflexivity.
Qed.

Lemma forEach_unchanged {A} (w : World) (path : A -> string)
    (replace : string -> A -> string -> string) (Hfail : uploadsFail w) (xs : list A) :
  forall (result : string) h,
    forEach xs (fun result m =>
      bind (uploadImage w (path m)) (fun mediaId =>
        match mediaId with
        | Some id => if JS.truthy id then ret (replace result m id) else ret result
        | None => ret result
        end)) result h
    = (result, h ++ map (fun m => EvUploadMedia (path m)) xs).
Proof.
  induction xs as [|x xs IH]; intros result h; cbn [forEach map].
  - unfold ret. rewrite app_nil_r. reflexivity.
  - unfold bind at 1.
    rewrite (upload_failed w Hfail (path x) (replace result x) (fun _ => result) result h).
    rewrite IH, <- app_assoc. reflexivity.
Qed.

(** X18: when every upload fails the content comes back as it was, after one
    upload request per markdown image and per bare image path that is not
    preceded, within ten UTF-16 code units, by "](", in that order. *)
Theorem failed_uploads_leave_content (w : World) (content token : string)
    (h : list Event)
    (Htoken : token <> EmptyString) (Hfail : uploadsFail w) :
  processLocalImages w content (Some token) h = (content, h ++ uploadsFor w content).
Proof.
  unfold processLocalImages. cbn [JS.truthyOpt].
  apply JSFacts.truthy_true in Htoken. rewrite Htoken. cbn [negb].
  unfold bind at 1.
  rewrite (forEach_unchanged w (fun m => unescapeSpaces (group 2 m))
             (fun result m id =>
                JS.replace (fullMatch m)
                  ("![" +:+ group 1 m +:+ "](" +:+ id +:+ ")") result) Hfail).
  rewrite (forEach_unchanged w (fun m => group 1 m)
             (fun result m id =>
                JS.onSuffix (index m)
                  (JS.replace (fullMatch m) ("![](" +:+ id +:+ ")")) result) Hfail).
  unfold uploadsFor, bareCandidates. rewrite <- app_assoc. reflexivity.
Qed.

(** One markdown image, uploaded once and left as it is; and a bare path
    at code unit 12 behind a markdown link and four CJK characters: the
    "](" of the link lies within the ten code units before the path (though
    not within the ten bytes before it), so the path is not uploaded. *)
Lemma failed_uploads_leave_content_witness :
  processLocalImages MoreExamples.failingUploads MoreExamples.imageContent
    (Some "oapi-token") []
  = (MoreExamples.imageContent, [EvUploadMedia "/tmp/chart.png"]) /\
  processLocalImages MoreExamples.linkedUploads MoreExamples.linkedContent
    (Some "oapi-token") []
  = (MoreExamples.linkedContent, []).
Proof.
  split.
  - rewrite (failed_uploads_leave_content MoreExamples.failingUploads
               MoreExamples.imageContent "oapi-token" []);
      [reflexivity|discriminate|intros h; reflexivity].
  - rewrite (failed_uploads_leave_content MoreExamples.linkedUploads
               MoreExamples.linkedContent "oapi-token" []);
      [reflexivity|discriminate|intros h; reflexivity].
Defined.

End ImageFacts.

(* ===================================================================== *)
(** * bot.ts and reply-dispatcher.ts: what a turn calls                   *)
(* ===================================================================== *)

Module TurnFacts.
Import Env Send Dispatcher Calls SendFacts Turn.

Lemma rich_outbound e : isRichCall e = true -> isOutbound e = true.
Proof. unfold isOutbound. intros ->. reflexivity. Qed.

Lemma plain_outbound e : isPlainCall e = true -> isOutbound e = true.
Proof. unfold isOutbound. intros ->. apply orb_true_r. Qed.

Lemma sendAICardInternal_outbound w target content :
  appends isOutbound (sendAICardInternal w target content).
Proof.
  intros h. destruct (sendAICardInternal_calls w target content h) as (calls & E & F).
  exists (EvGetOapiAccessToken :: calls). split; [exact E|].
  change (forallb isOutbound calls = true).
  rewrite forallb_forall in *. intros e He.
  apply rich_outbound, F, He.
Qed.

Lemma sendToUser_outbound w ids content options :
  appends isOutbound (sendToUser w ids content options).
Proof.
  assert (Hn : appends isOutbound (sendNormalToUser w (userIdArray ids) content options)).
  { apply (appends_weaken isPlainCall); [apply plain_outbound|].
    apply sendNormalToUser_plain. }
  unfold sendToUser. cbn zeta. destruct (_ && _)%bool; [|exact Hn].
  apply appends_bind; [apply sendAICardInternal_outbound|].
  intros r. destruct (_ || _)%bool; [apply appends_ret|exact Hn].
Qed.

Lemma sendToGroup_outbound w conv content options :
  appends isOutbound (sendToGroup w conv content options).
Proof.
  assert (Hn : appends isOutbound (sendNormalToGroup w conv content options)).
  { apply (appends_weaken isPlainCall); [apply plain_outbound|].
    apply sendNormalToGroup_plain. }
  unfold sendToGroup. cbn zeta. destruct (orTrue _); [|exact Hn].
  apply appends_bind; [apply sendAICardInternal_outbound|].
  intros r. destruct (_ || _)%bool; [apply appends_ret|exact Hn].
Qed.

Lemma sendPlainText_outbound w p text : appends isOutbound (sendPlainText w p text).
Proof.
  unfold sendPlainText. destruct (isDirect p).
  - apply appends_bind; [apply sendToUser_outbound|]. intros _. apply appends_ret.
  - apply appends_bind; [apply sendToGroup_outbound|]. intros _. apply appends_ret.
Qed.

Lemma closeCard_outbound text st : appends isOutbound (closeCard text st).
Proof.
  unfold closeCard. cbn zeta. destruct (card (awaitCreation st)); [|apply appends_ret].
  apply appends_bind; [apply appends_call; reflexivity|]. intros _. apply appends_ret.
Qed.

Lemma startCard_outbound w p st : appends isOutbound (startCard w p st).
Proof.
  unfold startCard. destruct (cardCreationPromise st), (card st); try apply appends_ret.
  apply appends_bind; [apply appends_call; reflexivity|]. intros a. apply appends_ret.
Qed.

Lemma deliver_outbound w p text info st : appends isOutbound (deliver w p text info st).
Proof.
  unfold deliver. cbn zeta. destruct (JS.isBlank _); [apply appends_ret|].
  destruct (card (awaitCreation st)).
  - destruct info as [[| |]|]; try apply appends_ret. apply closeCard_outbound.
  - apply appends_bind; [|intros _; apply appends_ret].
    apply appends_forEach. intros _ chunk. apply sendPlainText_outbound.
Qed.

Lemma step_outbound w p st e : appends isOutbound (step w p st e).
Proof.
  destruct e as [| |text info|err]; cbn [step].
  - unfold onReplyStart. apply appends_bind; [apply startCard_outbound|].
    intros st'. apply startCard_outbound.
  - apply appends_ret.
  - apply deliver_outbound.
  - apply closeCard_outbound.
Qed.

Lemma run_outbound w p es st : appends isOutbound (run w p es st).
Proof. unfold run. apply appends_forEach. intros acc e. apply step_outbound. Qed.

(** The same walk for the content of finished cards. *)
Lemma upload_nonblank e : isUpload e = true -> finishesNonBlank e = true.
Proof. destruct e; try discriminate; reflexivity. Qed.

Lemma plain_nonblank e : isPlainCall e = true -> finishesNonBlank e = true.
Proof. destruct e; try discriminate; reflexivity. Qed.

Lemma sendAICardInternal_nonblank w target content :
  appends finishesNonBlank (sendAICardInternal w target content).
Proof.
  unfold sendAICardInternal.
  apply appends_bind; [apply appends_call; reflexivity|]. intros token.
  apply appends_bind.
  { apply (appends_weaken isUpload); [apply upload_nonblank|apply processMedia_uploads]. }
  intros processed. destruct (JS.isBlank processed) eqn:E; [apply appends_ret|].
  apply appends_bind; [apply appends_call; reflexivity|].
  intros [[c|]|e]; try apply appends_ret.
  apply appends_bind; [|intros _; apply appends_ret].
  apply appends_call. cbn [finishesNonBlank]. rewrite E. reflexivity.
Qed.

Lemma sendToUser_nonblank w ids content options :
  appends finishesNonBlank (sendToUser w ids content options).
Proof.
  assert (Hn : appends finishesNonBlank
                 (sendNormalToUser w (userIdArray ids) content options)).
  { apply (appends_weaken isPlainCall); [apply plain_nonblank|].
    apply sendNormalToUser_plain. }
  unfold sendToUser. cbn zeta. destruct (_ && _)%bool; [|exact Hn].
  apply appends_bind; [apply sendAICardInternal_nonblank|].
  intros r. destruct (_ || _)%bool; [apply appends_ret|exact Hn].
Qed.

Lemma sendToGroup_nonblank w conv content options :
  appends finishesNonBlank (sendToGroup w conv content options).
Proof.
  assert (Hn : appends finishesNonBlank (sendNormalToGroup w conv content options)).
  { apply (appends_weaken isPlainCall); [apply plain_nonblank|].
    apply sendNormalToGroup_plain. }
  unfold sendToGroup. cbn zeta. destruct (orTrue _); [|exact Hn].
  apply appends_bind; [apply sendAICardInternal_nonblank|].
  intros r. destruct (_ || _)%bool; [apply appends_ret|exact Hn].
Qed.

Lemma closeCard_nonblank text st :
  JS.isBlank text = false -> appends finishesNonBlank (closeCard text st).
Proof.
  intros Hb. unfold closeCard. cbn zeta.
  destruct (card (awaitCreation st)); [|apply appends_ret].
  apply appends_bind; [|intros _; apply appends_ret].
  apply appends_call. cbn [finishesNonBlank].
  assert (Ht : JS.truthy text = true).
  { apply JSFacts.truthy_true. intros ->. discriminate. }
  rewrite Ht, Hb. reflexivity.
Qed.

Lemma deliver_nonblank w p text info st :
  appends finishesNonBlank (deliver w p text info st).
Proof.
  unfold deliver. cbn zeta. destruct (JS.isBlank _) eqn:Hb; [apply appends_ret|].
  destruct (card (awaitCreation st)).
  - destruct info as [[| |]|]; try apply appends_ret.
    apply closeCard_nonblank. exact Hb.
  - apply appends_bind; [|intros _; apply appends_ret].
    apply appends_forEach. intros _ chunk. unfold sendPlainText. destruct (isDirect p).
    + apply appends_bind; [apply sendToUser_nonblank|]. intros _. apply appends_ret.
    + apply appends_bind; [apply sendToGroup_nonblank|]. intros _. apply appends_ret.
Qed.

Lemma run_nonblank w p es st : appends finishesNonBlank (run w p es st).
Proof.
  unfold run. apply appends_forEach. intros acc [| |text info|err]; cbn [step].
  - unfold onReplyStart.
    assert (H : forall s, appends finishesNonBlank (startCard w p s)).
    { intros s. unfold startCard.
      destruct (cardCreationPromise s), (card s); try apply appends_ret.
      apply appends_bind; [apply appends_call; reflexivity|]. intros a. apply appends_ret. }
    apply appends_bind; [apply H|]. intros st'. apply H.
  - apply appends_ret.
  - apply deliver_nonblank.
  - unfold onError. apply closeCard_nonblank.
    rewrite JSFacts.isBlank_allWs. reflexivity.
Qed.

End TurnFacts.

Module DispatcherCalls.
Import Env Dispatcher Turn.

(** X19: whatever the reply stream of a turn, the dispatcher only calls the
    outbound API of DingTalk (tokens, uploads, cards, sends): it never
    resolves a route, dispatches a reply or touches the gateway client.
    And it never finishes a card with blank content, so that the fallback
    text of [closeCard] is never shown. *)
Theorem dispatcher_only_calls_outbound (w : World) (p : Params) (es : list ReplyEvent)
    (st : State) (h : list Event) :
  exists calls,
    snd (run w p es st h) = h ++ calls /\
    forallb isOutbound calls = true /\
    forallb finishesNonBlank calls = true.
Proof.
  destruct (TurnFacts.run_outbound w p es st h) as (calls & E & F).
  destruct (TurnFacts.run_nonblank w p es st h) as (calls' & E' & F').
  exists calls. split; [exact E|]. split; [exact F|].
  rewrite E in E'. apply app_inv_head in E'. subst calls'. exact F'.
Qed.

End DispatcherCalls.

Module OrdinaryTurn.
Import Env Session Bot Turn.

(** X20: an ordinary message (its text is neither empty nor a new-session
    command) leaves the session store as it is and is handed to the agent
    pipeline: route resolution for the peer (the sender in a direct chat,
    the conversation in a group), envelope, context, system event and
    dispatch, in that order; then the calls of the dispatcher, all of them
    outbound; then [markDispatchIdle] unless the dispatch threw. *)
Theorem ordinary_turn_pipeline (w : World) (now : Z) (sessionTimeout : option Z)
    (limit : nat) (mode : ChunkMode) (data : InboundData)
    (us : gmap string UserSession) (h : list Event)
    (Htext : extractMessageText data <> EmptyString)
    (Hcmd : isNewSessionCommand (extractMessageText data) = false) :
  exists out,
    handleDingTalkMessage w now sessionTimeout limit mode data us h
    = (us, h ++ prelude data ++ out
              ++ epilogue (snd (dispatchReplyFromConfig w (h ++ prelude data))))
    /\ forallb isOutbound out = true.
Proof.
  unfold handleDingTalkMessage. cbn zeta.
  apply JSFacts.truthy_true in Htext. rewrite Htext, Hcmd. cbn [negb].
  fold (sender data). fold (direct data). fold (nick data).
  unfold bind at 1. unfold emit at 1. unfold call at 1.
  unfold bind at 1. unfold emit at 1. unfold call at 1.
  unfold bind at 1. unfold emit at 1. unfold call at 1.
  unfold bind at 1. unfold emit at 1. unfold call at 1.
  unfold bind at 1. unfold call at 1.
  rewrite <- !app_assoc. cbn [app]. fold (prelude data).
  set (stream := dispatchReplyFromConfig w (h ++ prelude data)).
  unfold bind at 1.
  destruct (TurnFacts.run_outbound w
              (Dispatcher.mkParams (sender data) (direct data) (conversationId data)
                 limit mode)
              (fst stream) Dispatcher.initial (h ++ prelude data)) as (out & E & F).
  destruct (Dispatcher.run _ _ _ _ _) as [st h'].
  cbn [snd] in E. subst h'. exists out. split; [|exact F].
  destruct (snd stream); cbn [epilogue].
  - unfold ret. rewrite app_nil_r, <- app_assoc. reflexivity.
  - unfold bind, emit, call, ret. rewrite <- !app_assoc. reflexivity.
Qed.

Lemma ordinary_turn_pipeline_witness :
  handleDingTalkMessage MoreExamples.replyingWorld 0 None 4000 ChunkLength
    MoreExamples.hello ∅ []
  = (∅, [ EvResolveAgentRoute true "staff-1";
          EvFormatAgentEnvelope "Ann: hello";
          EvFinalizeInboundContext;
          EvEnqueueSystemEvent;
          EvDispatchReply;
          EvCreateAICard (TargetUser "staff-1");
          EvFinishAICard MoreExamples.sampleCard "hi";
          EvMarkDispatchIdle ]).
Proof.
  destruct (ordinary_turn_pipeline MoreExamples.replyingWorld 0 None 4000 ChunkLength
              MoreExamples.hello ∅ []) as (out & E & F);
    [discriminate|reflexivity|].
  reflexivity.
Defined.

(** X21: a message is dropped without any call exactly when it is a text
    message whose content is absent or blank: every other message type
    yields a text that is not empty. *)
Theorem only_blank_text_ignored (data : InboundData) :
  (extractMessageText data = EmptyString <->
   textual data = true /\ blankText data = true) /\
  (textual data = true -> blankText data = true ->
   forall w now sessionTimeout limit mode us h,
     handleDingTalkMessage w now sessionTimeout limit mode data us h = (us, h)).
Proof.
  assert (Htrim : forall fallback,
            trimmedTextOr data fallback = EmptyString <->
            fallback = EmptyString /\ blankText data = true).
  { intros fallback. unfold trimmedTextOr, blankText.
    destruct (textContent data) as [c|]; [|intuition].
    destruct (JS.truthy (JS.trim c)) eqn:E.
    - apply JSFacts.truthy_true in E. split.
      + intros H. contradiction.
      + intros [_ H]. apply JSFacts.trim_empty in H. contradiction.
    - apply JSFacts.truthy_false in E. apply JSFacts.trim_empty in E. intuition. }
  assert (Hkind : textual data = true <->
                  default "text" (JS.orElse (msgtype data) (Some "text")) = "text").
  { unfold textual, JS.orElse. destruct (msgtype data) as [m|]; cbn [JS.truthyOpt].
    - destruct (JS.truthy m) eqn:Em; cbn [default negb orb].
      + rewrite bool_decide_eq_true. unfold id. split; congruence.
      + split; reflexivity.
    - split; reflexivity. }
  assert (Hiff : extractMessageText data = EmptyString <->
                 textual data = true /\ blankText data = true).
  { unfold extractMessageText. cbn zeta. rewrite Hkind.
    set (mt := default "text" (JS.orElse (msgtype data) (Some "text"))).
    destruct (String.eqb_spec mt "text") as [->|Hne]; [rewrite Htrim; intuition|].
    assert (Hno : forall s : string, s <> EmptyString ->
              (s = EmptyString <-> mt = "text" /\ blankText data = true)).
    { intros s Hs. split; [intros; contradiction|intros [? _]; contradiction]. }
    destruct (String.eqb mt "richText").
    { destruct (JS.truthy _) eqn:Et; apply Hno; [|discriminate].
      apply JSFacts.truthy_true. exact Et. }
    destruct (String.eqb mt "picture"); [apply Hno; discriminate|].
    destruct (String.eqb mt "audio").
    { apply Hno. destruct (recognition data) as [r|]; cbn [JS.orElse JS.truthyOpt];
        [|discriminate].
      unfold JS.orElse. cbn [JS.truthyOpt].
      destruct (JS.truthy r) eqn:Er; [|discriminate].
      apply JSFacts.truthy_true. exact Er. }
    destruct (String.eqb mt "video"); [apply Hno; discriminate|].
    destruct (String.eqb mt "file"); [apply Hno; discriminate|].
    rewrite Htrim. split; [intros [? _]; discriminate|intros [? _]; contradiction]. }
  split; [exact Hiff|].
  intros Ht Hb w now sessionTimeout limit mode us h.
  unfold handleDingTalkMessage. cbn zeta.
  rewrite (proj2 Hiff (conj Ht Hb)). reflexivity.
Qed.

Lemma only_blank_text_ignored_witness :
  let data := mkData None (Some "   ") [] None None (Some "1") None "sender-1" None "conv-1" in
  handleDingTalkMessage MoreExamples.replyingWorld 0 None 4000 ChunkLength data ∅ []
  = (∅, []).
Proof.
  intros data.
  destruct (only_blank_text_ignored data) as [_ H].
  apply H; reflexivity.
Defined.

End OrdinaryTurn.

(* ===================================================================== *)
(** * bot.ts: creating and finishing an AI card                           *)
(* ===================================================================== *)

Module CardRequests.
Import Env CardApi.






End CardRequests.

(* ===================================================================== *)
(** * auth.ts: the life of a cached token                                 *)
(* ===================================================================== *)

Module TokenCaching.
Import Env Auth.

Lemma hit answer config now cache h t e :
  accessToken cache = Some t -> t <> EmptyString ->
  accessTokenExpiry cache = Some e -> now + 60000 < e ->
  getAccessToken answer config now cache h = (Returns (Some t), cache, h).
Proof.
  intros Ht Hne He Hlt. unfold getAccessToken. rewrite Ht, He. cbn [JS.truthyOpt valid].
  apply JSFacts.truthy_true in Hne. rewrite Hne.
  replace (e >? now + 60000) with true by (symmetry; apply Z.gtb_lt; lia).
  reflexivity.
Qed.

(** X24: a token that was fetched is handed out again, without any request and
    whatever credentials the caller presents, as long as the clock is more
    than a minute before the expiry computed at the fetch.  The fetch is
    the one call that missed the cache; it asks with its own credentials. *)
Theorem token_reused_within_lifetime
    (answer : list Request -> Outcome TokenResponse) (config : Credentials) (now : Z)
    (cache : TokenCache) (h : list Request) (t : string) (e : Z)
    (later : list (Credentials * Z))
    (Hmiss : (JS.truthyOpt (accessToken cache) && valid (accessTokenExpiry cache) now)%bool
             = false)
    (Hanswer : answer (h ++ [PostAccessToken (clientId config) (clientSecret config)])
               = Returns (mkTokenResponse (Some t) (Some e)))
    (Htoken : t <> EmptyString)
    (Hearly : Forall (fun call => call.2 + 60000 < now + e * 1000) later) :
  let fetched := mkCache (Some t) (Some (now + e * 1000)) in
  let h' := h ++ [PostAccessToken (clientId config) (clientSecret config)] in
  getAccessToken answer config now cache h = (Returns (Some t), fetched, h') /\
  getAll answer later fetched h' = (map (fun _ => Returns (Some t)) later, fetched, h').
Proof.
  cbn zeta. split.
  - unfold getAccessToken. rewrite Hmiss, Hanswer. reflexivity.
  - induction later as [|[c n] later IH]; [reflexivity|].
    inversion Hearly as [|x l Hn Hrest]; subst. cbn [snd] in Hn.
    cbn [getAll map].
    rewrite (hit answer c n (mkCache (Some t) (Some (now + e * 1000))) _ t
               (now + e * 1000) eq_refl Htoken eq_refl Hn).
    rewrite (IH Hrest). reflexivity.
Qed.

Lemma token_reused_within_lifetime_witness :
  let answer := fun _ : list Request =>
    Returns (mkTokenResponse (Some "token-1") (Some 7200)) in
  let first := mkCredentials (Some "key-a") (Some "secret-a") in
  let other := mkCredentials (Some "key-b") (Some "secret-b") in
  getAccessToken answer first 1000 initial []
  = (Returns (Some "token-1"), mkCache (Some "token-1") (Some 7201000),
     [PostAccessToken (Some "key-a") (Some "secret-a")]) /\
  getAll answer [(other, 7000000); (first, 7100000)]
    (mkCache (Some "token-1") (Some 7201000))
    [PostAccessToken (Some "key-a") (Some "secret-a")]
  = ([Returns (Some "token-1"); Returns (Some "token-1")],
     mkCache (Some "token-1") (Some 7201000),
     [PostAccessToken (Some "key-a") (Some "secret-a")]).
Proof.
  intros answer first other.
  apply (token_reused_within_lifetime answer first 1000 initial [] "token-1" 7200
           [(other, 7000000); (first, 7100000)]).
  - reflexivity.
  - reflexivity.
  - discriminate.
  - repeat (constructor; [cbn [snd]; lia|]). constructor.
Defined.

(** X25: a refresh that fails throws what the request threw and leaves the
    cache as it was; the next call, at the same or a later time, misses
    the cache too and asks again. *)
Theorem failed_refresh_keeps_cache
    (answer : list Request -> Outcome TokenResponse) (config config' : Credentials)
    (now now' : Z) (cache : TokenCache) (h : list Request) (err : ErrorDetails)
    (Hmiss : (JS.truthyOpt (accessToken cache) && valid (accessTokenExpiry cache) now)%bool
             = false)
    (Hanswer : answer (h ++ [PostAccessToken (clientId config) (clientSecret config)])
               = Throws err)
    (Hclock : now <= now') :
  let h' := h ++ [PostAccessToken (clientId config) (clientSecret config)] in
  getAccessToken answer config now cache h = (Throws err, cache, h') /\
  snd (getAccessToken answer config' now' cache h')
  = h' ++ [PostAccessToken (clientId config') (clientSecret config')].
Proof.
  cbn zeta. split.
  - unfold getAccessToken. rewrite Hmiss, Hanswer. reflexivity.
  - assert (Hmiss' : (JS.truthyOpt (accessToken cache)
                      && valid (accessTokenExpiry cache) now')%bool = false).
    { apply andb_false_iff in Hmiss. apply andb_false_iff.
      destruct Hmiss as [H|H]; [left; exact H|right].
      unfold valid in *. destruct (accessTokenExpiry cache) as [x|]; [|reflexivity].
      destruct (Z.gtb_spec x (now + 60000)); [discriminate|].
      destruct (Z.gtb_spec x (now' + 60000)); [lia|reflexivity]. }
    unfold getAccessToken. rewrite Hmiss'.
    destruct (answer ((h ++ [PostAccessToken (clientId config) (clientSecret config)])
                      ++ [PostAccessToken (clientId config') (clientSecret config')]));
      reflexivity.
Qed.

Lemma failed_refresh_keeps_cache_witness :
  let answer := fun _ : list Request =>
    @Throws TokenResponse (mkError None (Some "timeout")) in
  let config := mkCredentials (Some "key-a") (Some "secret-a") in
  getAccessToken answer config 1000 initial []
  = (Throws (mkError None (Some "timeout")), initial,
     [PostAccessToken (Some "key-a") (Some "secret-a")]).
Proof.
  intros answer config.
  destruct (failed_refresh_keeps_cache answer config config 1000 2000 initial []
              (mkError None (Some "timeout"))) as [H _];
    [reflexivity|reflexivity|lia|].
  exact H.
Defined.

End TokenCaching.

(* ===================================================================== *)
(** * channel.ts: what the outbound adapter reports                       *)
(* ===================================================================== *)

Module OutboundFacts.
Import Env Send SendShape EngineTraces Outbound.

Lemma sendToUser_single w userIds content opts h :
  exists r calls,
    runs (sendToUser w userIds content opts) h r calls /\ singleAttempt r calls.
Proof.
  unfold sendToUser. cbn zeta.
  destruct (orTrue (useAICard opts) && (length (userIdArray userIds) =? 1)%nat)%bool.
  - apply rich_then_plain; intros h'.
    + apply rich_summary.
    + apply sendNormalToUser_summary.
  - destruct (sendNormalToUser_summary w (userIdArray userIds) content opts h)
      as (r & calls & R & Sh & Hc & Hd & Hone).
    exists r, calls. split; [exact R|apply plain_singleAttempt; assumption].
Qed.

Lemma sendToGroup_single w conv content opts h :
  exists r calls,
    runs (sendToGroup w conv content opts) h r calls /\ singleAttempt r calls.
Proof.
  unfold sendToGroup. cbn zeta.
  destruct (orTrue (useAICard opts)).
  - apply rich_then_plain; intros h'.
    + apply rich_summary.
    + apply sendNormalToGroup_summary.
  - destruct (sendNormalToGroup_summary w conv content opts h)
      as (r & calls & R & Sh & Hc & Hd & Hone).
    exists r, calls. split; [exact R|apply plain_singleAttempt; assumption].
Qed.

Lemma sendTo_single w to content opts h :
  exists r calls, runs (sendTo w to content opts) h r calls /\ singleAttempt r calls.
Proof.
  unfold sendTo. destruct (JS.startsWith "user:" to); [apply sendToUser_single|].
  destruct (JS.startsWith "group:" to); [apply sendToGroup_single|apply sendToUser_single].
Qed.

(** What is reported for each shape of an engine result. *)
Lemma report_shapes fallback r :
  wellShaped r ->
  (plainDelivered r ->
   exists key, key <> EmptyString /\ processQueryKey r = Some key /\
               report fallback r = Sent key) /\
  (cardDelivered r \/ r = nothingSent -> report fallback r = Sent "unknown") /\
  (failed r ->
   exists msg, msg <> EmptyString /\ error r = Some msg /\ report fallback r = Thrown msg).
Proof.
  intros _. split; [|split].
  - intros (key & Hkey & ->). exists key. split; [exact Hkey|]. split; [reflexivity|].
    unfold report, JS.orElse. cbn [ok processQueryKey JS.truthyOpt].
    apply JSFacts.truthy_true in Hkey. rewrite Hkey. reflexivity.
  - intros [(id & ->)| ->]; reflexivity.
  - intros (msg & Hmsg & ->). exists msg. split; [exact Hmsg|]. split; [reflexivity|].
    unfold report, JS.orElse. cbn [ok error JS.truthyOpt].
    apply JSFacts.truthy_true in Hmsg. rewrite Hmsg. reflexivity.
Qed.

(** The text of the [Error] never is the fallback of the adapter: the
    engine always names the failure. *)
Lemma report_fallback_unused f g r : wellShaped r -> report f r = report g r.
Proof.
  intros [(id & ->)|[(key & Hkey & ->)|[->|(msg & Hmsg & ->)]]]; try reflexivity.
  unfold report, JS.orElse. cbn [ok error JS.truthyOpt].
  apply JSFacts.truthy_true in Hmsg. rewrite Hmsg. reflexivity.
Qed.

End OutboundFacts.

Module OutboundReports.
Import Env Send SendShape Outbound OutboundFacts.

(** X26: for a configured account and a target that is not empty, [sendText]
    makes one attempt of the engine and reports it: the processQueryKey as
    the message id of a plain delivery, the message id "unknown" for a
    card delivery (and for content that left nothing to send), and an
    [Error] with the error text of the engine, never empty, for a failure. *)
Theorem sendText_reports (w : World) (clientId clientSecret : option string)
    (to text : string) (h : list Event)
    (Hconfigured : unconfigured clientId clientSecret = false)
    (Htarget : to <> EmptyString) :
  exists r calls rep,
    runs (sendTo w to text noOptions) h r calls /\
    singleAttempt r calls /\
    sendText w clientId clientSecret to text h = (rep, h ++ calls) /\
    (plainDelivered r ->
     exists key, key <> EmptyString /\ processQueryKey r = Some key /\ rep = Sent key) /\
    (cardDelivered r \/ r = nothingSent -> rep = Sent "unknown") /\
    (failed r ->
     exists msg, msg <> EmptyString /\ error r = Some msg /\ rep = Thrown msg).
Proof.
  destruct (sendTo_single w to text noOptions h) as (r & calls & R & S).
  exists r, calls, (report "Failed to send message" r).
  split; [exact R|]. split; [exact S|]. split.
  - unfold sendText. rewrite Hconfigured.
    apply JSFacts.truthy_true in Htarget. rewrite Htarget. cbn [negb].
    unfold bind. unfold runs in R. rewrite R. reflexivity.
  - apply report_shapes. apply S.
Qed.

Lemma sendText_reports_witness :
  sendText Examples.cardWorld (Some "key") (Some "secret") "user:user_1" "hello" []
  = (Sent "unknown",
     [EvGetOapiAccessToken; EvCreateAICard (TargetUser "user_1");
      EvFinishAICard Examples.sampleCard "hello"]).
Proof.
  destruct (sendText_reports Examples.cardWorld (Some "key") (Some "secret")
              "user:user_1" "hello" []) as (r & calls & rep & R & S & E & _);
    [reflexivity|discriminate|].
  reflexivity.
Defined.

(** X27: without a media URL, [sendMedia] is [sendText] on the caption (the
    empty text when there is none): the two differ in the fallback text of
    the [Error] only, which is never used.  With a media URL the caption is
    not looked at. *)
Theorem sendMedia_without_url (w : World) (clientId clientSecret : option string)
    (to : string) (text mediaUrl : option string) (h : list Event)
    (Hurl : JS.truthyOpt mediaUrl = false) :
  sendMedia w clientId clientSecret to text mediaUrl h
  = sendText w clientId clientSecret to
      (default EmptyString (JS.orElse text (Some EmptyString))) h.
Proof.
  unfold sendMedia, sendText. rewrite Hurl.
  destruct (unconfigured clientId clientSecret); [reflexivity|].
  destruct (negb (JS.truthy to)); [reflexivity|].
  unfold bind.
  destruct (sendTo_single w to (default EmptyString (JS.orElse text (Some EmptyString)))
              noOptions h) as (r & calls & R & S).
  unfold runs in R. rewrite R. unfold ret. f_equal.
  apply report_fallback_unused. apply S.
Qed.

Lemma sendMedia_without_url_witness :
  sendMedia Examples.noCardWorld (Some "key") (Some "secret") "group:conv_1" None
    (Some EmptyString) []
  = sendText Examples.noCardWorld (Some "key") (Some "secret") "group:conv_1" EmptyString [].
Proof.
  apply (sendMedia_without_url Examples.noCardWorld (Some "key") (Some "secret")
           "group:conv_1" None (Some EmptyString) []).
  reflexivity.
Defined.

(** X28: the prefix of a target chooses the engine entry: "user:" and "group:"
    are cut off, and a target with neither prefix is a user id. *)
Theorem target_prefix_routing (w : World) (id content : string)
    (options : ProactiveSendOptions) :
  sendTo w ("user:" +:+ id) content options = sendToUser w (OneUser id) content options /\
  sendTo w ("group:" +:+ id) content options = sendToGroup w id content options /\
  (JS.startsWith "user:" id = false -> JS.startsWith "group:" id = false ->
   sendTo w id content options = sendTo w ("user:" +:+ id) content options).
Proof.
  split; [reflexivity|]. split; [reflexivity|].
  intros Hu Hg. unfold sendTo at 1. rewrite Hu, Hg. reflexivity.
Qed.

Lemma target_prefix_routing_witness :
  sendTo Examples.cardWorld "user_1" "hello" noOptions
  = sendTo Examples.cardWorld "user:user_1" "hello" noOptions.
Proof.
  destruct (target_prefix_routing Examples.cardWorld "user_1" "hello" noOptions)
    as (_ & _ & H).
  apply H; reflexivity.
Defined.

End OutboundReports.

(* ===================================================================== *)
(** * onboarding.ts: the entries of an allow list                         *)
(* ===================================================================== *)

Module AllowList.
Import JS Onboarding TrimFacts MarkerFacts.

Lemma clean_cons x l :
  clean (x :: l) = (if truthy (trim x) then [trim x] else []) ++ clean l.
Proof. unfold clean. cbn [map List.filter]. destruct (truthy (trim x)); reflexivity. Qed.

Lemma clean_empty l : clean (EmptyString :: l) = clean l.
Proof. apply clean_cons. Qed.

Lemma clean_app a b : clean (a ++ b) = clean a ++ clean b.
Proof. unfold clean. rewrite map_app, List.filter_app. reflexivity. Qed.

Lemma pieces_cons s : exists p ps, pieces s = p :: ps.
Proof.
  induction s as [|a r IH]; [eexists _, _; reflexivity|].
  cbn [pieces]. destruct (isSeparator a); [eexists _, _; reflexivity|].
  destruct IH as (p & ps & ->). eexists _, _; reflexivity.
Qed.

(** Splitting at runs and splitting at every separator differ in empty
    pieces only. *)
Lemma split_pieces s :
  (exists p ps ps', split false s = p :: ps /\ pieces s = p :: ps' /\ clean ps = clean ps') /\
  clean (split true s) = clean (pieces s).
Proof.
  induction s as [|a r [(p & ps & ps' & Es & Ep & Ec) IHt]].
  - split; [exists EmptyString, [], []; repeat split|reflexivity].
  - cbn [split pieces]. destruct (isSeparator a).
    + split; [|rewrite clean_empty; exact IHt].
      exists EmptyString, (split true r), (pieces r). repeat split. exact IHt.
    + rewrite Es, Ep. split.
      * exists (String a p), ps, ps'. repeat split. exact Ec.
      * rewrite !clean_cons, Ec. reflexivity.
Qed.

Lemma parse_pieces raw : parseAllowFromInput raw = clean (pieces raw).
Proof.
  unfold parseAllowFromInput.
  destruct (split_pieces raw) as [(p & ps & ps' & -> & -> & Ec) _].
  rewrite !clean_cons, Ec. reflexivity.
Qed.

Lemma pieces_app a sep b :
  isSeparator sep = true -> pieces (a +:+ String sep b) = pieces a ++ pieces b.
Proof.
  intros Hsep. induction a as [|x r IH].
  - change (EmptyString +:+ String sep b) with (String sep b).
    cbn [pieces]. rewrite Hsep. reflexivity.
  - change (String x r +:+ String sep b) with (String x (r +:+ String sep b)).
    cbn [pieces]. rewrite IH. destruct (isSeparator x); [reflexivity|].
    destruct (pieces_cons r) as (p & ps & ->). reflexivity.
Qed.

Lemma pieces_plain s : separatorFree s = true -> pieces s = [s].
Proof.
  unfold separatorFree. induction s as [|a r IH]; [reflexivity|].
  cbn [bytes forallb pieces]. intros H. apply andb_prop in H. destruct H as [Ha Hr].
  apply negb_true_iff in Ha. rewrite Ha, (IH Hr). reflexivity.
Qed.

Lemma pieces_separatorFree s : Forall (fun p => separatorFree p = true) (pieces s).
Proof.
  induction s as [|a r IH]; [repeat constructor|].
  cbn [pieces]. destruct (isSeparator a) eqn:Ea; [constructor; [reflexivity|exact IH]|].
  destruct (pieces r) as [|p ps]; [repeat constructor; unfold separatorFree; cbn; rewrite Ea; reflexivity|].
  inversion IH as [|? ? Hp Hps]; subst. constructor; [|exact Hps].
  unfold separatorFree in *. cbn [bytes forallb]. rewrite Ea, Hp. reflexivity.
Qed.

Lemma separatorFree_trim s : separatorFree s = true -> separatorFree (trim s) = true.
Proof.
  unfold separatorFree. rewrite !forallb_forall. intros H x Hx. apply H.
  apply list_elem_of_In. eapply elem_of_sublist; [|apply trim_sublist].
  apply list_elem_of_In. exact Hx.
Qed.

End AllowList.

Module AllowListEntries.
Import JS Onboarding TrimFacts AllowList.

(** X29: the entries of the parsed allow list are not empty, carry no
    white space at either end and no separator.  Parsing is compositional:
    the entries of two inputs joined by a separator (line feed, comma or
    semicolon) are those of the first followed by those of the second; an
    input without a separator is one entry, its trimmed text, or none when
    it is blank. *)
Theorem parseAllowFromInput_entries (raw : string) :
  Forall (fun entry => entry <> EmptyString /\ trim entry = entry
                       /\ separatorFree entry = true)
    (parseAllowFromInput raw) /\
  (forall sep rest, isSeparator sep = true ->
     parseAllowFromInput (raw +:+ String sep rest)
     = parseAllowFromInput raw ++ parseAllowFromInput rest) /\
  (separatorFree raw = true ->
     parseAllowFromInput raw = if allWs raw then [] else [trim raw]).
Proof.
  split; [|split].
  - rewrite parse_pieces. pose proof (pieces_separatorFree raw) as H.
    induction H as [|p ps Hp Hps IH]; [constructor|].
    rewrite clean_cons. destruct (truthy (trim p)) eqn:E; [|exact IH].
    constructor; [|exact IH].
    split; [apply JSFacts.truthy_true; exact E|].
    split; [apply trim_idem|apply separatorFree_trim; exact Hp].
  - intros sep rest Hsep. rewrite !parse_pieces, (pieces_app raw sep rest Hsep).
    apply clean_app.
  - intros H. rewrite parse_pieces, (pieces_plain raw H), clean_cons.
    cbn [clean map List.filter]. rewrite app_nil_r.
    rewrite <- JSFacts.isBlank_allWs. unfold isBlank.
    destruct (truthy (trim raw)); reflexivity.
Qed.

Lemma parseAllowFromInput_entries_witness :
  parseAllowFromInput ("alice, bob" +:+ String ";" " carol ") = ["alice"; "bob"; "carol"].
Proof.
  destruct (parseAllowFromInput_entries "alice, bob") as (_ & H & _).
  rewrite (H ";"%char " carol " eq_refl). reflexivity.
Defined.

End AllowListEntries.
